(** * Timeline editing and playback engine of the browser video editor

    A shallow embedding of [types.ts], [utils.ts], [components/Timeline.tsx],
    [components/Player.tsx] and [App.tsx], followed by the properties of the
    edit operations, the transport clock, the synchroniser and the export
    pipeline.

    Numbers.  The program computes on JavaScript numbers, that is on
    binary64 floating-point numbers.  A number is embedded as the rational
    it denotes ([Q]), and every arithmetic operation of the program rounds
    its exact result to the nearest number with a significand of 53 bits,
    ties to even ([Number.rnd]): [a [+] b], [a [-] b], [a [*] b] and
    [a [/] b] are the operators [+], [-], [*] and [/] of the source, and a
    decimal literal such as [0.02] of the source is [number 0.02], the
    number nearest to it.  Comparisons, unary minus, [Math.min], [Math.max],
    [Math.abs] and [Math.round] are exact on numbers, as they are in the
    program.  The exponent range is not bounded: [NaN], the infinities, the
    sign of zero and the loss of precision below [2^-1022] are outside the
    embedding.  The operators [+], [-], [*], [/] of [Q] are the exact ones;
    they occur in statements that compare the program's results with the
    exact values, never in the embedding of the program.

    Identifiers.  [generateId] draws from [Math.random]; each operation that
    calls it takes the drawn identifiers as arguments.

    Objects.  Clips are immutable records at the value level ([Module App]);
    [Module Heap] repeats the operations that touch the clipboard over an
    explicit object store, because the clipboard holds a reference to a clip
    object and not a copy of it, and is shown to refine [Module App].

    Events and effects.  [Module Editor] runs the handlers one browser event
    at a time; after each handler the [useEffect] hooks that concern the
    timeline run to completion before the next event ([Editor.commit]).  The
    platform encoder ([MediaRecorder]) is embedded with the behaviour the
    program relies on: the constructor refuses a container type that the
    platform does not support, [stop()] on a recording encoder makes it
    inactive and queues its [stop] event, on an inactive one it does
    nothing.

    Layout: [Number], [Math], [Types], [Timeline], [Player], [App], [Heap],
    [Editor] embed the program; [Spec] holds the vocabulary of the
    specification and [Scenario] its scenarios; [Elements] and [Canvas]
    embed the registries of media elements and the preview canvas, [More]
    holds the vocabulary of the further properties; the properties
    follow. *)

From Stdlib Require Import QArith Qminmax Qround Qabs Qpower.
From Stdlib Require Import ZArith Lia Lqa List String Ascii Bool.
Import ListNotations.
Open Scope Q_scope.

(** ** JavaScript numbers *)

Module Number.

(** The binary exponent of a positive rational: [floor (log2 x)]. *)
Definition exponent (x : Q) : Z :=
  let k := (Z.log2 (Qnum x) - Z.log2 (Zpos (Qden x)))%Z in
  if Qle_bool (2 ^ k) x then k else (k - 1)%Z.

(** The integer nearest to [y], the even one of two that are equally
    near. *)
Definition nearest_even (y : Q) : Z :=
  let f := Qfloor y in
  match Qcompare (y - inject_Z f) (1 # 2) with
  | Lt => f
  | Gt => (f + 1)%Z
  | Eq => if Z.even f then f else (f + 1)%Z
  end.

(** A positive rational rounded to 53 significant bits. *)
Definition round_pos (x : Q) : Q :=
  let e := (exponent x - 52)%Z in
  inject_Z (nearest_even (x / 2 ^ e)) * 2 ^ e.

(** The number nearest to [x]. *)
Definition rnd (x : Q) : Q :=
  match Qnum x with
  | Z0 => 0
  | Zpos _ => round_pos x
  | Zneg _ => - round_pos (- x)
  end.

Definition add (a b : Q) : Q := rnd (a + b).
Definition sub (a b : Q) : Q := rnd (a - b).
Definition mul (a b : Q) : Q := rnd (a * b).
Definition div (a b : Q) : Q := rnd (a / b).

(** [x] is a number: rounding leaves it as it is. *)
Definition is_number (x : Q) : Prop := rnd x == x.

(** The greatest relative error of one rounding, [2^-53]. *)
Definition u : Q := 1 # 9007199254740992.

End Number.

Notation "a [+] b" := (Number.add a b) (at level 50, left associativity).
Notation "a [-] b" := (Number.sub a b) (at level 50, left associativity).
Notation "a [*] b" := (Number.mul a b) (at level 40, left associativity).
Notation "a [/] b" := (Number.div a b) (at level 40, left associativity).

(** A decimal literal of the source. *)
Definition number (literal : Q) : Q := Number.rnd literal.

(** ** JavaScript [Math] *)

Module Math.

(** [Math.round]: nearest integer, a fractional part of exactly one half
    rounds towards plus infinity. *)
Definition round (x : Q) : Z := Qfloor (x + (1 # 2)).

Definition max (a b : Q) : Q := Qmax a b.
Definition min (a b : Q) : Q := Qmin a b.
Definition abs (x : Q) : Q := Qabs x.

End Math.

(** [a <= b], [a < b], [a >= b], [a > b] of the source as booleans. *)
Definition leb (a b : Q) : bool := Qle_bool a b.
Definition ltb (a b : Q) : bool := negb (Qle_bool b a).
Definition geb (a b : Q) : bool := Qle_bool b a.
Definition gtb (a b : Q) : bool := negb (Qle_bool a b).

(** ** types.ts *)

Module Types.

Inductive MediaType := video | audio.

(** The DOM [File], as far as the program reads it. *)
Record File := { file_name : string; file_type : string }.

Record Clip := {
  id : string;
  trackId : string;
  source : string;
  file : File;
  type : MediaType;
  start : Q;
  duration : Q;
  offset : Q;
  totalDuration : Q;
  name : string;
  thumbnail : option string;
  width : option Z;
  height : option Z
}.

Record Track := {
  track_id : string;
  track_type : MediaType;
  track_name : string;
  color : string;
  isMuted : bool
}.

Inductive DragMode := move | trim_start | trim_end.

Record DragState := {
  isDragging : bool;
  mode : option DragMode;
  clipId : option string;
  startX : Q;
  originalStart : Q;
  originalDuration : Q;
  originalOffset : Q
}.

(** [Partial<Clip>], restricted to the fields the program ever passes to
    [onClipUpdate]. *)
Record ClipUpdates := {
  upd_start : option Q;
  upd_duration : option Q;
  upd_offset : option Q
}.

Definition or_else {A} (o : option A) (d : A) : A :=
  match o with Some a => a | None => d end.

(** [{ ...c, ...updates }] *)
Definition spread (c : Clip) (updates : ClipUpdates) : Clip :=
  {| id := id c; trackId := trackId c; source := source c; file := file c;
     type := type c;
     start := or_else (upd_start updates) (start c);
     duration := or_else (upd_duration updates) (duration c);
     offset := or_else (upd_offset updates) (offset c);
     totalDuration := totalDuration c; name := name c;
     thumbnail := thumbnail c; width := width c; height := height c |}.

Definition media_eqb (a b : MediaType) : bool :=
  match a, b with
  | video, video | audio, audio => true
  | _, _ => false
  end.

(** JavaScript truthiness of [string | null]: [null] and the empty string
    are falsy. *)
Definition truthy (o : option string) : option string :=
  match o with
  | Some i => if String.eqb i "" then None else Some i
  | None => None
  end.

(** [clips.find(c => c.id === i)] *)
Definition find_clip (i : string) (clips : list Clip) : option Clip :=
  find (fun c => String.eqb (id c) i) clips.

(** End of a clip on the timeline, [c.start + c.duration]. *)
Definition clip_end (c : Clip) : Q := start c [+] duration c.

End Types.
Import Types.

(** ** utils.ts *)

Definition PIXELS_PER_SECOND : Q := 100.

(** ** components/Timeline.tsx *)

Module Timeline.

Definition SNAP_GRID : Q := number 0.02.

Definition zoom : Q := 1.
Definition scale : Q := PIXELS_PER_SECOND [*] zoom.

(** [Math.round(x / SNAP_GRID) * SNAP_GRID] *)
Definition snap (x : Q) : Q :=
  inject_Z (Math.round (x [/] SNAP_GRID)) [*] SNAP_GRID.

Definition initialDragState : DragState :=
  {| isDragging := false; mode := None; clipId := None; startX := 0;
     originalStart := 0; originalDuration := 0; originalOffset := 0 |}.

(** [handleMouseDown]: the new drag state ([onSelectClip(clip.id)] is the
    caller's part, see [Editor.handle]). *)
Definition handleMouseDown (clientX : Q) (clip : Clip) (m : option DragMode)
  : DragState :=
  {| isDragging := true; mode := m; clipId := Some (id clip);
     startX := clientX;
     originalStart := start clip;
     originalDuration := duration clip;
     originalOffset := offset clip |}.

Definition no_updates : ClipUpdates :=
  {| upd_start := None; upd_duration := None; upd_offset := None |}.

(** The three branches of [handleMouseMove]. *)
Definition move_updates (ds : DragState) (deltaSeconds : Q) : ClipUpdates :=
  let rawNewStart := Math.max 0 (originalStart ds [+] deltaSeconds) in
  let newStart := snap rawNewStart in
  {| upd_start := Some newStart; upd_duration := None; upd_offset := None |}.

Definition trim_start_finalDelta (ds : DragState) (deltaSeconds : Q) : Q :=
  let rawNewStart := originalStart ds [+] deltaSeconds in
  let newStart := snap rawNewStart in
  let finalDelta := newStart [-] originalStart ds in
  let maxDelta := originalDuration ds [-] number 0.1 in
  let minDelta := - originalOffset ds in
  Math.min (Math.max finalDelta minDelta) maxDelta.

Definition trim_start_updates (ds : DragState) (deltaSeconds : Q) : ClipUpdates :=
  let finalDelta := trim_start_finalDelta ds deltaSeconds in
  {| upd_start := Some (originalStart ds [+] finalDelta);
     upd_duration := Some (originalDuration ds [-] finalDelta);
     upd_offset := Some (originalOffset ds [+] finalDelta) |}.

Definition trim_end_newDuration (ds : DragState) (deltaSeconds : Q) : Q :=
  let rawNewDuration := originalDuration ds [+] deltaSeconds in
  let newDuration := snap rawNewDuration in
  Math.max (number 0.1) newDuration.

Definition trim_end_updates (ds : DragState) (clip : Clip) (deltaSeconds : Q)
  : ClipUpdates :=
  let newDuration := trim_end_newDuration ds deltaSeconds in
  if leb (originalOffset ds [+] newDuration) (totalDuration clip)
  then {| upd_start := None; upd_duration := Some newDuration;
          upd_offset := None |}
  else {| upd_start := None;
          upd_duration := Some (totalDuration clip [-] originalOffset ds);
          upd_offset := None |}.

Definition deltaSeconds (ds : DragState) (clientX : Q) : Q :=
  (clientX [-] startX ds) [/] scale.

(** [handleMouseMove]: [None] is an early [return], [Some (i, u)] is the
    call [onClipUpdate(i, u)]. *)
Definition handleMouseMove (ds : DragState) (clips : list Clip) (clientX : Q)
  : option (string * ClipUpdates) :=
  if negb (isDragging ds) then None else
  match truthy (clipId ds) with
  | None => None
  | Some cid =>
      let delta := deltaSeconds ds clientX in
      match find_clip cid clips with
      | None => None
      | Some clip =>
          let updates :=
            match mode ds with
            | Some move => move_updates ds delta
            | Some trim_start => trim_start_updates ds delta
            | Some trim_end => trim_end_updates ds clip delta
            | None => no_updates
            end in
          Some (id clip, updates)
      end
  end.

Definition handleMouseUp (ds : DragState) : DragState :=
  {| isDragging := false; mode := None; clipId := None;
     startX := startX ds;
     originalStart := originalStart ds;
     originalDuration := originalDuration ds;
     originalOffset := originalOffset ds |}.

(** [handleTimelineClick] at content position [x] (pixels): [None] while a
    drag is in progress, otherwise the time passed to [onSeek]. *)
Definition handleTimelineClick (ds : DragState) (x : Q) : option Q :=
  if isDragging ds then None
  else
    let time := Math.max 0 (x [/] scale) in
    Some (snap time).

End Timeline.

(** ** components/Player.tsx: playback and synchronisation *)

Module Player.

(** An [HTMLMediaElement], as far as the program reads and drives it. *)
Record MediaElement := {
  el_currentTime : Q;
  paused : bool;
  readyState : Z
}.

(** What the program does to an element. *)
Inductive MediaAction :=
| SetCurrentTime (t : Q)      (* [el.currentTime = t], a seek *)
| Play                        (* [el.play()] *)
| Pause.                      (* [el.pause()] *)

Definition perform (el : MediaElement) (a : MediaAction) : MediaElement :=
  match a with
  | SetCurrentTime t =>
      {| el_currentTime := t; paused := paused el;
         readyState := readyState el |}
  | Play =>
      {| el_currentTime := el_currentTime el; paused := false;
         readyState := readyState el |}
  | Pause =>
      {| el_currentTime := el_currentTime el; paused := true;
         readyState := readyState el |}
  end.

(** [currentTime >= clip.start && currentTime < clip.start + clip.duration] *)
Definition isActive (currentTime : Q) (clip : Clip) : bool :=
  geb currentTime (start clip)
  && ltb currentTime (start clip [+] duration clip).

Definition activeVideoClip (clips : list Clip) (currentTime : Q)
  : option Clip :=
  find (fun clip => media_eqb (type clip) video && isActive currentTime clip)
       clips.

(** [(currentTime - clip.start) + clip.offset] *)
Definition seekTime (currentTime : Q) (clip : Clip) : Q :=
  (currentTime [-] start clip) [+] offset clip.

(** The branch of the synchronisation effect for the element [videoEl]
    of the active clip. *)
Definition syncActive (isPlaying : bool) (currentTime : Q) (clip : Clip)
    (videoEl : MediaElement) : list MediaAction :=
  let target := seekTime currentTime clip in
  if isPlaying then
    (if gtb (Math.abs (el_currentTime videoEl [-] target)) (number 0.5)
     then [SetCurrentTime target] else [])
    ++ (if paused videoEl then [Play] else [])
  else
    Pause ::
    (if gtb (Math.abs (el_currentTime videoEl [-] target)) (number 0.01)
     then [SetCurrentTime target] else []).

(** The effect over [videoRefs]: every element but the one of the active
    clip is paused, the active one is synchronised. *)
Definition syncEffect (clips : list Clip) (currentTime : Q) (isPlaying : bool)
    (videoRefs : list (string * MediaElement))
  : list (string * list MediaAction) :=
  let active := activeVideoClip clips currentTime in
  map (fun entry : string * MediaElement =>
         let (i, video) := entry in
         match active with
         | Some clip =>
             if String.eqb (id clip) i
             then (i, syncActive isPlaying currentTime clip video)
             else (i, [Pause])
         | None => (i, [Pause])
         end) videoRefs.

End Player.

(** ** App.tsx: state *)

Module App.

Definition Blob := string.
Definition blob_size (b : Blob) : nat := String.length b.

Inductive ResolutionOption := res720p | res1080p | res_source | res_custom.

Record Resolution := { res_width : Z; res_height : Z }.

(** The platform encoder ([MediaRecorder]) as far as the program drives
    it: its [state] attribute, the options and closure of the handlers
    installed by [handleExport], and whether its [stop] event is queued. *)
Inductive RecordingState := inactive | recording.

Record MediaRecorder := {
  rec_state : RecordingState;
  mimeType : string;
  videoBitsPerSecond : Z;
  rec_resolution : Resolution;   (* [currentResolution] seen by [onstop] *)
  stop_queued : bool
}.

(** What leaves the program: calls of [recorder.stop()] that find the
    recorder recording, and files handed over by [a.click()]. *)
Record Download := {
  dl_parts : list Blob;
  dl_type : string;
  dl_name_width : Z;
  dl_name_height : Z;
  dl_name_timestamp : Z;
  dl_ext : string
}.

Inductive Output :=
| EncoderStop (position timelineDuration : Q)
| Delivered (d : Download).

Record State := {
  clips : list Clip;
  isPlaying : bool;
  isExporting : bool;
  currentTime : Q;
  totalDuration : Q;
  selectedClipId : option string;
  resolutionState : ResolutionOption;
  customResolution : Resolution;
  previousTimeRef : option Q;
  clipboardRef : option Clip;
  mediaRecorderRef : option MediaRecorder;
  recordedChunksRef : list Blob;
  exportTimeout : option Resolution;   (* pending [setTimeout] of [handleExport], with the
                                        [currentResolution] its closure captured *)
  outputs : list Output             (* most recent first *)
}.

Definition initial : State :=
  {| clips := []; isPlaying := false; isExporting := false;
     currentTime := 0; totalDuration := 30; selectedClipId := None;
     resolutionState := res720p;
     customResolution := {| res_width := 1280; res_height := 720 |};
     previousTimeRef := None; clipboardRef := None;
     mediaRecorderRef := None; recordedChunksRef := [];
     exportTimeout := None; outputs := [] |}.

(** Setters, one per [useState] setter or ref assignment. *)
Definition setClips (v : list Clip) (s : State) : State :=
  {| clips := v;
     isPlaying := isPlaying s;
     isExporting := isExporting s;
     currentTime := currentTime s;
     totalDuration := totalDuration s;
     selectedClipId := selectedClipId s;
     resolutionState := resolutionState s;
     customResolution := customResolution s;
     previousTimeRef := previousTimeRef s;
     clipboardRef := clipboardRef s;
     mediaRecorderRef := mediaRecorderRef s;
     recordedChunksRef := recordedChunksRef s;
     exportTimeout := exportTimeout s;
     outputs := outputs s |}.

Definition setIsPlaying (v : bool) (s : State) : State :=
  {| clips := clips s;
     isPlaying := v;
     isExporting := isExporting s;
     currentTime := currentTime s;
     totalDuration := totalDuration s;
     selectedClipId := selectedClipId s;
     resolutionState := resolutionState s;
     customResolution := customResolution s;
     previousTimeRef := previousTimeRef s;
     clipboardRef := clipboardRef s;
     mediaRecorderRef := mediaRecorderRef s;
     recordedChunksRef := recordedChunksRef s;
     exportTimeout := exportTimeout s;
     outputs := outputs s |}.

Definition setIsExporting (v : bool) (s : State) : State :=
  {| clips := clips s;
     isPlaying := isPlaying s;
     isExporting := v;
     currentTime := currentTime s;
     totalDuration := totalDuration s;
     selectedClipId := selectedClipId s;
     resolutionState := resolutionState s;
     customResolution := customResolution s;
     previousTimeRef := previousTimeRef s;
     clipboardRef := clipboardRef s;
     mediaRecorderRef := mediaRecorderRef s;
     recordedChunksRef := recordedChunksRef s;
     exportTimeout := exportTimeout s;
     outputs := outputs s |}.

Definition setCurrentTime (v : Q) (s : State) : State :=
  {| clips := clips s;
     isPlaying := isPlaying s;
     isExporting := isExporting s;
     currentTime := v;
     totalDuration := totalDuration s;
     selectedClipId := selectedClipId s;
     resolutionState := resolutionState s;
     customResolution := customResolution s;
     previousTimeRef := previousTimeRef s;
     clipboardRef := clipboardRef s;
     mediaRecorderRef := mediaRecorderRef s;
     recordedChunksRef := recordedChunksRef s;
     exportTimeout := exportTimeout s;
     outputs := outputs s |}.

Definition setTotalDuration (v : Q) (s : State) : State :=
  {| clips := clips s;
     isPlaying := isPlaying s;
     isExporting := isExporting s;
     currentTime := currentTime s;
     totalDuration := v;
     selectedClipId := selectedClipId s;
     resolutionState := resolutionState s;
     customResolution := customResolution s;
     previousTimeRef := previousTimeRef s;
     clipboardRef := clipboardRef s;
     mediaRecorderRef := mediaRecorderRef s;
     recordedChunksRef := recordedChunksRef s;
     exportTimeout := exportTimeout s;
     outputs := outputs s |}.

Definition setSelectedClipId (v : option string) (s : State) : State :=
  {| clips := clips s;
     isPlaying := isPlaying s;
     isExporting := isExporting s;
     currentTime := currentTime s;
     totalDuration := totalDuration s;
     selectedClipId := v;
     resolutionState := resolutionState s;
     customResolution := customResolution s;
     previousTimeRef := previousTimeRef s;
     clipboardRef := clipboardRef s;
     mediaRecorderRef := mediaRecorderRef s;
     recordedChunksRef := recordedChunksRef s;
     exportTimeout := exportTimeout s;
     outputs := outputs s |}.

Definition setResolutionState (v : ResolutionOption) (s : State) : State :=
  {| clips := clips s;
     isPlaying := isPlaying s;
     isExporting := isExporting s;
     currentTime := currentTime s;
     totalDuration := totalDuration s;
     selectedClipId := selectedClipId s;
     resolutionState := v;
     customResolution := customResolution s;
     previousTimeRef := previousTimeRef s;
     clipboardRef := clipboardRef s;
     mediaRecorderRef := mediaRecorderRef s;
     recordedChunksRef := recordedChunksRef s;
     exportTimeout := exportTimeout s;
     outputs := outputs s |}.

Definition setCustomResolution (v : Resolution) (s : State) : State :=
  {| clips := clips s;
     isPlaying := isPlaying s;
     isExporting := isExporting s;
     currentTime := currentTime s;
     totalDuration := totalDuration s;
     selectedClipId := selectedClipId s;
     resolutionState := resolutionState s;
     customResolution := v;
     previousTimeRef := previousTimeRef s;
     clipboardRef := clipboardRef s;
     mediaRecorderRef := mediaRecorderRef s;
     recordedChunksRef := recordedChunksRef s;
     exportTimeout := exportTimeout s;
     outputs := outputs s |}.

Definition setPreviousTimeRef (v : option Q) (s : State) : State :=
  {| clips := clips s;
     isPlaying := isPlaying s;
     isExporting := isExporting s;
     currentTime := currentTime s;
     totalDuration := totalDuration s;
     selectedClipId := selectedClipId s;
     resolutionState := resolutionState s;
     customResolution := customResolution s;
     previousTimeRef := v;
     clipboardRef := clipboardRef s;
     mediaRecorderRef := mediaRecorderRef s;
     recordedChunksRef := recordedChunksRef s;
     exportTimeout := exportTimeout s;
     outputs := outputs s |}.

Definition setClipboardRef (v : option Clip) (s : State) : State :=
  {| clips := clips s;
     isPlaying := isPlaying s;
     isExporting := isExporting s;
     currentTime := currentTime s;
     totalDuration := totalDuration s;
     selectedClipId := selectedClipId s;
     resolutionState := resolutionState s;
     customResolution := customResolution s;
     previousTimeRef := previousTimeRef s;
     clipboardRef := v;
     mediaRecorderRef := mediaRecorderRef s;
     recordedChunksRef := recordedChunksRef s;
     exportTimeout := exportTimeout s;
     outputs := outputs s |}.

Definition setMediaRecorderRef (v : option MediaRecorder) (s : State) : State :=
  {| clips := clips s;
     isPlaying := isPlaying s;
     isExporting := isExporting s;
     currentTime := currentTime s;
     totalDuration := totalDuration s;
     selectedClipId := selectedClipId s;
     resolutionState := resolutionState s;
     customResolution := customResolution s;
     previousTimeRef := previousTimeRef s;
     clipboardRef := clipboardRef s;
     mediaRecorderRef := v;
     recordedChunksRef := recordedChunksRef s;
     exportTimeout := exportTimeout s;
     outputs := outputs s |}.

Definition setRecordedChunksRef (v : list Blob) (s : State) : State :=
  {| clips := clips s;
     isPlaying := isPlaying s;
     isExporting := isExporting s;
     currentTime := currentTime s;
     totalDuration := totalDuration s;
     selectedClipId := selectedClipId s;
     resolutionState := resolutionState s;
     customResolution := customResolution s;
     previousTimeRef := previousTimeRef s;
     clipboardRef := clipboardRef s;
     mediaRecorderRef := mediaRecorderRef s;
     recordedChunksRef := v;
     exportTimeout := exportTimeout s;
     outputs := outputs s |}.

Definition setExportTimeout (v : option Resolution) (s : State) : State :=
  {| clips := clips s;
     isPlaying := isPlaying s;
     isExporting := isExporting s;
     currentTime := currentTime s;
     totalDuration := totalDuration s;
     selectedClipId := selectedClipId s;
     resolutionState := resolutionState s;
     customResolution := customResolution s;
     previousTimeRef := previousTimeRef s;
     clipboardRef := clipboardRef s;
     mediaRecorderRef := mediaRecorderRef s;
     recordedChunksRef := recordedChunksRef s;
     exportTimeout := v;
     outputs := outputs s |}.

Definition emit (o : Output) (s : State) : State :=
  {| clips := clips s;
     isPlaying := isPlaying s;
     isExporting := isExporting s;
     currentTime := currentTime s;
     totalDuration := totalDuration s;
     selectedClipId := selectedClipId s;
     resolutionState := resolutionState s;
     customResolution := customResolution s;
     previousTimeRef := previousTimeRef s;
     clipboardRef := clipboardRef s;
     mediaRecorderRef := mediaRecorderRef s;
     recordedChunksRef := recordedChunksRef s;
     exportTimeout := exportTimeout s;
     outputs := o :: outputs s |}.

(** ** App.tsx: derived values and effects *)

Definition default_resolution : Resolution :=
  {| res_width := 1280; res_height := 720 |}.

(** [currentResolution] ([useMemo]) *)
Definition source_step (acc : Z * Z * bool) (clip : Clip) : Z * Z * bool :=
  let '(maxWidth, maxHeight, found) := acc in
  match type clip, width clip, height clip with
  | video, Some w, Some h =>
      if negb (w =? 0)%Z && negb (h =? 0)%Z then
        if (maxWidth * maxHeight <? w * h)%Z then (w, h, true) else acc
      else acc
  | _, _, _ => acc
  end.

Definition currentResolution (s : State) : Resolution :=
  match resolutionState s with
  | res_custom => customResolution s
  | res1080p => {| res_width := 1920; res_height := 1080 |}
  | res_source =>
      let '(maxWidth, maxHeight, found) :=
        fold_left source_step (clips s) (0%Z, 0%Z, false) in
      if found then {| res_width := maxWidth; res_height := maxHeight |}
      else default_resolution
  | res720p => default_resolution
  end.

(** Auto-adjust total duration ([useEffect] on [clips]). *)
Definition maxClipEnd (cs : list Clip) : Q :=
  fold_left (fun max clip => Math.max max (start clip [+] duration clip)) cs 0.

Definition DEFAULT_DURATION : Q := 30.

Definition newDuration (cs : list Clip) : Q :=
  if gtb (maxClipEnd cs) 0 then maxClipEnd cs else DEFAULT_DURATION.

Definition adjustTotalDuration (s : State) : State :=
  setTotalDuration (newDuration (clips s)) s.

(** ** Playback engine *)

(** The state updater passed to [setCurrentTime] inside [animate]. *)
Definition advance (deltaTime : Q) (s : State) : State :=
  let next := currentTime s [+] deltaTime in
  if geb next (totalDuration s) then
    if isExporting s then
      setCurrentTime (totalDuration s) (setIsPlaying false s)
    else
      setCurrentTime 0 (setIsPlaying false s)
  else setCurrentTime next s.

(** [animate(time)], one animation frame. *)
Definition animate (time : Q) (s : State) : State :=
  let s1 :=
    match previousTimeRef s with
    | Some previous => advance ((time [-] previous) [/] 1000) s
    | None => s
    end in
  setPreviousTimeRef (Some time) s1.

(** The playback [useEffect]: when not playing the pending frame is
    cancelled and [previousTimeRef] is cleared. *)
Definition playbackEffect (s : State) : State :=
  if isPlaying s then s else setPreviousTimeRef None s.

Definition togglePlay (s : State) : State :=
  setIsPlaying (negb (isPlaying s)) s.

(** ** Audio synchronisation

    The "Sync play state" loop of the audio effect, for one audio clip
    and its element. *)
Definition syncAudio (isPlaying : bool) (currentTime : Q) (clip : Clip)
    (audio : Player.MediaElement) : list Player.MediaAction :=
  let isActive := Player.isActive currentTime clip in
  if isActive && isPlaying then
    let seekTime := Player.seekTime currentTime clip in
    if gtb (Math.abs (Player.el_currentTime audio [-] seekTime)) (number 0.2)
       || Player.paused audio
    then [Player.SetCurrentTime seekTime; Player.Play]
    else []
  else
    if negb (Player.paused audio) then [Player.Pause] else [].

Definition audioSync (cs : list Clip) (currentTime : Q) (isPlaying : bool)
    (audioRefs : list (string * Player.MediaElement))
  : list (string * list Player.MediaAction) :=
  flat_map
    (fun clip =>
       match type clip with
       | audio =>
           match find (fun e => String.eqb (fst e) (id clip)) audioRefs with
           | Some (i, el) => [(i, syncAudio isPlaying currentTime clip el)]
           | None => []
           end
       | video => []
       end) cs.

(** ** Handlers of the edit operations *)

(** [Array.prototype.sort] with the comparator
    [(a, b) => (a.start + a.duration) - (b.start + b.duration)]; the sort
    is stable. *)
Fixpoint insert_by_end (a : Clip) (l : list Clip) : list Clip :=
  match l with
  | [] => [a]
  | b :: l' =>
      if leb (clip_end a) (clip_end b) then a :: b :: l'
      else b :: insert_by_end a l'
  end.

Definition sort_by_end (l : list Clip) : list Clip :=
  fold_right insert_by_end [] l.

(** [arr.pop()] as the removed element. *)
Definition pop (l : list Clip) : option Clip :=
  match rev l with
  | [] => None
  | c :: _ => Some c
  end.

Record Metadata := {
  meta_duration : Q;
  meta_width : option Z;
  meta_height : option Z
}.

(** The updater that [addClipFromFile] passes to [setClips] once the
    metadata [meta] of [f] is known; [gid] is the identifier drawn by
    [generateId], [url] the object URL. *)
Definition addClip (gid url : string) (f : File) (tid : string)
    (ty : MediaType) (meta : Metadata) (prevClips : list Clip) : list Clip :=
  let trackClips := filter (fun c => String.eqb (trackId c) tid) prevClips in
  let lastClip := pop (sort_by_end trackClips) in
  let st :=
    match lastClip with
    | Some l => start l [+] duration l [+] number 0.5
    | None => 0
    end in
  let newClip :=
    {| id := gid; trackId := tid; source := url; file := f; type := ty;
       start := st;
       duration := Math.min (meta_duration meta) 10;
       offset := 0;
       Types.totalDuration := meta_duration meta;
       name := file_name f; thumbnail := None;
       width := meta_width meta; height := meta_height meta |} in
  prevClips ++ [newClip].

Definition addClipFromFile (gid url : string) (f : File) (tid : string)
    (ty : MediaType) (meta : Metadata) (s : State) : State :=
  setClips (addClip gid url f tid ty meta (clips s)) s.

(** [handleTrackDrop] for one dropped file: the kind under which the file
    is added, [None] when the drop is refused. *)
Definition tracks : list Track :=
  [ {| track_id := "track-1"; track_type := video; track_name := "Video 1";
       color := "blue"; isMuted := false |};
    {| track_id := "track-2"; track_type := audio; track_name := "Audio 1";
       color := "green"; isMuted := false |};
    {| track_id := "track-3"; track_type := audio; track_name := "Audio 2";
       color := "teal"; isMuted := false |} ].

Definition dropKind (tid : string) (f : File) : option MediaType :=
  match find (fun t => String.eqb (track_id t) tid) tracks with
  | None => None
  | Some track =>
      let isVideo := String.prefix "video/" (file_type f) in
      let isAudio := String.prefix "audio/" (file_type f) in
      match track_type track with
      | video => if isVideo then Some video else None
      | audio => if isAudio then Some audio else None
      end
  end.

Definition handleClipUpdate (cid : string) (updates : ClipUpdates)
    (s : State) : State :=
  setClips
    (map (fun c => if String.eqb (id c) cid then spread c updates else c)
         (clips s)) s.

Definition option_string_eqb (o : option string) (i : string) : bool :=
  match o with
  | Some j => String.eqb j i
  | None => false
  end.

Definition handleDeleteClip (cid : string) (s : State) : State :=
  let s1 := setClips (filter (fun c => negb (String.eqb (id c) cid)) (clips s)) s in
  if option_string_eqb (selectedClipId s) cid
  then setSelectedClipId None s1 else s1.

(** [handleSplitClip]; [gid1] and [gid2] are the two identifiers drawn by
    [generateId], in call order. *)
Definition splitLeft (gid1 : string) (clip : Clip) (at_ : Q) : Clip :=
  let splitPointRelativeToClip := at_ [-] start clip in
  {| id := gid1; trackId := trackId clip; source := source clip;
     file := file clip; type := type clip;
     start := start clip;
     duration := splitPointRelativeToClip;
     offset := offset clip;
     Types.totalDuration := Types.totalDuration clip; name := name clip;
     thumbnail := thumbnail clip; width := width clip;
     height := height clip |}.

Definition splitRight (gid2 : string) (clip : Clip) (at_ : Q) : Clip :=
  let splitPointRelativeToClip := at_ [-] start clip in
  {| id := gid2; trackId := trackId clip; source := source clip;
     file := file clip; type := type clip;
     start := at_;
     duration := duration clip [-] splitPointRelativeToClip;
     offset := offset clip [+] splitPointRelativeToClip;
     Types.totalDuration := Types.totalDuration clip; name := name clip;
     thumbnail := thumbnail clip; width := width clip;
     height := height clip |}.

Definition handleSplitClip (gid1 gid2 : string) (s : State) : State :=
  match truthy (selectedClipId s) with
  | None => s
  | Some sel =>
      match find_clip sel (clips s) with
      | None => s
      | Some clip =>
          if leb (currentTime s) (start clip [+] number 0.05)
             || geb (currentTime s)
                    (start clip [+] duration clip [-] number 0.05)
          then s
          else
            let clip1 := splitLeft gid1 clip (currentTime s) in
            let clip2 := splitRight gid2 clip (currentTime s) in
            let others :=
              filter (fun c => negb (String.eqb (id c) (id clip))) (clips s) in
            setSelectedClipId (Some (id clip2))
              (setClips (others ++ [clip1; clip2]) s)
      end
  end.

(** The three shortcuts of [handleKeyDown]. *)
Definition copy (s : State) : State :=
  match truthy (selectedClipId s) with
  | None => s
  | Some sel =>
      match find_clip sel (clips s) with
      | Some clip => setClipboardRef (Some clip) s
      | None => s
      end
  end.

(** [{ ...clipboardRef.current, id: generateId(), start, trackId }] *)
Definition pastedClip (gid : string) (st : Q) (board : Clip) : Clip :=
  {| id := gid; trackId := trackId board; source := source board;
     file := file board; type := type board;
     start := st;
     duration := duration board; offset := offset board;
     Types.totalDuration := Types.totalDuration board; name := name board;
     thumbnail := thumbnail board; width := width board;
     height := height board |}.

Definition pasteStart (s : State) : Q :=
  let selectedClip :=
    match selectedClipId s with
    | Some sel => find_clip sel (clips s)
    | None => None
    end in
  match selectedClip with
  | Some c => start c [+] duration c
  | None => currentTime s
  end.

Definition paste (gid : string) (s : State) : State :=
  match clipboardRef s with
  | None => s
  | Some board =>
      let newClip := pastedClip gid (pasteStart s) board in
      setSelectedClipId (Some (id newClip))
        (setClips (clips s ++ [newClip]) s)
  end.

Definition deleteKey (s : State) : State :=
  match truthy (selectedClipId s) with
  | Some sel => handleDeleteClip sel s
  | None => s
  end.

Definition clearAll (s : State) : State := setClips [] s.

(** [onSeek]: [(t) => !isExporting && setCurrentTime(t)] *)
Definition onSeek (t : Q) (s : State) : State :=
  if isExporting s then s else setCurrentTime t s.

(** ** Export *)

Definition handleExport (s : State) : State :=
  if isExporting s then s
  else
    setExportTimeout (Some (currentResolution s))
      (setRecordedChunksRef []
         (setIsExporting true (setCurrentTime 0 (setIsPlaying false s)))).

Definition chooseMimeType (isTypeSupported : string -> bool) : string :=
  (if isTypeSupported "video/mp4" then "video/mp4"
   else if isTypeSupported "video/mp4;codecs=avc1.42E01E,mp4a.40.2"
   then "video/mp4;codecs=avc1.42E01E,mp4a.40.2"
   else if isTypeSupported "video/webm;codecs=h264"
   then "video/webm;codecs=h264"
   else "video/webm;codecs=vp9")%string.

Definition chooseBitrate (r : Resolution) : Z :=
  let pixelCount := (res_width r * res_height r)%Z in
  if (1920 * 1080 <=? pixelCount)%Z then 8000000%Z
  else if (pixelCount <? 1280 * 720)%Z then 3000000%Z
  else 5000000%Z.

(** The callback of the 200 ms [setTimeout]; [refs_ok] tells whether
    [canvasRef.current] and [audioDestRef.current] are set.  The
    constructor [new MediaRecorder(stream, { mimeType, ... })] throws
    [NotSupportedError] when the platform does not support [mimeType],
    which ends the callback before the recorder is stored or started. *)
Definition exportStart (refs_ok : bool) (isTypeSupported : string -> bool)
    (s : State) : State :=
  match exportTimeout s with
  | None => s
  | Some r =>
      let s0 := setExportTimeout None s in
      if negb refs_ok then s0
      else
        let mimeType := chooseMimeType isTypeSupported in
        if negb (isTypeSupported mimeType) then s0
        else
          let recorder :=
            {| rec_state := recording;       (* after [recorder.start()] *)
               App.mimeType := mimeType;
               videoBitsPerSecond := chooseBitrate r;
               rec_resolution := r;
               stop_queued := false |} in
          setIsPlaying true (setMediaRecorderRef (Some recorder) s0)
  end.

(** [recorder.ondataavailable] *)
Definition ondataavailable (data : Blob) (s : State) : State :=
  if (0 <? blob_size data)%nat
  then setRecordedChunksRef (recordedChunksRef s ++ [data]) s
  else s.

Fixpoint includes (needle hay : string) : bool :=
  String.prefix needle hay
  || match hay with
     | EmptyString => false
     | String _ rest => includes needle rest
     end.

(** The [type] of [new Blob(parts, { type })]: the empty string when
    [type] holds a character outside U+0020 to U+007E, otherwise [type]
    in ASCII lower case. *)
Definition printable (c : ascii) : bool :=
  (32 <=? nat_of_ascii c)%nat && (nat_of_ascii c <=? 126)%nat.

Definition ascii_lower (c : ascii) : ascii :=
  if (65 <=? nat_of_ascii c)%nat && (nat_of_ascii c <=? 90)%nat
  then ascii_of_nat (nat_of_ascii c + 32) else c.

Fixpoint all_printable (t : string) : bool :=
  match t with
  | EmptyString => true
  | String c rest => printable c && all_printable rest
  end.

Fixpoint lower (t : string) : string :=
  match t with
  | EmptyString => EmptyString
  | String c rest => String (ascii_lower c) (lower rest)
  end.

Definition blob_type (t : string) : string :=
  if all_printable t then lower t else ""%string.

(** [recorder.onstop], called at wall-clock time [now]. *)
Definition onstop (now : Z) (r : MediaRecorder) (s : State) : State :=
  let isMp4 := includes "mp4" (mimeType r) in
  let d :=
    {| dl_parts := recordedChunksRef s; dl_type := blob_type (mimeType r);
       dl_name_width := res_width (rec_resolution r);
       dl_name_height := res_height (rec_resolution r);
       dl_name_timestamp := now;
       dl_ext := if isMp4 then "mp4" else "webm" |} in
  setCurrentTime 0 (setIsExporting false (emit (Delivered d) s)).

(** [mediaRecorderRef.current?.stop()]: nothing happens without a recorder
    or on an inactive one; a recording one becomes inactive and its
    [stop] event is queued. *)
Definition recorder_stop (s : State) : State :=
  match mediaRecorderRef s with
  | None => s
  | Some r =>
      match rec_state r with
      | inactive => s
      | recording =>
          emit (EncoderStop (currentTime s) (totalDuration s))
            (setMediaRecorderRef
               (Some {| rec_state := inactive; mimeType := mimeType r;
                        videoBitsPerSecond := videoBitsPerSecond r;
                        rec_resolution := rec_resolution r;
                        stop_queued := true |}) s)
      end
  end.

(** "Watch for end of export" ([useEffect]). *)
Definition exportWatch (s : State) : State :=
  if isExporting s && negb (isPlaying s)
     && geb (currentTime s) (totalDuration s)
  then recorder_stop s
  else s.

End App.

(** ** The clipboard over an object store

    [clipboardRef.current = clip] stores a reference to the clip object that
    is in [clips] at that moment.  Here clip objects live in a store, the
    clip array and the clipboard hold references, and the handlers of
    [Module App] that touch clips are repeated with every object creation
    ([{ ...c, ...updates }], an object literal) as an allocation.  The
    source never assigns to a field of a clip object, so the store has no
    write operation. *)

Module Heap.

Definition Ref := nat.
Definition Store := list Clip.

Definition deref (h : Store) (r : Ref) : option Clip := nth_error h r.

Definition alloc (h : Store) (c : Clip) : Store * Ref :=
  (h ++ [c], List.length h).

Record State := {
  store : Store;
  clips : list Ref;
  selectedClipId : option string;
  clipboardRef : option Ref;
  currentTime : Q
}.

(** The objects an array of references denotes. *)
Definition objects (h : Store) (rs : list Ref) : list Clip :=
  flat_map (fun r => match deref h r with Some c => [c] | None => [] end) rs.

(** [clips.find(c => c.id === i)], as the reference found. *)
Fixpoint find_ref (i : string) (h : Store) (rs : list Ref) : option Ref :=
  match rs with
  | [] => None
  | r :: rs' =>
      match deref h r with
      | Some c => if String.eqb (id c) i then Some r else find_ref i h rs'
      | None => find_ref i h rs'
      end
  end.

(** [prev.map(c => c.id === clipId ? { ...c, ...updates } : c)] *)
Fixpoint map_update (cid : string) (updates : ClipUpdates)
    (h : Store) (rs : list Ref) : Store * list Ref :=
  match rs with
  | [] => (h, [])
  | r :: rs' =>
      match deref h r with
      | Some c =>
          if String.eqb (id c) cid then
            let (h1, r1) := alloc h (spread c updates) in
            let (h2, rs2) := map_update cid updates h1 rs' in
            (h2, r1 :: rs2)
          else
            let (h2, rs2) := map_update cid updates h rs' in
            (h2, r :: rs2)
      | None =>
          let (h2, rs2) := map_update cid updates h rs' in
          (h2, rs2)
      end
  end.

Definition handleClipUpdate (cid : string) (updates : ClipUpdates)
    (s : State) : State :=
  let (h, rs) := map_update cid updates (store s) (clips s) in
  {| store := h; clips := rs; selectedClipId := selectedClipId s;
     clipboardRef := clipboardRef s; currentTime := currentTime s |}.

Definition keeps (cid : string) (h : Store) (r : Ref) : bool :=
  match deref h r with
  | Some c => negb (String.eqb (id c) cid)
  | None => false
  end.

Definition handleDeleteClip (cid : string) (s : State) : State :=
  {| store := store s;
     clips := filter (keeps cid (store s)) (clips s);
     selectedClipId :=
       if App.option_string_eqb (selectedClipId s) cid then None
       else selectedClipId s;
     clipboardRef := clipboardRef s; currentTime := currentTime s |}.

Definition handleSplitClip (gid1 gid2 : string) (s : State) : State :=
  match truthy (selectedClipId s) with
  | None => s
  | Some sel =>
      match find_ref sel (store s) (clips s) with
      | None => s
      | Some r =>
          match deref (store s) r with
          | None => s
          | Some clip =>
              if leb (currentTime s) (start clip [+] number 0.05)
                 || geb (currentTime s)
                        (start clip [+] duration clip [-] number 0.05)
              then s
              else
                let (h1, r1) :=
                  alloc (store s) (App.splitLeft gid1 clip (currentTime s)) in
                let (h2, r2) :=
                  alloc h1 (App.splitRight gid2 clip (currentTime s)) in
                {| store := h2;
                   clips := filter (keeps (id clip) (store s)) (clips s)
                            ++ [r1; r2];
                   selectedClipId := Some gid2;
                   clipboardRef := clipboardRef s;
                   currentTime := currentTime s |}
          end
      end
  end.

Definition copy (s : State) : State :=
  match truthy (selectedClipId s) with
  | None => s
  | Some sel =>
      match find_ref sel (store s) (clips s) with
      | Some r =>
          {| store := store s; clips := clips s;
             selectedClipId := selectedClipId s;
             clipboardRef := Some r; currentTime := currentTime s |}
      | None => s
      end
  end.

Definition pasteStart (s : State) : Q :=
  let selectedClip :=
    match selectedClipId s with
    | Some sel =>
        match find_ref sel (store s) (clips s) with
        | Some r => deref (store s) r
        | None => None
        end
    | None => None
    end in
  match selectedClip with
  | Some c => start c [+] duration c
  | None => currentTime s
  end.

Definition paste (gid : string) (s : State) : State :=
  match clipboardRef s with
  | None => s
  | Some b =>
      match deref (store s) b with
      | None => s
      | Some board =>
          let (h1, r1) :=
            alloc (store s) (App.pastedClip gid (pasteStart s) board) in
          {| store := h1; clips := clips s ++ [r1];
             selectedClipId := Some gid;
             clipboardRef := clipboardRef s; currentTime := currentTime s |}
      end
  end.

Definition deleteKey (s : State) : State :=
  match truthy (selectedClipId s) with
  | Some sel => handleDeleteClip sel s
  | None => s
  end.

Definition clearAll (s : State) : State :=
  {| store := store s; clips := []; selectedClipId := selectedClipId s;
     clipboardRef := clipboardRef s; currentTime := currentTime s |}.

Definition addClipFromFile (gid url : string) (f : File) (tid : string)
    (ty : MediaType) (meta : App.Metadata) (s : State) : State :=
  let prev := objects (store s) (clips s) in
  match rev (App.addClip gid url f tid ty meta prev) with
  | newClip :: _ =>
      let (h1, r1) := alloc (store s) newClip in
      {| store := h1; clips := clips s ++ [r1];
         selectedClipId := selectedClipId s;
         clipboardRef := clipboardRef s; currentTime := currentTime s |}
  | [] => s
  end.

Definition setCurrentTime (t : Q) (s : State) : State :=
  {| store := store s; clips := clips s; selectedClipId := selectedClipId s;
     clipboardRef := clipboardRef s; currentTime := t |}.

Definition setSelectedClipId (o : option string) (s : State) : State :=
  {| store := store s; clips := clips s; selectedClipId := o;
     clipboardRef := clipboardRef s; currentTime := currentTime s |}.

(** The operations that may follow a copy. *)
Inductive Op :=
| Update (cid : string) (updates : ClipUpdates)   (* move and trim *)
| Split (gid1 gid2 : string)
| Delete (cid : string)
| DeleteSelected
| ClearAll
| Add (gid url : string) (f : File) (tid : string) (ty : MediaType)
      (meta : App.Metadata)
| Paste (gid : string)
| Seek (t : Q)
| Select (o : option string).

Definition apply (s : State) (op : Op) : State :=
  match op with
  | Update cid updates => handleClipUpdate cid updates s
  | Split gid1 gid2 => handleSplitClip gid1 gid2 s
  | Delete cid => handleDeleteClip cid s
  | DeleteSelected => deleteKey s
  | ClearAll => clearAll s
  | Add gid url f tid ty meta => addClipFromFile gid url f tid ty meta s
  | Paste gid => paste gid s
  | Seek t => setCurrentTime t s
  | Select o => setSelectedClipId o s
  end.

Definition run (s : State) (ops : list Op) : State := fold_left apply ops s.

(** Every reference of the state points into the store. *)
Definition well_formed (s : State) : Prop :=
  (forall r, In r (clips s) -> (r < List.length (store s))%nat) /\
  (forall r, clipboardRef s = Some r -> (r < List.length (store s))%nat).

(** The state of [Module App] a store state stands for: the fields the
    operations above read or write, over a base state [base]. *)
Definition view (base : App.State) (s : State) : App.State :=
  App.setCurrentTime (currentTime s)
    (App.setClipboardRef
       (match clipboardRef s with
        | Some r => deref (store s) r
        | None => None
        end)
       (App.setSelectedClipId (selectedClipId s)
          (App.setClips (objects (store s) (clips s)) base))).

(** The handler of [Module App] an operation stands for. *)
Definition to_app (op : Op) : App.State -> App.State :=
  match op with
  | Update cid updates => App.handleClipUpdate cid updates
  | Split gid1 gid2 => App.handleSplitClip gid1 gid2
  | Delete cid => App.handleDeleteClip cid
  | DeleteSelected => App.deleteKey
  | ClearAll => App.clearAll
  | Add gid url f tid ty meta => App.addClipFromFile gid url f tid ty meta
  | Paste gid => App.paste gid
  | Seek t => App.setCurrentTime t
  | Select o => App.setSelectedClipId o
  end.

End Heap.

(** ** The editor as a machine: one step per browser event *)

Module Editor.
Import App.

(** The state of [App] together with the drag state of [Timeline]. *)
Record UI := { app : State; dragState : DragState }.

Definition initialUI : UI :=
  {| app := initial; dragState := Timeline.initialDragState |}.

Inductive Event :=
| Frame (time : Q)                       (* [requestAnimationFrame] callback *)
| ClickBack
| ClickPlay
| ClickSplit (gid1 gid2 : string)
| ClickClearAll
| MediaLoaded (gid url : string) (f : File) (tid : string)
              (ty : MediaType) (meta : Metadata)
| KeyCopy
| KeyPaste (gid : string)
| KeyDelete
| MouseDown (n : nat) (m : option DragMode) (clientX : Q)
| MouseMove (clientX : Q)
| MouseUp
| TimelineClick (x : Q)
| ContextDelete (n : nat)
| SelectResolution (o : ResolutionOption)
| CustomResolution (r : Resolution)
| ClickExport
| ExportTimeout (refs_ok : bool) (isTypeSupported : string -> bool)
| DataAvailable (data : Blob)
| RecorderStopped (now : Z).

Definition with_app (f : State -> State) (ui : UI) : UI :=
  {| app := f (app ui); dragState := dragState ui |}.

(** Buttons rendered with [disabled={isExporting}]. *)
Definition unless_exporting (f : State -> State) (s : State) : State :=
  if isExporting s then s else f s.

Definition is_some {A} (o : option A) : bool :=
  match o with Some _ => true | None => false end.

(** The handler an event runs, before React re-renders. *)
Definition handle (ui : UI) (e : Event) : UI :=
  match e with
  | Frame time =>
      with_app (fun s => if isPlaying s then animate time s else s) ui
  | ClickBack => with_app (unless_exporting (setCurrentTime 0)) ui
  | ClickPlay => with_app (unless_exporting togglePlay) ui
  | ClickSplit gid1 gid2 =>
      with_app
        (fun s =>
           if negb (is_some (truthy (selectedClipId s))) || isExporting s
           then s else handleSplitClip gid1 gid2 s) ui
  | ClickClearAll => with_app (unless_exporting clearAll) ui
  | MediaLoaded gid url f tid ty meta =>
      with_app (addClipFromFile gid url f tid ty meta) ui
  | KeyCopy => with_app copy ui
  | KeyPaste gid => with_app (paste gid) ui
  | KeyDelete => with_app deleteKey ui
  | MouseDown n m clientX =>
      match nth_error (clips (app ui)) n with
      | None => ui
      | Some clip =>
          {| app := setSelectedClipId (Some (id clip)) (app ui);
             dragState := Timeline.handleMouseDown clientX clip m |}
      end
  | MouseMove clientX =>
      match Timeline.handleMouseMove (dragState ui) (clips (app ui)) clientX with
      | None => ui
      | Some (cid, updates) => with_app (handleClipUpdate cid updates) ui
      end
  | MouseUp =>
      {| app := app ui; dragState := Timeline.handleMouseUp (dragState ui) |}
  | TimelineClick x =>
      match Timeline.handleTimelineClick (dragState ui) x with
      | None => ui
      | Some t => with_app (fun s => onSeek t (setSelectedClipId None s)) ui
      end
  | ContextDelete n =>
      match nth_error (clips (app ui)) n with
      | None => ui
      | Some clip => with_app (handleDeleteClip (id clip)) ui
      end
  | SelectResolution o => with_app (unless_exporting (setResolutionState o)) ui
  | CustomResolution r => with_app (setCustomResolution r) ui
  | ClickExport => with_app handleExport ui
  | ExportTimeout refs_ok isTypeSupported =>
      with_app (exportStart refs_ok isTypeSupported) ui
  | DataAvailable data =>
      with_app
        (fun s =>
           match mediaRecorderRef s with
           | Some r =>
               match rec_state r with
               | recording => ondataavailable data s
               | inactive =>
                   if stop_queued r then ondataavailable data s else s
               end
           | None => s
           end) ui
  | RecorderStopped now =>
      with_app
        (fun s =>
           match mediaRecorderRef s with
           | Some r =>
               if stop_queued r then
                 onstop now r
                   (setMediaRecorderRef
                      (Some {| rec_state := rec_state r;
                               mimeType := mimeType r;
                               videoBitsPerSecond := videoBitsPerSecond r;
                               rec_resolution := rec_resolution r;
                               stop_queued := false |}) s)
               else s
           | None => s
           end) ui
  end.

(** The dependency list [[isExporting, isPlaying, currentTime,
    totalDuration]] of the export watcher changed. *)
Definition watch_deps_changed (before after : State) : bool :=
  negb (Bool.eqb (isExporting before) (isExporting after))
  || negb (Bool.eqb (isPlaying before) (isPlaying after))
  || negb (Qeq_bool (currentTime before) (currentTime after))
  || negb (Qeq_bool (totalDuration before) (totalDuration after)).

(** The effects React runs after the handler, in declaration order: the
    total duration follows the clips, the playback effect clears the
    frame clock when stopped, and the export watcher runs when one of its
    dependencies changed.  The first two effects are idempotent, so they
    are applied after every handler and not only when their dependencies
    changed; the watcher is evaluated once, on the state with the new
    total duration, because no handler changes the clips together with
    another of its dependencies. *)
Definition commit (before : State) (s : State) : State :=
  let s1 := playbackEffect (adjustTotalDuration s) in
  if watch_deps_changed before s1 then exportWatch s1 else s1.

Definition step (ui : UI) (e : Event) : UI :=
  let ui' := handle ui e in
  {| app := commit (app ui) (app ui'); dragState := dragState ui' |}.

Definition run (ui : UI) (es : list Event) : UI := fold_left step es ui.

(** The edit gestures of the timeline: press on the [n]-th clip at
    [x0] in mode [m], then move the pointer to [x1]. *)
Definition drag (m : DragMode) (n : nat) (x0 x1 : Q) (ui : UI) : UI :=
  run ui [MouseDown n (Some m) x0; MouseMove x1].

(** The time the pointer travelled, [deltaSeconds] of [handleMouseMove]. *)
Definition deltaTime (x0 x1 : Q) : Q := (x1 [-] x0) [/] Timeline.scale.

End Editor.

(** ** Vocabulary of the specification *)

Module Spec.
Import App Editor.

(** The invariants of a clip; [0.1] is the number the program compares
    durations with, the sum is the exact one. *)
Record clip_invariant (c : Clip) : Prop := {
  inv_duration : number 0.1 <= duration c;
  inv_offset : 0 <= offset c;
  inv_source : offset c + duration c <= Types.totalDuration c;
  inv_start : 0 <= start c
}.

(** [at_] lies strictly inside the clip, 0.05 s away from both edges, by
    the bounds the program computes. *)
Definition within_guard (clip : Clip) (at_ : Q) : Prop :=
  start clip [+] number 0.05 < at_ /\
  at_ < start clip [+] duration clip [-] number 0.05.

(** [b] refers to the same media on the same track as [a]: every field
    other than [id], [start], [duration] and [offset] agrees. *)
Definition same_media (a b : Clip) : Prop :=
  trackId b = trackId a /\ source b = source a /\ file b = file a /\
  type b = type a /\ Types.totalDuration b = Types.totalDuration a /\
  name b = name a /\ thumbnail b = thumbnail a /\
  width b = width a /\ height b = height a.

(** The clip the selection denotes, if any. *)
Definition selectedClip (s : State) : option Clip :=
  match truthy (selectedClipId s) with
  | Some sel => find_clip sel (clips s)
  | None => None
  end.

(** The update a drag gesture computes: pressed on [clip] at [x0] in mode
    [m], pointer now at [x1]. *)
Definition gesture_updates (m : DragMode) (clip : Clip) (x0 x1 : Q)
  : ClipUpdates :=
  let ds := Timeline.handleMouseDown x0 clip (Some m) in
  let delta := Timeline.deltaSeconds ds x1 in
  match m with
  | move => Timeline.move_updates ds delta
  | trim_start => Timeline.trim_start_updates ds delta
  | trim_end => Timeline.trim_end_updates ds clip delta
  end.

(** The tolerance [1e-9] of the snap property. *)
Definition TOLERANCE : Q := 1 # 1000000000.

(** "[x] clamped to the interval [[lo, hi]]". *)
Definition clamp (lo hi x : Q) : Q :=
  if ltb x lo then lo else if ltb hi x then hi else x.

(** [a] and [b] agree on every field but [start]. *)
Definition same_but_start (a b : Clip) : Prop :=
  id b = id a /\ duration b = duration a /\ offset b = offset a /\
  same_media a b.

(** [a] and [b] agree on every field but [duration]. *)
Definition same_but_duration (a b : Clip) : Prop :=
  id b = id a /\ start b = start a /\ offset b = offset a /\
  same_media a b.

(** Every clip but the [n]-th is the same in [cs] and [cs']. *)
Definition others_unchanged (n : nat) (cs cs' : list Clip) : Prop :=
  List.length cs' = List.length cs /\
  forall k, k <> n -> nth_error cs' k = nth_error cs k.

(** *** The edit operations *)

Inductive EditOp :=
| AddClip (gid url : string) (f : File) (tid : string) (ty : MediaType)
          (meta : Metadata)
| Move (n : nat) (x0 x1 : Q)
| TrimStart (n : nat) (x0 x1 : Q)
| TrimEnd (n : nat) (x0 x1 : Q)
| Split (gid1 gid2 : string)
| Delete (n : nat)
| DeleteSelected
| Paste (gid : string).

(** The events that carry out an operation. *)
Definition edit (op : EditOp) (ui : UI) : UI :=
  match op with
  | AddClip gid url f tid ty meta => step ui (MediaLoaded gid url f tid ty meta)
  | Move n x0 x1 => drag move n x0 x1 ui
  | TrimStart n x0 x1 => drag trim_start n x0 x1 ui
  | TrimEnd n x0 x1 => drag trim_end n x0 x1 ui
  | Split gid1 gid2 => step ui (ClickSplit gid1 gid2)
  | Delete n => step ui (ContextDelete n)
  | DeleteSelected => step ui KeyDelete
  | Paste gid => step ui (KeyPaste gid)
  end.

(** The part of the invariants that concerns the source media. *)
Definition source_bounds (c : Clip) : Prop :=
  number 0.1 <= duration c /\ 0 <= offset c /\
  offset c + duration c <= Types.totalDuration c.

(** A state on which an edit operation starts: identifiers are unique,
    every clip satisfies the invariants, the clipboard holds a clip that
    satisfied them when it was copied, the playhead is not negative, the
    positions on the timeline are numbers and no drag is in progress. *)
Record editable (ui : UI) : Prop := {
  ed_unique : NoDup (map id (clips (app ui)));
  ed_clips : forall c, In c (clips (app ui)) -> clip_invariant c;
  ed_board : forall b, clipboardRef (app ui) = Some b -> source_bounds b;
  ed_playhead : 0 <= currentTime (app ui);
  ed_numbers :
    Number.is_number (currentTime (app ui)) /\
    forall c, In c (clips (app ui)) ->
              Number.is_number (start c) /\ Number.is_number (duration c);
  ed_idle : isDragging (dragState ui) = false
}.

(** The rounding error an operation may leave on a clip: [2^-51] of the
    length of its source. *)
Definition slack (c : Clip) : Q := 4 * Number.u * Types.totalDuration c.

(** What an operation guarantees for a clip of the resulting state. *)
Definition guaranteed (op : EditOp) (ui : UI) (c : Clip) : Prop :=
  0 <= offset c /\
  match op with
  | TrimStart n _ _ =>
      number 0.1 - slack c <= duration c /\
      offset c + duration c <= Types.totalDuration c + slack c /\
      (forall clip, nth_error (clips (app ui)) n = Some clip ->
                    offset clip <= start clip -> 0 <= start c)
  | TrimEnd _ _ _ =>
      number 0.1 <= duration c /\
      offset c + duration c <= Types.totalDuration c + slack c /\
      0 <= start c
  | Split _ _ =>
      0 <= duration c /\
      (forall clip, selectedClip (app ui) = Some clip ->
                    number 0.05 - 8 * Number.u * clip_end clip <= duration c) /\
      offset c + duration c <= Types.totalDuration c + slack c /\
      0 <= start c
  | AddClip _ _ _ _ _ meta =>
      (number 0.1 <= meta_duration meta -> number 0.1 <= duration c) /\
      offset c + duration c <= Types.totalDuration c /\
      0 <= start c
  | _ =>
      number 0.1 <= duration c /\
      offset c + duration c <= Types.totalDuration c /\
      0 <= start c
  end.

(** *** Synchronisation *)

(** The synchronisation of the element of a clip of either kind. *)
Definition sync (kind : MediaType) (isPlaying : bool) (position : Q)
    (clip : Clip) (el : Player.MediaElement) : list Player.MediaAction :=
  match kind with
  | video => Player.syncActive isPlaying position clip el
  | audio => App.syncAudio isPlaying position clip el
  end.

(** A force-seek to the synchronised position is among the actions. *)
Definition seeks (position : Q) (clip : Clip)
    (acts : list Player.MediaAction) : Prop :=
  In (Player.SetCurrentTime (Player.seekTime position clip)) acts.

(** The observed drift of an element. *)
Definition drift (position : Q) (clip : Clip) (el : Player.MediaElement) : Q :=
  Qabs (Player.el_currentTime el [-] Player.seekTime position clip).

(** C7 as the specification states it, for elements of both kinds. *)
Definition drift_rule_as_stated : Prop :=
  forall (kind : MediaType) (isPlaying : bool) (position : Q) (clip : Clip)
         (el : Player.MediaElement),
    Player.isActive position clip = true ->
    let acts := sync kind isPlaying position clip el in
    (isPlaying = true ->
     seeks position clip acts ->
     number 0.2 < drift position clip el \/ Player.paused el = true) /\
    (isPlaying = false ->
     (seeks position clip acts <-> number 0.01 < drift position clip el)).

(** *** The export pipeline *)

Inductive ExportPhase := Idle | Preparing | Stalled | Recording | Finalizing.

(** The phase of the pipeline a state is in: [Preparing] while the settle
    timeout is pending, [Recording] while the encoder records,
    [Finalizing] between [recorder.stop()] and the [stop] event, and
    [Stalled] when the timeout found no canvas or audio destination. *)
Definition phase (s : State) : ExportPhase :=
  if negb (isExporting s) then Idle
  else
    match exportTimeout s with
    | Some _ => Preparing
    | None =>
        match mediaRecorderRef s with
        | Some r =>
            match rec_state r with
            | recording => Recording
            | inactive => if stop_queued r then Finalizing else Stalled
            end
        | None => Stalled
        end
    end.


(** The encoder neither records nor has a [stop] event queued. *)
Definition quiet (s : State) : Prop :=
  match mediaRecorderRef s with
  | Some r => rec_state r = inactive /\ stop_queued r = false
  | None => True
  end.

(** The state after the duration and playback effects. *)
Definition settled (h : State) : State :=
  playbackEffect (adjustTotalDuration h).

(** [h] differs from [s] in nothing the export pipeline reads or
    writes, the buffered chunks apart. *)
Definition ctl_same (s h : State) : Prop :=
  isExporting h = isExporting s /\
  exportTimeout h = exportTimeout s /\
  mediaRecorderRef h = mediaRecorderRef s /\
  isPlaying h = isPlaying s /\
  currentTime h = currentTime s /\
  outputs h = outputs s.

(** The transport agrees with the phase. *)
Definition phase_ok (s : State) : Prop :=
  match phase s with
  | Idle => exportTimeout s = None /\ quiet s
  | Preparing => isPlaying s = false /\ currentTime s = 0 /\ quiet s
  | Stalled => isPlaying s = false /\ currentTime s = 0
  | Recording =>
      isPlaying s = true /\
      forall r, mediaRecorderRef s = Some r -> stop_queued r = false
  | Finalizing => isPlaying s = false
  end.

(** What holds of every state the editor reaches. *)
Record reachable_inv (s : State) : Prop := {
  ri_duration : totalDuration s = newDuration (clips s);
  ri_phase : phase_ok s
}.

(** One step of the editor seen from the export pipeline: nothing leaves
    the program unless the encoder is stopped, on the way from
    [Recording] to [Finalizing], or the artifact is delivered, on the way
    from [Finalizing] to [Idle]. *)
Inductive export_step (s s' : State) : Prop :=
| es_stay :
    phase s' = phase s -> outputs s' = outputs s -> export_step s s'
| es_start :
    phase s = Idle -> phase s' = Preparing -> outputs s' = outputs s ->
    recordedChunksRef s' = [] -> export_step s s'
| es_record :
    phase s = Preparing -> phase s' = Recording ->
    outputs s' = outputs s -> export_step s s'
| es_stall :
    phase s = Preparing -> phase s' = Stalled ->
    outputs s' = outputs s -> export_step s s'
| es_stop :
    phase s = Recording -> phase s' = Finalizing ->
    outputs s' = EncoderStop (currentTime s') (totalDuration s') :: outputs s ->
    isExporting s' = true -> isPlaying s' = false ->
    currentTime s' = totalDuration s' ->
    recordedChunksRef s' = recordedChunksRef s ->
    export_step s s'
| es_deliver (d : Download) :
    phase s = Finalizing -> phase s' = Idle ->
    outputs s' = Delivered d :: outputs s ->
    dl_parts d = recordedChunksRef s ->
    isExporting s' = false -> currentTime s' = 0 ->
    export_step s s'.







End Spec.

(** ** Scenarios of the specification *)

Module Scenario.
Import App.

(** The scenario of the specification: one video clip
  [{start: 0, duration: 5, offset: 0, totalDuration: 5}] on the video
  track, selected, playhead at 2. *)
Definition scenario_clip : Clip :=
{| id := "c0"; trackId := "track-1"; source := "blob:0";
   file := {| file_name := "a.mp4"; file_type := "video/mp4" |};
   type := video; start := 0; duration := 5; offset := 0;
   Types.totalDuration := 5; name := "a.mp4"; thumbnail := None;
   width := Some 1280%Z; height := Some 720%Z |}.

Definition scenario_state : State :=
setCurrentTime 2
  (setSelectedClipId (Some "c0"%string)
     (setTotalDuration 5 (setClips [scenario_clip] initial))).

(** The over-drag scenario: a clip [{start: 2, duration: 4, offset: 1}] of
    a ten second source, alone on the timeline. *)
Definition trim_clip : Clip :=
  {| id := "c1"; trackId := "track-1"; source := "blob:1";
     file := {| file_name := "b.mp4"; file_type := "video/mp4" |};
     type := video; start := 2; duration := 4; offset := 1;
     Types.totalDuration := 10; name := "b.mp4"; thumbnail := None;
     width := Some 1920%Z; height := Some 1080%Z |}.

Definition trim_ui : Editor.UI :=
  {| Editor.app := setTotalDuration 6 (setClips [trim_clip] initial);
     Editor.dragState := Timeline.initialDragState |}.

(** Playing the five second timeline, 10 ms before its end, the last
    frame having been at wall-clock time 0. *)
Definition playing_ui (exporting : bool) : Editor.UI :=
  {| Editor.app :=
       setPreviousTimeRef (Some 0)
         (setIsPlaying true
            (setCurrentTime (number 4.99)
               (setIsExporting exporting scenario_state)));
     Editor.dragState := Timeline.initialDragState |}.

(** A clip whose source has one second of media before its first frame,
    placed at the origin of the timeline. *)
Definition late_clip : Clip :=
  {| id := "c2"; trackId := "track-1"; source := "blob:2";
     file := {| file_name := "c.mp4"; file_type := "video/mp4" |};
     type := video; start := 0; duration := 4; offset := 1;
     Types.totalDuration := 5; name := "c.mp4"; thumbnail := None;
     width := Some 1280%Z; height := Some 720%Z |}.

Definition late_ui : Editor.UI :=
  {| Editor.app := setTotalDuration 4 (setClips [late_clip] initial);
     Editor.dragState := Timeline.initialDragState |}.

(** The five second clip selected, playhead 60 ms after its start. *)
Definition edge_ui : Editor.UI :=
  {| Editor.app := setCurrentTime (number 0.06) scenario_state;
     Editor.dragState := Timeline.initialDragState |}.

(** A clip of 7.3 seconds at the origin, selected, the playhead 0.48
    seconds after its start. *)
Definition long_clip : Clip :=
  {| id := "c3"; trackId := "track-1"; source := "blob:5";
     file := {| file_name := "d.mp4"; file_type := "video/mp4" |};
     type := video; start := 0; duration := number 7.3; offset := 0;
     Types.totalDuration := number 7.3; name := "d.mp4"; thumbnail := None;
     width := Some 1280%Z; height := Some 720%Z |}.

Definition long_state : State :=
  setCurrentTime (number 0.48)
    (setSelectedClipId (Some "c3"%string)
       (setTotalDuration (number 7.3) (setClips [long_clip] initial))).

(** The same media placed half a second into the timeline. *)
Definition shifted_clip : Clip :=
  {| id := "c4"; trackId := "track-1"; source := "blob:5";
     file := {| file_name := "d.mp4"; file_type := "video/mp4" |};
     type := video; start := number 0.5; duration := number 7.3; offset := 0;
     Types.totalDuration := number 7.3; name := "d.mp4"; thumbnail := None;
     width := Some 1280%Z; height := Some 720%Z |}.

Definition shifted_ui : Editor.UI :=
  {| Editor.app :=
       setTotalDuration (number 7.8) (setClips [shifted_clip] initial);
     Editor.dragState := Timeline.initialDragState |}.

(** Five seconds of the same media, taken 0.48 seconds into it. *)
Definition inner_clip : Clip :=
  {| id := "c5"; trackId := "track-1"; source := "blob:5";
     file := {| file_name := "d.mp4"; file_type := "video/mp4" |};
     type := video; start := 0; duration := 5; offset := number 0.48;
     Types.totalDuration := number 7.3; name := "d.mp4"; thumbnail := None;
     width := Some 1280%Z; height := Some 720%Z |}.

Definition inner_ui : Editor.UI :=
  {| Editor.app := setTotalDuration 5 (setClips [inner_clip] initial);
     Editor.dragState := Timeline.initialDragState |}.

(** The five second clip alone on the timeline. *)
Definition scenario_ui : Editor.UI :=
  {| Editor.app := setTotalDuration 5 (setClips [scenario_clip] initial);
     Editor.dragState := Timeline.initialDragState |}.

(** A sound of 50 ms. *)
Definition short_file : File :=
  {| file_name := "click.wav"; file_type := "audio/wav" |}.

Definition short_meta : Metadata :=
  {| meta_duration := number 0.05; meta_width := None; meta_height := None |}.

(** The sound imported into the empty editor. *)
Definition short_ui : Editor.UI :=
  Editor.step Editor.initialUI
    (Editor.MediaLoaded "n" "blob:3" short_file "track-2" audio short_meta).

(** The five second clip as the only object of a store, selected. *)
Definition store_state : Heap.State :=
  {| Heap.store := [scenario_clip]; Heap.clips := [0%nat];
     Heap.selectedClipId := Some "c0"%string;
     Heap.clipboardRef := None; Heap.currentTime := 2 |}.

(** After the copy: move the clip, trim it, split it, delete the selected
    part and clear the timeline. *)
Definition after_copy : list Heap.Op :=
  [ Heap.Update "c0"
      {| upd_start := Some 3; upd_duration := None; upd_offset := None |};
    Heap.Update "c0"
      {| upd_start := None; upd_duration := Some 2; upd_offset := None |};
    Heap.Seek 4;
    Heap.Split "l" "r";
    Heap.DeleteSelected;
    Heap.ClearAll ].

(** An element five seconds behind, the transport at the start of the
    five second clip. *)
Definition stale_element : Player.MediaElement :=
  {| Player.el_currentTime := 5; Player.paused := true;
     Player.readyState := 4 |}.

Definition audio_clip : Clip :=
  {| id := "a0"; trackId := "track-2"; source := "blob:4";
     file := {| file_name := "a.wav"; file_type := "audio/wav" |};
     type := audio; start := 0; duration := 5; offset := 0;
     Types.totalDuration := 5; name := "a.wav"; thumbnail := None;
     width := None; height := None |}.




End Scenario.

(** ** The media elements of the clips

    [videoRefs] of [Player] and [audioRefs] of [App]: a JavaScript [Map]
    from clip identifiers to media elements, which an effect keeps in step
    with the clips.  A [Map] holds its entries in insertion order. *)

Module Elements.

(** An element with the attributes the effects set on it. *)
Record Element := {
  src : option string;
  muted : bool;
  media : Player.MediaElement
}.

Definition Registry := list (string * Element).

(** [m.has(k)] *)
Definition has (k : string) (m : Registry) : bool :=
  existsb (fun e => String.eqb (fst e) k) m.

(** [m.get(k)] *)
Definition get (k : string) (m : Registry) : option Element :=
  option_map snd (find (fun e => String.eqb (fst e) k) m).

(** [m.set(k, v)]: the value of a key that is present is replaced in
    place, a new key is added at the end. *)
Definition set (k : string) (v : Element) (m : Registry) : Registry :=
  if has k m
  then map (fun e => if String.eqb (fst e) k then (k, v) else e) m
  else m ++ [(k, v)].

(** [new Set(ids).has(i)] *)
Definition set_has (ids : list string) (i : string) : bool :=
  existsb (String.eqb i) ids.

(** The state of an element that has no media loaded: paused at 0. *)
Definition empty_media : Player.MediaElement :=
  {| Player.el_currentTime := 0; Player.paused := true;
     Player.readyState := 0 |}.

(** [document.createElement('video')] with [src = clip.source] and
    [muted = true]. *)
Definition createVideo (clip : Clip) : Element :=
  {| src := Some (source clip); muted := true; media := empty_media |}.

(** [new Audio(clip.source)]; the routing of the element into the audio
    graph is not part of the model. *)
Definition createAudio (clip : Clip) : Element :=
  {| src := Some (source clip); muted := false; media := empty_media |}.

(** [video.pause(); video.removeAttribute('src'); video.load()]: loading
    without a source resets the element. *)
Definition releaseVideo (v : Element) : Element :=
  {| src := None; muted := muted v; media := empty_media |}.

(** [audio.pause()] *)
Definition releaseAudio (a : Element) : Element :=
  {| src := src a; muted := muted a;
     media := Player.perform (media a) Player.Pause |}.

(** [cs.forEach(clip => { if (!refs.has(clip.id)) refs.set(clip.id,
    create(clip)) })] *)
Definition createMissing (create : Clip -> Element) (cs : list Clip)
    (refs : Registry) : Registry :=
  fold_left
    (fun refs clip =>
       if negb (has (id clip) refs)
       then set (id clip) (create clip) refs else refs)
    cs refs.

(** "Manage Video Elements Lifecycle" of [Player]: old elements are
    released, then the missing ones are created.  The result is the
    registry and the elements that were released. *)
Definition videoLifecycle (clips : list Clip) (videoRefs : Registry)
  : Registry * list Element :=
  let videoClips := filter (fun c => media_eqb (type c) video) clips in
  let currentIds := map id videoClips in
  let released :=
    filter (fun e => negb (set_has currentIds (fst e))) videoRefs in
  let kept := filter (fun e => set_has currentIds (fst e)) videoRefs in
  (createMissing createVideo videoClips kept,
   map (fun e => releaseVideo (snd e)) released).

(** The first two loops of the audio effect of [App]: the missing
    elements are created, then the elements of removed clips are paused
    and dropped. *)
Definition audioLifecycle (clips : list Clip) (audioRefs : Registry)
  : Registry * list Element :=
  let audioClips := filter (fun c => media_eqb (type c) audio) clips in
  let withNew := createMissing createAudio audioClips audioRefs in
  let currentIds := map id audioClips in
  (filter (fun e => set_has currentIds (fst e)) withNew,
   map (fun e => releaseAudio (snd e))
       (filter (fun e => negb (set_has currentIds (fst e))) withNew)).

(** The playback states of the elements, as the synchronisation reads
    them. *)
Definition states (m : Registry) : list (string * Player.MediaElement) :=
  map (fun e => (fst e, media (snd e))) m.

End Elements.

(** ** components/Player.tsx: drawing *)

Module Canvas.

(** What the 2D context has painted on the canvas. *)
Inductive Picture :=
| Black                          (* [fillRect] with ['#000'] only *)
| Image (el : Elements.Element)  (* [drawImage(videoEl, 0, 0, w, h)] *)
| NoSignal (fontPx : Z).         (* the "No Signal" screen *)

Record Canvas := {
  canvas_width : Z;
  canvas_height : Z;
  picture : Picture
}.

(** [propsRef.current], as far as [draw] reads it. *)
Record Props := {
  p_currentTime : Q;
  p_clips : list Clip;
  p_width : Z;
  p_height : Z
}.

(** An assignment to [canvas.width] or [canvas.height]: the value is
    converted to an unsigned 32-bit integer, and one beyond [2^31 - 1]
    is replaced by the default of the attribute. *)
Definition reflect (default v : Z) : Z :=
  let n := (v mod 4294967296)%Z in
  if (n <=? 2147483647)%Z then n else default.

Definition DEFAULT_WIDTH : Z := 300.
Definition DEFAULT_HEIGHT : Z := 150.

(** [draw()]; [canvas] is [canvasRef.current], whose 2D context is
    available. *)
Definition draw (props : Props) (videoRefs : Elements.Registry)
    (canvas : option Canvas) : option Canvas :=
  match canvas with
  | None => None
  | Some cv =>
      let resized :=
        negb (canvas_width cv =? p_width props)%Z
        || negb (canvas_height cv =? p_height props)%Z in
      let width :=
        if resized then reflect DEFAULT_WIDTH (p_width props)
        else canvas_width cv in
      let height :=
        if resized then reflect DEFAULT_HEIGHT (p_height props)
        else canvas_height cv in
      let painted :=
        match Player.activeVideoClip (p_clips props) (p_currentTime props) with
        | Some activeVideoClip =>
            match Elements.get (id activeVideoClip) videoRefs with
            | Some videoEl =>
                if (2 <=? Player.readyState (Elements.media videoEl))%Z
                then Image videoEl else Black
            | None => Black
            end
        | None => NoSignal (height / 20)%Z
        end in
      Some {| canvas_width := width; canvas_height := height;
              picture := painted |}
  end.

End Canvas.

(** ** Vocabulary of the further properties *)

Module More.
Import App Editor Spec.

(** A video clip that takes part in the choice of the source resolution:
    [clip.type === 'video' && clip.width && clip.height]. *)
Definition candidate (c : Clip) (w h : Z) : Prop :=
  type c = video /\ width c = Some w /\ height c = Some h /\
  w <> 0%Z /\ h <> 0%Z.

Definition area (r : Resolution) : Z := (res_width r * res_height r)%Z.

(** The container types of [handleExport] in the order they are tried;
    the last one is the default, which is not probed. *)
Definition mime_candidates : list string :=
  [ "video/mp4"; "video/mp4;codecs=avc1.42E01E,mp4a.40.2";
    "video/webm;codecs=h264"; "video/webm;codecs=vp9" ]%string.

(** The prefix of the MIME types of a kind of media. *)
Definition mime_prefix (k : MediaType) : string :=
  match k with video => "video/" | audio => "audio/" end.

(** The selection, when there is one, names a clip of the model. *)
Definition selection_valid (s : State) : Prop :=
  forall i, selectedClipId s = Some i -> exists c, In c (clips s) /\ id c = i.

(** Pasting once per generated identifier. *)
Definition paste_all (gids : list string) (ui : UI) : UI :=
  run ui (map KeyPaste gids).

(** Copies of [board] laid end to end from [st] on. *)
Fixpoint copies (board : Clip) (st : Q) (gids : list string) : list Clip :=
  match gids with
  | [] => []
  | g :: gs =>
      pastedClip g st board :: copies board (st [+] duration board) gs
  end.



(** An export of the five second clip, recording, before its second
    frame. *)
Definition recording_ui : UI :=
  run initialUI
    [ MediaLoaded "c0" "blob:0"
        {| file_name := "a.mp4"; file_type := "video/mp4" |} "track-1" video
        {| meta_duration := 5; meta_width := Some 1280%Z;
           meta_height := Some 720%Z |};
      ClickExport;
      ExportTimeout true (fun _ => true);
      Frame 0 ].

(** The element after the actions of the program, in order. *)
Definition perform_all (el : Player.MediaElement)
    (acts : list Player.MediaAction) : Player.MediaElement :=
  fold_left Player.perform acts el.

(** An element whose playback state has become [m]. *)
Definition with_media (e : Elements.Element) (m : Player.MediaElement)
  : Elements.Element :=
  {| Elements.src := Elements.src e; Elements.muted := Elements.muted e;
     Elements.media := m |}.

(** The registry after the synchronisation effect of the player: the
    actions of every entry performed on its element. *)
Definition synced_videos (clips : list Clip) (position : Q) (playing : bool)
    (refs : Elements.Registry) : Elements.Registry :=
  map (fun p : (string * Elements.Element) * (string * list Player.MediaAction) =>
         (fst (fst p),
          with_media (snd (fst p))
            (perform_all (Elements.media (snd (fst p))) (snd (snd p)))))
      (combine refs
         (Player.syncEffect clips position playing (Elements.states refs))).

(** The effects of the player after a render, in declaration order: the
    lifecycle effect, then the synchronisation effect.  The lifecycle
    effect changes nothing when it runs again on the same clips, so it is
    applied on every render. *)
Definition player_render (clips : list Clip) (position : Q) (playing : bool)
    (refs : Elements.Registry) : Elements.Registry :=
  synced_videos clips position playing
    (fst (Elements.videoLifecycle clips refs)).

(** The element of key [i] after the actions [acts]. *)
Definition perform_on (refs : Elements.Registry) (i : string)
    (acts : list Player.MediaAction) : Elements.Registry :=
  map (fun e : string * Elements.Element =>
         if String.eqb (fst e) i
         then (fst e, with_media (snd e)
                        (perform_all (Elements.media (snd e)) acts))
         else e) refs.

(** The "Sync play state" loop of the audio effect for one clip: the
    element is looked up and driven. *)
Definition sync_audio_clip (position : Q) (playing : bool)
    (refs : Elements.Registry) (clip : Clip) : Elements.Registry :=
  match Elements.get (id clip) refs with
  | Some a =>
      perform_on refs (id clip)
        (App.syncAudio playing position clip (Elements.media a))
  | None => refs
  end.

(** The audio effect of [App] after a render: elements are created and
    dropped, then the elements of the audio clips are synchronised, clip
    by clip. *)
Definition audio_render (clips : list Clip) (position : Q) (playing : bool)
    (refs : Elements.Registry) : Elements.Registry :=
  fold_left (sync_audio_clip position playing)
    (filter (fun c => media_eqb (type c) audio) clips)
    (fst (Elements.audioLifecycle clips refs)).

(** [g] names no clip of the model. *)
Definition fresh (ui : UI) (g : string) : Prop :=
  forall c, In c (clips (app ui)) -> id c <> g.

(** What the platform provides with an event: generated identifiers are
    fresh. *)
Definition provided (ui : UI) (e : Event) : Prop :=
  match e with
  | MediaLoaded gid _ _ _ _ _ => fresh ui gid
  | KeyPaste gid => fresh ui gid
  | ClickSplit g1 g2 => fresh ui g1 /\ fresh ui g2 /\ g1 <> g2
  | _ => True
  end.

Fixpoint well_provided (ui : UI) (es : list Event) : Prop :=
  match es with
  | [] => True
  | e :: es' => provided ui e /\ well_provided (step ui e) es'
  end.

(** No two clips of the model share an identifier. *)
Definition unique_ids (ui : UI) : Prop := NoDup (map id (clips (app ui))).

(** An import, a trim and a paste. *)
Definition edit_run : list Event :=
  [ MediaLoaded "c0" "blob:0"
      {| file_name := "a.mp4"; file_type := "video/mp4" |} "track-1" video
      {| meta_duration := 5; meta_width := Some 1280%Z;
         meta_height := Some 720%Z |};
    MouseDown 0 (Some trim_start) 0;
    MouseMove 130;
    KeyCopy;
    MouseMove (-400);
    MouseUp;
    KeyPaste "c1" ].

(** [c] refers to the media of an import among the events [es]. *)
Definition imported (es : list Event) (c : Clip) : Prop :=
  exists gid url f tid ty meta,
    In (MediaLoaded gid url f tid ty meta) es /\
    trackId c = tid /\ source c = url /\ file c = f /\ type c = ty /\
    Types.totalDuration c = meta_duration meta /\ name c = file_name f /\
    thumbnail c = None /\
    width c = meta_width meta /\ height c = meta_height meta.

(** The clip lies on a track of its kind. *)
Definition on_lane (c : Clip) : Prop :=
  exists t, In t tracks /\ track_id t = trackId c /\ track_type t = type c.

(** An import as the interface issues it: from the file input of a
    track ([handleFileUpload] with [track.id] and [track.type]), or from
    a drop that [handleTrackDrop] accepts. *)
Definition from_interface (e : Event) : Prop :=
  match e with
  | MediaLoaded _ _ f tid ty _ =>
      (exists t, In t tracks /\ track_id t = tid /\ track_type t = ty) \/
      dropKind tid f = Some ty
  | _ => True
  end.

(** The recorder records, or its [stop] event is still to come. *)
Definition live (r : MediaRecorder) : Prop :=
  rec_state r = recording \/ stop_queued r = true.

(** The resolution in the name of a delivered file. *)
Definition named (d : Download) (r : Resolution) : Prop :=
  dl_name_width d = res_width r /\ dl_name_height d = res_height r.

(** An export holds the resolution [r]: the pending settle timeout and
    the live recorder carry no other one, and the files delivered since
    the outputs [base] are named after it. *)
Record holds (r : Resolution) (base : list Output) (s : State) : Prop := {
  held_timeout : forall r', exportTimeout s = Some r' -> r' = r;
  held_recorder :
    forall rec, mediaRecorderRef s = Some rec -> live rec ->
                rec_resolution rec = r;
  held_outputs :
    forall d, In (Delivered d) (outputs s) ->
              In (Delivered d) base \/ named d r
}.

(** The five second clip imported, nothing else done. *)
Definition loaded_ui : UI :=
  run initialUI
    [ MediaLoaded "c0" "blob:0"
        {| file_name := "a.mp4"; file_type := "video/mp4" |} "track-1" video
        {| meta_duration := 5; meta_width := Some 1280%Z;
           meta_height := Some 720%Z |} ].

(** After the click on Export: the user edits the custom resolution and
    switches nothing else, the recording runs to the end. *)
Definition export_after_click : list Event :=
  [ CustomResolution {| res_width := 640; res_height := 360 |};
    ExportTimeout true (fun _ => true);
    Frame 0;
    DataAvailable "x"%string;
    Frame 6000;
    RecorderStopped 0 ].

(** The files among the outputs are named after [r]. *)
Definition all_named (r : Resolution) (os : list Output) : Prop :=
  Forall (fun o => match o with
                   | Delivered d => named d r
                   | EncoderStop _ _ => True
                   end) os.

(** Every element of the registry is registered under the identifier of
    a clip of kind [k] and has the source of that clip. *)
Definition elements_match (k : MediaType) (cs : list Clip)
    (refs : Elements.Registry) : Prop :=
  forall i el, In (i, el) refs ->
    exists c, In c cs /\ type c = k /\ id c = i /\
              Elements.src el = Some (source c).

(** The timestamp of an animation frame is not before the one of the
    frame seen last. *)
Definition clock_ok (ui : UI) (e : Event) : Prop :=
  match e with
  | Frame t => forall p, previousTimeRef (app ui) = Some p -> p <= t
  | _ => True
  end.

Fixpoint clock_ascends (ui : UI) (es : list Event) : Prop :=
  match es with
  | [] => True
  | e :: es' => clock_ok ui e /\ clock_ascends (step ui e) es'
  end.

(** The clips of one kind, by identifier. *)
Definition clip_of_kind (k : MediaType) (clips : list Clip) (i : string)
  : Prop :=
  exists c, In c clips /\ type c = k /\ id c = i.

(** The last position of [ts], [t] when there is none. *)
Fixpoint final (t : Q) (ts : list Q) : Q :=
  match ts with
  | [] => t
  | u :: us => final u us
  end.

End More.

(** * Properties *)

Import App Editor Spec Scenario.

(** ** Rounding to the nearest number *)

Section Rounding.
Import Number.

Lemma pow2_pos (k : Z) : 0 < 2 ^ k.
Proof. apply Qpower_0_lt. reflexivity. Qed.

Lemma pow2_succ (k : Z) : 2 ^ (k + 1) == 2 * 2 ^ k.
Proof.
  rewrite Qpower_plus by discriminate. change (2 ^ 1) with 2. ring.
Qed.

Lemma pow2_add (a b : Z) : 2 ^ (a + b) == 2 ^ a * 2 ^ b.
Proof. apply Qpower_plus. discriminate. Qed.

Lemma pow2_le (a b : Z) : (a <= b)%Z -> 2 ^ a <= 2 ^ b.
Proof. intro H. apply Qpower_le_compat_l; [assumption|discriminate]. Qed.

Lemma pow2_lt_inv (a b : Z) : 2 ^ a < 2 ^ b -> (a < b)%Z.
Proof. intro H. apply (Qpower_lt_compat_l_inv 2); [assumption|reflexivity]. Qed.

Lemma pow2_log2 (n : Z) :
  (0 < n)%Z -> 2 ^ Z.log2 n <= inject_Z n /\ inject_Z n < 2 * 2 ^ Z.log2 n.
Proof.
  intro Hn. destruct (Z.log2_spec n Hn) as [Hlo Hhi].
  pose proof (Z.log2_nonneg n) as H0.
  rewrite <- pow2_succ.
  change 2 with (inject_Z 2).
  rewrite <- !Zpower_Qpower by lia.
  rewrite <- Zle_Qle, <- Zlt_Qlt. rewrite Z.add_1_r. split; assumption.
Qed.

Lemma exponent_spec (x : Q) :
  0 < x -> 2 ^ exponent x <= x /\ x < 2 ^ (exponent x + 1).
Proof.
  intro Hx. unfold exponent.
  assert (Hn : (0 < Qnum x)%Z).
  { unfold Qlt in Hx. simpl in Hx. lia. }
  destruct (pow2_log2 (Qnum x) Hn) as [Nlo Nhi].
  destruct (pow2_log2 (Zpos (Qden x)) eq_refl) as [Dlo Dhi].
  set (a := Z.log2 (Qnum x)) in *. set (b := Z.log2 (Zpos (Qden x))) in *.
  assert (Ex : x == inject_Z (Qnum x) / inject_Z (Zpos (Qden x))).
  { rewrite <- Qmake_Qdiv. destruct x; reflexivity. }
  assert (Ea : 2 ^ a == 2 ^ (a - b) * 2 ^ b).
  { rewrite <- pow2_add. replace (a - b + b)%Z with a by ring. reflexivity. }
  pose proof (pow2_pos a) as Pa. pose proof (pow2_pos b) as Pb.
  pose proof (pow2_pos (a - b)) as Pk.
  set (N := inject_Z (Qnum x)) in *. set (D := inject_Z (Zpos (Qden x))) in *.
  assert (HD : 0 < D) by lra.
  assert (Ex' : x * D == N).
  { rewrite Ex. field. lra. }
  assert (Hhi : x < 2 * 2 ^ (a - b)).
  { apply Qnot_le_lt. intro Hc.
    assert (H : 2 * 2 ^ (a - b) * 2 ^ b <= x * D).
    { apply Qle_trans with (x * 2 ^ b).
      - apply Qmult_le_compat_r; lra.
      - rewrite !(Qmult_comm x). apply Qmult_le_compat_r; lra. }
    rewrite <- Qmult_assoc, <- Ea, Ex' in H. lra. }
  assert (Hlo : 2 ^ (a - b) < 2 * x).
  { apply Qnot_le_lt. intro Hc.
    assert (H : 2 * x * D < 2 ^ (a - b) * (2 * 2 ^ b)).
    { apply Qle_lt_trans with (2 ^ (a - b) * D).
      - apply Qmult_le_compat_r; lra.
      - apply Qmult_lt_l; assumption. }
    assert (E1 : 2 * x * D == 2 * (x * D)) by ring.
    assert (E2 : 2 ^ (a - b) * (2 * 2 ^ b) == 2 * (2 ^ (a - b) * 2 ^ b)) by ring.
    rewrite E1, E2, <- Ea, Ex' in H. lra. }
  destruct (Qle_bool (2 ^ (a - b)) x) eqn:B.
  - apply Qle_bool_iff in B. split; [assumption|]. rewrite pow2_succ. assumption.
  - assert (Hlt : x < 2 ^ (a - b)).
    { apply Qnot_le_lt. intro Hc. apply Qle_bool_iff in Hc. congruence. }
    replace (a - b - 1 + 1)%Z with (a - b)%Z by ring.
    split; [|assumption].
    assert (E : 2 ^ (a - b) == 2 * 2 ^ (a - b - 1)).
    { rewrite <- pow2_succ. replace (a - b - 1 + 1)%Z with (a - b)%Z by ring.
      reflexivity. }
    lra.
Qed.

Lemma exponent_unique (x : Q) (k : Z) :
  2 ^ k <= x -> x < 2 ^ (k + 1) -> exponent x = k.
Proof.
  intros Hlo Hhi.
  assert (Hx : 0 < x) by (pose proof (pow2_pos k); lra).
  destruct (exponent_spec x Hx) as [Elo Ehi].
  assert (H1 : (k < exponent x + 1)%Z) by (apply pow2_lt_inv; lra).
  assert (H2 : (exponent x < k + 1)%Z) by (apply pow2_lt_inv; lra).
  lia.
Qed.

Lemma exponent_mono (x y : Q) : 0 < x -> x <= y -> (exponent x <= exponent y)%Z.
Proof.
  intros Hx Hxy.
  destruct (exponent_spec x Hx) as [Xlo Xhi].
  destruct (exponent_spec y) as [Ylo Yhi]; [lra|].
  assert (exponent x < exponent y + 1)%Z by (apply pow2_lt_inv; lra).
  lia.
Qed.

Lemma nearest_even_cases (y : Q) :
  let f := Qfloor y in
  inject_Z f <= y /\ y < inject_Z f + 1 /\
  ((y - inject_Z f < 1 # 2 /\ nearest_even y = f) \/
   (1 # 2 < y - inject_Z f /\ nearest_even y = (f + 1)%Z) \/
   (y - inject_Z f == 1 # 2 /\
    (nearest_even y = f \/ nearest_even y = (f + 1)%Z))).
Proof.
  intro f. pose proof (Qfloor_le y) as Hlo. pose proof (Qlt_floor y) as Hhi.
  rewrite inject_Z_plus in Hhi. change (inject_Z 1) with 1 in Hhi.
  fold f in Hlo, Hhi. split; [assumption|]. split; [assumption|].
  unfold nearest_even. fold f.
  destruct (Qcompare (y - inject_Z f) (1 # 2)) eqn:C.
  - right. right. apply Qeq_alt in C. split; [assumption|].
    destruct (Z.even f); [left|right]; reflexivity.
  - left. apply Qlt_alt in C. split; [assumption|reflexivity].
  - right. left. apply Qgt_alt in C. split; [assumption|reflexivity].
Qed.

Lemma nearest_even_near (y : Q) :
  inject_Z (nearest_even y) - (1 # 2) <= y /\
  y <= inject_Z (nearest_even y) + (1 # 2).
Proof.
  destruct (nearest_even_cases y) as (Hlo & Hhi & [[H E]|[[H E]|[H [E|E]]]]);
    rewrite E; rewrite ?inject_Z_plus; change (inject_Z 1) with 1;
    split; lra.
Qed.

Lemma nearest_even_Z (n : Z) : nearest_even (inject_Z n) = n.
Proof.
  unfold nearest_even. rewrite Qfloor_Z.
  assert (E : inject_Z n - inject_Z n == 0) by ring.
  assert (C : Qcompare (inject_Z n - inject_Z n) (1 # 2) = Lt).
  { apply Qlt_alt. rewrite E. reflexivity. }
  rewrite C. reflexivity.
Qed.

Lemma nearest_even_comp (x y : Q) : x == y -> nearest_even x = nearest_even y.
Proof.
  intro H. unfold nearest_even.
  rewrite (Qfloor_comp x y H).
  assert (C : Qcompare (x - inject_Z (Qfloor y)) (1 # 2)
              = Qcompare (y - inject_Z (Qfloor y)) (1 # 2)).
  { rewrite H. reflexivity. }
  rewrite C. reflexivity.
Qed.

Lemma nearest_even_mono (x y : Q) :
  x <= y -> (nearest_even x <= nearest_even y)%Z.
Proof.
  intro Hxy.
  destruct (Qle_lt_or_eq _ _ Hxy) as [Hlt|Heq];
    [|rewrite (nearest_even_comp x y Heq); lia].
  pose proof (Qfloor_resp_le x y Hxy) as Hf.
  destruct (Z.eq_dec (Qfloor x) (Qfloor y)) as [E|N].
  - destruct (nearest_even_cases x) as (Xlo & Xhi & HX).
    destruct (nearest_even_cases y) as (Ylo & Yhi & HY).
    cbv zeta in *. rewrite <- E in *.
    destruct HX as [[H1 E1]|[[H1 E1]|[H1 [E1|E1]]]];
      destruct HY as [[H2 E2]|[[H2 E2]|[H2 [E2|E2]]]];
      rewrite E1, E2; try lia; exfalso; lra.
  - destruct (nearest_even_cases x) as (Xlo & Xhi & HX).
    destruct (nearest_even_cases y) as (Ylo & Yhi & HY).
    cbv zeta in *.
    assert (nearest_even x <= Qfloor x + 1)%Z
      by (destruct HX as [[_ E1]|[[_ E1]|[_ [E1|E1]]]]; lia).
    assert (Qfloor y <= nearest_even y)%Z
      by (destruct HY as [[_ E1]|[[_ E1]|[_ [E1|E1]]]]; lia).
    lia.
Qed.

(** The significand of a positive number lies between [2^52] and [2^53]. *)
Lemma significand_range (x : Q) :
  0 < x ->
  let e := (exponent x - 52)%Z in
  x == x / 2 ^ e * 2 ^ e /\
  inject_Z (2 ^ 52) <= x / 2 ^ e /\ x / 2 ^ e < inject_Z (2 ^ 53).
Proof.
  intros Hx e. destruct (exponent_spec x Hx) as [Hlo Hhi].
  pose proof (pow2_pos e) as Pe.
  assert (E1 : 2 ^ exponent x == inject_Z (2 ^ 52) * 2 ^ e).
  { rewrite (Zpower_Qpower 2 52) by lia. change (inject_Z 2) with 2.
    rewrite <- pow2_add. subst e.
    replace (52 + (exponent x - 52))%Z with (exponent x) by ring. reflexivity. }
  assert (E2 : 2 ^ (exponent x + 1) == inject_Z (2 ^ 53) * 2 ^ e).
  { rewrite (Zpower_Qpower 2 53) by lia. change (inject_Z 2) with 2.
    rewrite <- pow2_add. subst e.
    replace (53 + (exponent x - 52))%Z with (exponent x + 1)%Z by ring.
    reflexivity. }
  assert (Ex : x == x / 2 ^ e * 2 ^ e) by (field; lra).
  split; [exact Ex|].
  set (y := x / 2 ^ e) in *. rewrite E1 in Hlo. rewrite E2 in Hhi.
  rewrite Ex in Hlo, Hhi. split.
  - apply Qnot_lt_le. intro Hc.
    assert (y * 2 ^ e < inject_Z (2 ^ 52) * 2 ^ e)
      by (apply Qmult_lt_compat_r; assumption).
    lra.
  - apply Qnot_le_lt. intro Hc.
    assert (inject_Z (2 ^ 53) * 2 ^ e <= y * 2 ^ e)
      by (apply Qmult_le_compat_r; lra).
    lra.
Qed.

Lemma round_pos_range (x : Q) :
  0 < x ->
  2 ^ exponent x <= round_pos x /\ round_pos x <= 2 ^ (exponent x + 1).
Proof.
  intro Hx. destruct (significand_range x Hx) as (_ & Hlo & Hhi).
  unfold round_pos. set (e := (exponent x - 52)%Z) in *.
  pose proof (pow2_pos e) as Pe.
  assert (E1 : 2 ^ exponent x == inject_Z (2 ^ 52) * 2 ^ e).
  { rewrite (Zpower_Qpower 2 52) by lia. change (inject_Z 2) with 2.
    rewrite <- pow2_add. subst e.
    replace (52 + (exponent x - 52))%Z with (exponent x) by ring. reflexivity. }
  assert (E2 : 2 ^ (exponent x + 1) == inject_Z (2 ^ 53) * 2 ^ e).
  { rewrite (Zpower_Qpower 2 53) by lia. change (inject_Z 2) with 2.
    rewrite <- pow2_add. subst e.
    replace (53 + (exponent x - 52))%Z with (exponent x + 1)%Z by ring.
    reflexivity. }
  rewrite E1, E2.
  pose proof (nearest_even_mono _ _ Hlo) as M1.
  pose proof (nearest_even_mono _ _ (Qlt_le_weak _ _ Hhi)) as M2.
  rewrite nearest_even_Z in M1, M2.
  rewrite Zle_Qle in M1, M2.
  split; apply Qmult_le_compat_r; lra.
Qed.

Lemma round_pos_mono (x y : Q) :
  0 < x -> x <= y -> round_pos x <= round_pos y.
Proof.
  intros Hx Hxy. assert (Hy : 0 < y) by lra.
  pose proof (exponent_mono x y Hx Hxy) as He.
  destruct (Z.eq_dec (exponent x) (exponent y)) as [E|N].
  - unfold round_pos. rewrite E.
    pose proof (pow2_pos (exponent y - 52)) as Pe.
    apply Qmult_le_compat_r; [|lra].
    rewrite <- Zle_Qle. apply nearest_even_mono.
    apply Qmult_le_compat_r; [assumption|].
    apply Qlt_le_weak, Qinv_lt_0_compat. assumption.
  - destruct (round_pos_range x Hx) as [_ Hhi].
    destruct (round_pos_range y Hy) as [Hlo _].
    assert (2 ^ (exponent x + 1) <= 2 ^ exponent y) by (apply pow2_le; lia).
    lra.
Qed.

Lemma round_pos_error (x : Q) :
  0 < x -> Qabs (round_pos x - x) <= u * x.
Proof.
  intro Hx. destruct (significand_range x Hx) as (Ex & Hlo & Hhi).
  unfold round_pos. set (e := (exponent x - 52)%Z) in *.
  pose proof (pow2_pos e) as Pe.
  set (y := x / 2 ^ e) in *.
  destruct (nearest_even_near y) as [Nlo Nhi].
  set (m := inject_Z (nearest_even y)) in *.
  assert (H52 : inject_Z (2 ^ 52) == 4503599627370496) by reflexivity.
  rewrite H52 in Hlo.
  assert (Hs : 4503599627370496 * 2 ^ e <= x).
  { rewrite Ex. apply Qmult_le_compat_r; lra. }
  assert (D : m * 2 ^ e - x == (m - y) * 2 ^ e).
  { rewrite Ex at 1. ring. }
  rewrite D. apply Qabs_Qle_condition.
  assert (H1 : (m - y) * 2 ^ e <= (1 # 2) * 2 ^ e)
    by (apply Qmult_le_compat_r; lra).
  assert (H2 : (- (1 # 2)) * 2 ^ e <= (m - y) * 2 ^ e)
    by (apply Qmult_le_compat_r; lra).
  unfold u. split; lra.
Qed.

Lemma Qnum_pos (x : Q) : 0 < x <-> (0 < Qnum x)%Z.
Proof. unfold Qlt. simpl. lia. Qed.

Lemma rnd_pos_eq (x : Q) : 0 < x -> rnd x = round_pos x.
Proof.
  intro H. apply Qnum_pos in H. unfold rnd.
  destruct (Qnum x); [lia|reflexivity|lia].
Qed.

Lemma rnd_zero (x : Q) : x == 0 -> rnd x = 0.
Proof.
  intro H. unfold Qeq in H. simpl in H. unfold rnd.
  destruct (Qnum x); [reflexivity|lia|lia].
Qed.

Lemma rnd_opp (x : Q) : rnd (- x) == - rnd x.
Proof.
  destruct x as [[|p|p] d]; [reflexivity|reflexivity|].
  change (round_pos (Z.pos p # d) == - - round_pos (Z.pos p # d)). ring.
Qed.

Lemma rnd_neg_eq (x : Q) : x < 0 -> rnd x = - round_pos (- x).
Proof.
  intro H. assert (Hn : (Qnum x < 0)%Z).
  { unfold Qlt in H. simpl in H. lia. }
  unfold rnd. destruct (Qnum x); [lia|lia|reflexivity].
Qed.

Lemma rnd_positive (x : Q) : 0 < x -> 0 < rnd x.
Proof.
  intro H. rewrite (rnd_pos_eq x H).
  destruct (round_pos_range x H) as [Hlo _].
  pose proof (pow2_pos (exponent x)). lra.
Qed.

Lemma rnd_negative (x : Q) : x < 0 -> rnd x < 0.
Proof.
  intro H. rewrite (rnd_neg_eq x H).
  assert (Hp : 0 < - x) by lra.
  destruct (round_pos_range _ Hp) as [Hlo _].
  pose proof (pow2_pos (exponent (- x))). lra.
Qed.

(** Rounding is monotone. *)
Lemma rnd_mono (x y : Q) : x <= y -> rnd x <= rnd y.
Proof.
  intro Hxy.
  destruct (Q_dec x 0) as [[Hx|Hx]|Hx]; destruct (Q_dec y 0) as [[Hy|Hy]|Hy];
    try (exfalso; lra).
  - rewrite (rnd_neg_eq x Hx), (rnd_neg_eq y Hy).
    assert (round_pos (- y) <= round_pos (- x))
      by (apply round_pos_mono; lra).
    lra.
  - pose proof (rnd_negative x Hx). pose proof (rnd_positive y Hy). lra.
  - pose proof (rnd_negative x Hx). rewrite (rnd_zero y Hy). lra.
  - rewrite (rnd_pos_eq x Hx), (rnd_pos_eq y Hy).
    apply round_pos_mono; assumption.
  - pose proof (rnd_positive y Hy). rewrite (rnd_zero x Hx). lra.
  - rewrite (rnd_zero x Hx), (rnd_zero y Hy). lra.
Qed.

Lemma rnd_comp (x y : Q) : x == y -> rnd x == rnd y.
Proof.
  intro H. apply Qle_antisym; apply rnd_mono; rewrite H; apply Qle_refl.
Qed.

Lemma rnd_nonneg (x : Q) : 0 <= x -> 0 <= rnd x.
Proof.
  intro H. rewrite <- (rnd_zero 0) by reflexivity. apply rnd_mono. assumption.
Qed.

Lemma rnd_nonpos (x : Q) : x <= 0 -> rnd x <= 0.
Proof.
  intro H. rewrite <- (rnd_zero 0) by reflexivity. apply rnd_mono. assumption.
Qed.

(** The relative error of a rounding is at most [2^-53]. *)
Lemma rnd_error (x : Q) : Qabs (rnd x - x) <= u * Qabs x.
Proof.
  destruct (Q_dec x 0) as [[Hx|Hx]|Hx].
  - rewrite (rnd_neg_eq x Hx).
    assert (Hp : 0 < - x) by lra.
    pose proof (round_pos_error _ Hp) as H.
    apply Qabs_Qle_condition in H. destruct H as [H1 H2].
    rewrite (Qabs_neg x) by lra.
    apply Qabs_Qle_condition. split; lra.
  - rewrite (rnd_pos_eq x Hx), (Qabs_pos x) by lra.
    apply round_pos_error. assumption.
  - rewrite (rnd_zero x Hx), Hx. vm_compute. discriminate.
Qed.

(** A rounded number is a number: rounding it again changes nothing. *)
Lemma round_pos_idem (x : Q) : 0 < x -> round_pos (round_pos x) == round_pos x.
Proof.
  intro Hx. destruct (significand_range x Hx) as (_ & Hlo & Hhi).
  destruct (round_pos_range x Hx) as [Rlo Rhi].
  pose proof (pow2_pos (exponent x)) as Px.
  unfold round_pos in *. set (e := (exponent x - 52)%Z) in *.
  pose proof (pow2_pos e) as Pe.
  set (m := nearest_even (x / 2 ^ e)) in *.
  pose proof (nearest_even_mono _ _ Hlo) as M1.
  pose proof (nearest_even_mono _ _ (Qlt_le_weak _ _ Hhi)) as M2.
  rewrite nearest_even_Z in M1, M2. fold m in M1, M2.
  destruct (Z.eq_dec m (2 ^ 53)) as [Em|Nm].
  - assert (Ev : inject_Z m * 2 ^ e == 2 ^ (exponent x + 1)).
    { rewrite Em, (Zpower_Qpower 2 53) by lia. change (inject_Z 2) with 2.
      rewrite <- pow2_add. subst e.
      replace (53 + (exponent x - 52))%Z with (exponent x + 1)%Z by ring.
      reflexivity. }
    assert (Ee : exponent (inject_Z m * 2 ^ e) = (exponent x + 1)%Z).
    { apply exponent_unique.
      - rewrite Ev. lra.
      - rewrite Ev, (pow2_succ (exponent x + 1)).
        pose proof (pow2_pos (exponent x + 1)). lra. }
    rewrite Ee.
    assert (Eq : inject_Z m * 2 ^ e / 2 ^ (exponent x + 1 - 52)
                 == inject_Z (2 ^ 52)).
    { rewrite Ev, (Zpower_Qpower 2 52) by lia. change (inject_Z 2) with 2.
      replace (exponent x + 1)%Z with (52 + (exponent x + 1 - 52))%Z at 1
        by ring.
      rewrite pow2_add. field.
      pose proof (pow2_pos (exponent x + 1 - 52)). lra. }
    rewrite (nearest_even_comp _ _ Eq), nearest_even_Z.
    rewrite Ev, (Zpower_Qpower 2 52) by lia. change (inject_Z 2) with 2.
    rewrite <- pow2_add.
    replace (52 + (exponent x + 1 - 52))%Z with (exponent x + 1)%Z by ring.
    reflexivity.
  - assert (Hm : (m < 2 ^ 53)%Z) by lia.
    assert (Ee : exponent (inject_Z m * 2 ^ e) = exponent x).
    { apply exponent_unique; [assumption|].
      assert (E2 : 2 ^ (exponent x + 1) == inject_Z (2 ^ 53) * 2 ^ e).
      { rewrite (Zpower_Qpower 2 53) by lia. change (inject_Z 2) with 2.
        rewrite <- pow2_add. subst e.
        replace (53 + (exponent x - 52))%Z with (exponent x + 1)%Z by ring.
        reflexivity. }
      rewrite E2. apply Qmult_lt_compat_r; [assumption|].
      rewrite <- Zlt_Qlt. assumption. }
    rewrite Ee. fold e.
    assert (Eq : inject_Z m * 2 ^ e / 2 ^ e == inject_Z m) by (field; lra).
    rewrite (nearest_even_comp _ _ Eq), nearest_even_Z. reflexivity.
Qed.

Lemma rnd_idem_pos (x : Q) : 0 < x -> rnd (rnd x) == rnd x.
Proof.
  intro Hx. pose proof (rnd_positive x Hx) as Hp.
  rewrite (rnd_pos_eq _ Hp), (rnd_pos_eq x Hx).
  apply round_pos_idem. assumption.
Qed.

Lemma rnd_idem (x : Q) : rnd (rnd x) == rnd x.
Proof.
  destruct (Q_dec x 0) as [[Hx|Hx]|Hx].
  - assert (Hp : 0 < - x) by lra.
    assert (E : rnd x == - rnd (- x)).
    { rewrite rnd_opp. ring. }
    rewrite (rnd_comp _ _ E), rnd_opp, (rnd_idem_pos _ Hp), E. reflexivity.
  - apply rnd_idem_pos. assumption.
  - rewrite (rnd_zero x Hx). reflexivity.
Qed.

Lemma is_number_rnd (x : Q) : is_number (rnd x).
Proof. apply rnd_idem. Qed.



(** A number below the rounding of [x] is below [x], and one above is
    above. *)
Lemma number_lt_rnd (a x : Q) : is_number a -> a < rnd x -> a < x.
Proof.
  unfold is_number. intros Ha H. apply Qnot_le_lt. intro Hc.
  pose proof (rnd_mono _ _ Hc). lra.
Qed.

Lemma rnd_lt_number (a x : Q) : is_number a -> rnd x < a -> x < a.
Proof.
  unfold is_number. intros Ha H. apply Qnot_le_lt. intro Hc.
  pose proof (rnd_mono _ _ Hc). lra.
Qed.

Lemma number_le_rnd (a x : Q) : is_number a -> a <= x -> a <= rnd x.
Proof.
  unfold is_number. intros Ha H. pose proof (rnd_mono _ _ H). lra.
Qed.

Lemma rnd_le_number (a x : Q) : is_number a -> x <= a -> rnd x <= a.
Proof.
  unfold is_number. intros Ha H. pose proof (rnd_mono _ _ H). lra.
Qed.

(** The error of one rounding, as two linear bounds. *)
Lemma rnd_near_pos (x : Q) :
  0 <= x -> x - u * x <= rnd x /\ rnd x <= x + u * x.
Proof.
  intro Hx. pose proof (rnd_error x) as H.
  rewrite (Qabs_pos x Hx) in H. apply Qabs_Qle_condition in H.
  split; lra.
Qed.

Lemma rnd_near_neg (x : Q) :
  x <= 0 -> x + u * x <= rnd x /\ rnd x <= x - u * x.
Proof.
  intro Hx. pose proof (rnd_error x) as H.
  rewrite (Qabs_neg x Hx) in H. apply Qabs_Qle_condition in H.
  split; lra.
Qed.

End Rounding.

(** From here on a rounding is computed on concrete numbers only. *)
Opaque Number.rnd.
Arguments Number.add : simpl never.
Arguments Number.sub : simpl never.
Arguments Number.mul : simpl never.
Arguments Number.div : simpl never.
Arguments number : simpl never.

(** ** Comparisons, rounding and snapping *)

Lemma leb_spec (a b : Q) : leb a b = true <-> a <= b.
Proof. apply Qle_bool_iff. Qed.

Lemma leb_false (a b : Q) : leb a b = false <-> b < a.
Proof.
  unfold leb. split; intro H.
  - apply Qnot_le_lt. intro Hle. apply Qle_bool_iff in Hle. congruence.
  - destruct (Qle_bool a b) eqn:E; [|reflexivity].
    apply Qle_bool_iff in E. lra.
Qed.

Lemma geb_spec (a b : Q) : geb a b = true <-> b <= a.
Proof. apply leb_spec. Qed.

Lemma geb_false (a b : Q) : geb a b = false <-> a < b.
Proof. apply leb_false. Qed.

Lemma gtb_spec (a b : Q) : gtb a b = true <-> b < a.
Proof.
  unfold gtb. rewrite negb_true_iff. apply leb_false.
Qed.

Lemma gtb_false (a b : Q) : gtb a b = false <-> a <= b.
Proof.
  unfold gtb. rewrite negb_false_iff. apply leb_spec.
Qed.

Lemma ltb_spec (a b : Q) : ltb a b = true <-> a < b.
Proof.
  unfold ltb. rewrite negb_true_iff. apply leb_false.
Qed.

Lemma ltb_false (a b : Q) : ltb a b = false <-> b <= a.
Proof.
  unfold ltb. rewrite negb_false_iff. apply leb_spec.
Qed.

Lemma max_cases (a b : Q) :
  (a < b /\ Math.max a b == b) \/ (b <= a /\ Math.max a b == a).
Proof. apply Q.max_spec. Qed.

Lemma min_cases (a b : Q) :
  (a < b /\ Math.min a b == a) \/ (b <= a /\ Math.min a b == b).
Proof. apply Q.min_spec. Qed.

(** [Math.round x] is the integer [k] with [k - 1/2 <= x < k + 1/2]. *)
Lemma round_bounds (x : Q) :
  inject_Z (Math.round x) - (1 # 2) <= x /\ x < inject_Z (Math.round x) + (1 # 2).
Proof.
  unfold Math.round.
  pose proof (Qfloor_le (x + (1 # 2))) as Hlo.
  pose proof (Qlt_floor (x + (1 # 2))) as Hhi.
  rewrite inject_Z_plus in Hhi.
  change (inject_Z 1) with 1 in Hhi.
  split; lra.
Qed.

Lemma round_unique (x : Q) (k : Z) :
  inject_Z k - (1 # 2) <= x -> x < inject_Z k + (1 # 2) -> Math.round x = k.
Proof.
  intros Hlo Hhi.
  destruct (round_bounds x) as [Rlo Rhi].
  assert (H1 : inject_Z (Math.round x) < inject_Z (k + 1)).
  { rewrite inject_Z_plus. change (inject_Z 1) with 1. lra. }
  assert (H2 : inject_Z k < inject_Z (Math.round x + 1)).
  { rewrite inject_Z_plus. change (inject_Z 1) with 1. lra. }
  rewrite <- Zlt_Qlt in H1, H2. lia.
Qed.

Lemma round_comp (x y : Q) : x == y -> Math.round x = Math.round y.
Proof.
  intro H. unfold Math.round. apply Qfloor_comp. rewrite H. reflexivity.
Qed.

(** The constants of the program are numbers. *)
Lemma literal_is_number (literal : Q) : Number.is_number (number literal).
Proof. apply rnd_idem. Qed.

Lemma SNAP_GRID_pos : 0 < Timeline.SNAP_GRID.
Proof. reflexivity. Qed.

Lemma snap_comp (x y : Q) : x == y -> Timeline.snap x == Timeline.snap y.
Proof.
  intro H. unfold Timeline.snap, Number.div.
  assert (E : Number.rnd (x / Timeline.SNAP_GRID)
              == Number.rnd (y / Timeline.SNAP_GRID)).
  { apply rnd_comp. rewrite H. reflexivity. }
  rewrite (round_comp _ _ E). reflexivity.
Qed.

(** The quotient of a time that is not negative is not negative, and so
    are the multiple of the grid and its product with the grid. *)
Lemma div_nonneg (x y : Q) : 0 <= x -> 0 < y -> 0 <= x [/] y.
Proof.
  intros Hx Hy. unfold Number.div. apply rnd_nonneg.
  apply Qle_shift_div_l; [assumption|lra].
Qed.

Lemma round_nonneg (x : Q) : 0 <= x -> (0 <= Math.round x)%Z.
Proof.
  intro Hx. unfold Math.round. rewrite <- (Qfloor_Z 0).
  apply Qfloor_resp_le. change (inject_Z 0) with 0. lra.
Qed.

Lemma snap_nonneg (x : Q) : 0 <= x -> 0 <= Timeline.snap x.
Proof.
  intro Hx. unfold Timeline.snap, Number.mul. apply rnd_nonneg.
  pose proof (round_nonneg _ (div_nonneg x _ Hx SNAP_GRID_pos)) as Hk.
  rewrite Zle_Qle in Hk. change (inject_Z 0) with 0 in Hk.
  apply Qmult_le_0_compat; [assumption|]. apply Qlt_le_weak, SNAP_GRID_pos.
Qed.

Lemma snap_is_number (x : Q) : Number.is_number (Timeline.snap x).
Proof. apply rnd_idem. Qed.

(** Snapping moves a time that is not negative by at most half a grid
    step and the error of its two roundings, which is below [2^-51] of the
    time and the grid step. *)
Lemma snap_near (x : Q) :
  0 <= x ->
  Qabs (Timeline.snap x - x)
  <= Timeline.SNAP_GRID / 2 + 4 * Number.u * (x + Timeline.SNAP_GRID).
Proof.
  intro Hx. unfold Timeline.snap, Number.div, Number.mul.
  pose proof SNAP_GRID_pos as HG.
  set (G := Timeline.SNAP_GRID) in *.
  assert (Hy : 0 <= x / G) by (apply Qle_shift_div_l; [assumption|lra]).
  destruct (rnd_near_pos _ Hy) as [Qlo Qhi].
  assert (Hq : 0 <= Number.rnd (x / G)) by (apply rnd_nonneg; assumption).
  destruct (round_bounds (Number.rnd (x / G))) as [Rlo Rhi].
  pose proof (round_nonneg _ Hq) as Hk.
  rewrite Zle_Qle in Hk. change (inject_Z 0) with 0 in Hk.
  set (q := Number.rnd (x / G)) in *.
  set (k := inject_Z (Math.round q)) in *.
  assert (HkG : 0 <= k * G) by (apply Qmult_le_0_compat; lra).
  destruct (rnd_near_pos _ HkG) as [Slo Shi].
  assert (ExG : x / G * G == x) by (field; lra).
  assert (M1 : (k - (1 # 2)) * G <= q * G)
    by (apply Qmult_le_compat_r; lra).
  assert (M2 : q * G <= (k + (1 # 2)) * G)
    by (apply Qmult_le_compat_r; lra).
  assert (M3 : (x / G - Number.u * (x / G)) * G <= q * G)
    by (apply Qmult_le_compat_r; lra).
  assert (M4 : q * G <= (x / G + Number.u * (x / G)) * G)
    by (apply Qmult_le_compat_r; lra).
  assert (E1 : (k - (1 # 2)) * G == k * G - G * (1 # 2)) by ring.
  assert (E2 : (k + (1 # 2)) * G == k * G + G * (1 # 2)) by ring.
  assert (E3 : (x / G - Number.u * (x / G)) * G
               == x / G * G - Number.u * (x / G * G)) by ring.
  assert (E4 : (x / G + Number.u * (x / G)) * G
               == x / G * G + Number.u * (x / G * G)) by ring.
  rewrite E1 in M1. rewrite E2 in M2. rewrite E3, ExG in M3.
  rewrite E4, ExG in M4.
  assert (E5 : G / 2 == G * (1 # 2)) by (field; discriminate).
  rewrite E5.
  set (kG := k * G) in *. set (qG := q * G) in *.
  set (s := Number.rnd kG) in *.
  unfold Number.u in *.
  apply Qabs_Qle_condition. split; lra.
Qed.

(** Halves round up, also below zero; the quotient of 0.03 by the grid
    step is one and a half, which snaps 0.03 to 0.04. *)
Example round_half_up :
  Math.round 2.5 = 3%Z /\ Math.round (-2.5) = (-2)%Z /\
  Math.round 2.4 = 2%Z /\
  number 0.03 [/] Timeline.SNAP_GRID == 1.5 /\
  Timeline.snap (number 0.03) == number 0.04.
Proof. repeat split; vm_compute; reflexivity. Qed.

(** ** Lists of clips *)

Lemma find_clip_some (i : string) (cs : list Clip) (c : Clip) :
  find_clip i cs = Some c -> In c cs /\ id c = i.
Proof.
  unfold find_clip. intro H. apply find_some in H. destruct H as [Hin Heq].
  split; [assumption|]. apply String.eqb_eq. assumption.
Qed.

Lemma find_clip_none (i : string) (cs : list Clip) :
  find_clip i cs = None -> forall c, In c cs -> id c <> i.
Proof.
  unfold find_clip. intros H c Hin Heq.
  pose proof (find_none _ _ H c Hin) as Hn. simpl in Hn.
  apply String.eqb_neq in Hn. contradiction.
Qed.

(** With unique identifiers, the clip found under the identifier of a clip
    of the list is that clip. *)
Lemma find_clip_unique (cs : list Clip) (c : Clip) :
  NoDup (map id cs) -> In c cs -> find_clip (id c) cs = Some c.
Proof.
  unfold find_clip. induction cs as [|a cs IH]; intros Hnd Hin.
  - contradiction.
  - simpl. inversion Hnd as [|x l Hnotin Hnd']; subst.
    destruct Hin as [->|Hin].
    + rewrite String.eqb_refl. reflexivity.
    + destruct (String.eqb (id a) (id c)) eqn:E.
      * apply String.eqb_eq in E. exfalso. apply Hnotin. rewrite E.
        apply in_map. assumption.
      * apply IH; assumption.
Qed.

(** ** Split *)

Lemma split_outside (gid1 gid2 : string) (s : State) (clip : Clip) :
  selectedClip s = Some clip ->
  ~ within_guard clip (currentTime s) ->
  handleSplitClip gid1 gid2 s = s.
Proof.
  unfold selectedClip, handleSplitClip, within_guard. intros Hsel Hout.
  destruct (truthy (selectedClipId s)) as [sel|]; [|discriminate].
  rewrite Hsel.
  destruct (leb (currentTime s) (start clip [+] number 0.05)) eqn:E1;
    [reflexivity|].
  destruct (geb (currentTime s)
                (start clip [+] duration clip [-] number 0.05)) eqn:E2;
    [reflexivity|].
  apply leb_false in E1. apply geb_false in E2.
  exfalso. apply Hout. split; assumption.
Qed.

Lemma split_inside (gid1 gid2 : string) (s : State) (clip : Clip) :
  selectedClip s = Some clip ->
  within_guard clip (currentTime s) ->
  handleSplitClip gid1 gid2 s =
  setSelectedClipId (Some gid2)
    (setClips
       (filter (fun c => negb (String.eqb (id c) (id clip))) (clips s)
        ++ [splitLeft gid1 clip (currentTime s);
            splitRight gid2 clip (currentTime s)]) s).
Proof.
  unfold selectedClip, handleSplitClip, within_guard. intros Hsel [Hlo Hhi].
  destruct (truthy (selectedClipId s)) as [sel|]; [|discriminate].
  rewrite Hsel.
  apply leb_false in Hlo. apply geb_false in Hhi.
  rewrite Hlo, Hhi. reflexivity.
Qed.

(** The error of a difference and of a sum of the program, each one
    rounding. *)
Lemma sub_error (a b : Q) :
  Qabs (b + (a [-] b) - a) <= Number.u * Qabs (a - b).
Proof.
  assert (E : b + (a [-] b) - a == Number.rnd (a - b) - (a - b))
    by (unfold Number.sub; ring).
  rewrite E. apply rnd_error.
Qed.

Lemma add_error (a b : Q) :
  Qabs ((a [+] b) - a - b) <= Number.u * Qabs (a + b).
Proof.
  assert (E : (a [+] b) - a - b == Number.rnd (a + b) - (a + b))
    by (unfold Number.add; ring).
  rewrite E. apply rnd_error.
Qed.

(** C2, as the code has it.  Split of the selected clip at the playhead:
    nothing changes unless the playhead lies strictly between
    [start + 0.05] and [start + duration - 0.05] as the program computes
    them; otherwise the clip is replaced by a left and a right part
    carrying the two new identifiers, the left part keeps start and offset
    and lasts up to the playhead, the right part starts at the playhead
    with the remaining duration and the advanced offset, each computed with
    one rounding, and the selection moves to the right part.  The durations
    add up to the original one and the offsets differ by the left duration
    up to that rounding, a relative error of at most [2^-53]. *)
Theorem C2_split (gid1 gid2 : string) (s : State) (clip : Clip) :
  selectedClip s = Some clip ->
  let at_ := currentTime s in
  let s' := handleSplitClip gid1 gid2 s in
  (~ within_guard clip at_ -> s' = s) /\
  (within_guard clip at_ ->
   exists left right : Clip,
     clips s' =
       filter (fun c => negb (String.eqb (id c) (id clip))) (clips s)
       ++ [left; right] /\
     selectedClipId s' = Some (id right) /\
     id left = gid1 /\ id right = gid2 /\
     start left = start clip /\ offset left = offset clip /\
     duration left = at_ [-] start clip /\
     start right = at_ /\
     duration right = duration clip [-] (at_ [-] start clip) /\
     offset right = offset clip [+] (at_ [-] start clip) /\
     same_media clip left /\ same_media clip right /\
     Qabs (duration left + duration right - duration clip)
       <= Number.u * Qabs (duration clip - duration left) /\
     Qabs (offset right - offset left - duration left)
       <= Number.u * Qabs (offset clip + duration left)).
Proof.
  intros Hsel at_ s'. split.
  - intro Hout. apply (split_outside gid1 gid2 s clip Hsel Hout).
  - intro Hin. subst s'. rewrite (split_inside gid1 gid2 s clip Hsel Hin).
    exists (splitLeft gid1 clip at_), (splitRight gid2 clip at_).
    do 10 (split; [reflexivity|]).
    split; [unfold same_media; cbn [splitLeft trackId source file type
              Types.totalDuration name thumbnail width height];
            repeat split|].
    split; [unfold same_media; cbn [splitRight trackId source file type
              Types.totalDuration name thumbnail width height];
            repeat split|].
    cbn [splitLeft splitRight duration offset].
    split; [apply sub_error|apply add_error].
Qed.

Lemma C2_split_witness :
  selectedClip scenario_state = Some scenario_clip /\
  within_guard scenario_clip 2 /\
  exists left right : Clip,
    clips (handleSplitClip "l" "r" scenario_state) = [left; right] /\
    (start left == 0 /\ duration left == 2 /\ offset left == 0) /\
    (start right == 2 /\ duration right == 3 /\ offset right == 2).
Proof.
  assert (Hsel : selectedClip scenario_state = Some scenario_clip)
    by reflexivity.
  assert (Hin : within_guard scenario_clip 2)
    by (unfold within_guard; split; vm_compute; reflexivity).
  split; [exact Hsel|]. split; [exact Hin|].
  destruct (C2_split "l" "r" scenario_state scenario_clip Hsel) as [_ H].
  destruct (H Hin) as (left & right & Hc & _ & _ & _ & Hsl & Hol & Hdl
                       & Hsr & Hdr & Hor & _).
  exists left, right. split; [exact Hc|].
  rewrite Hsl, Hol, Hdl, Hsr, Hdr, Hor.
  repeat split; vm_compute; reflexivity.
Defined.

(** C2 as stated fails on the clip of 7.3 seconds split 0.48 seconds after
    its start: the left part lasts 0.48 and the right part 6.82 seconds,
    and neither their exact sum nor the sum the program would compute is
    7.3. *)
Lemma C2_counterexample :
  selectedClip long_state = Some long_clip /\
  within_guard long_clip (currentTime long_state) /\
  exists left right : Clip,
    clips (handleSplitClip "l" "r" long_state) = [left; right] /\
    duration left == number 0.48 /\ duration right == number 6.82 /\
    ~ duration left + duration right == duration long_clip /\
    ~ duration left [+] duration right == duration long_clip.
Proof.
  split; [reflexivity|].
  split; [unfold within_guard; split; vm_compute; reflexivity|].
  eexists. eexists. split; [vm_compute; reflexivity|].
  split; [vm_compute; reflexivity|]. split; [vm_compute; reflexivity|].
  split; intro H; vm_compute in H; discriminate.
Qed.

(** ** Effects leave the clips alone *)

Lemma clips_exportWatch (s : State) : clips (exportWatch s) = clips s.
Proof.
  unfold exportWatch, recorder_stop.
  destruct (isExporting s && negb (isPlaying s)
            && geb (currentTime s) (totalDuration s)); [|reflexivity].
  destruct (mediaRecorderRef s) as [r|]; [|reflexivity].
  destruct (rec_state r); reflexivity.
Qed.

Lemma clips_commit (before s : State) : clips (commit before s) = clips s.
Proof.
  unfold commit.
  destruct (watch_deps_changed before (playbackEffect (adjustTotalDuration s)));
    [rewrite clips_exportWatch|];
    unfold playbackEffect, adjustTotalDuration;
    simpl; destruct (isPlaying s); reflexivity.
Qed.

Lemma selection_exportWatch (s : State) :
  selectedClipId (exportWatch s) = selectedClipId s.
Proof.
  unfold exportWatch, recorder_stop.
  destruct (isExporting s && negb (isPlaying s)
            && geb (currentTime s) (totalDuration s)); [|reflexivity].
  destruct (mediaRecorderRef s) as [r|]; [|reflexivity].
  destruct (rec_state r); reflexivity.
Qed.

Lemma selection_commit (before s : State) :
  selectedClipId (commit before s) = selectedClipId s.
Proof.
  unfold commit.
  destruct (watch_deps_changed before (playbackEffect (adjustTotalDuration s)));
    [rewrite selection_exportWatch|];
    unfold playbackEffect, adjustTotalDuration;
    simpl; destruct (isPlaying s); reflexivity.
Qed.

(** ** Drag gestures *)

Lemma nth_error_unique_id (cs : list Clip) (n k : nat) (c d : Clip) :
  NoDup (map id cs) ->
  nth_error cs n = Some c -> nth_error cs k = Some d -> id d = id c -> k = n.
Proof.
  intros Hnd Hn Hk Hid.
  apply (proj1 (NoDup_nth_error (map id cs)) Hnd).
  - rewrite length_map. apply nth_error_Some. congruence.
  - rewrite !nth_error_map, Hn, Hk. simpl. congruence.
Qed.

Lemma truthy_id (i : string) : i <> ""%string -> truthy (Some i) = Some i.
Proof.
  intro H. unfold truthy. apply String.eqb_neq in H. rewrite H. reflexivity.
Qed.

Section Gesture.

Variables (m : DragMode) (n : nat) (x0 x1 : Q) (ui : UI) (clip : Clip).

Hypothesis Hunique : NoDup (map id (clips (app ui))).
Hypothesis Hpressed : nth_error (clips (app ui)) n = Some clip.
Hypothesis Hnamed : id clip <> ""%string.

(** The clips after a drag of the [n]-th clip: the pressed clip carries the
    updates of the gesture, every other clip is the object it was. *)
Lemma drag_clips :
  clips (app (drag m n x0 x1 ui)) =
  map (fun c => if String.eqb (id c) (id clip)
                then spread c (gesture_updates m clip x0 x1) else c)
      (clips (app ui)).
Proof.
  assert (Hfind : find_clip (id clip) (clips (app ui)) = Some clip).
  { apply find_clip_unique; [assumption|].
    eapply nth_error_In; eassumption. }
  unfold drag, run. simpl fold_left.
  unfold step at 2. simpl handle. rewrite Hpressed. simpl.
  unfold step. simpl handle.
  unfold Timeline.handleMouseMove. cbn [isDragging clipId Timeline.handleMouseDown negb].
  rewrite (truthy_id _ Hnamed).
  rewrite !clips_commit. simpl. rewrite Hfind.
  unfold with_app. simpl. rewrite !clips_commit. simpl.
  unfold gesture_updates. destruct m; reflexivity.
Qed.

Lemma drag_pressed :
  nth_error (clips (app (drag m n x0 x1 ui))) n =
  Some (spread clip (gesture_updates m clip x0 x1)).
Proof.
  rewrite drag_clips.
  rewrite nth_error_map, Hpressed. simpl. rewrite String.eqb_refl. reflexivity.
Qed.

Lemma drag_others :
  others_unchanged n (clips (app ui)) (clips (app (drag m n x0 x1 ui))).
Proof.
  rewrite drag_clips. split.
  - apply length_map.
  - intros k Hk. rewrite nth_error_map.
    destruct (nth_error (clips (app ui)) k) as [d|] eqn:Ek; [|reflexivity].
    simpl. destruct (String.eqb (id d) (id clip)) eqn:E; [|reflexivity].
    apply String.eqb_eq in E. exfalso. apply Hk.
    eapply nth_error_unique_id; eassumption.
Qed.

End Gesture.

Lemma find_clip_map (f : Clip -> Clip) (i : string) (cs : list Clip) :
  (forall c, id (f c) = id c) ->
  find_clip i (map f cs) = option_map f (find_clip i cs).
Proof.
  intro Hid. unfold find_clip. induction cs as [|c cs IH]; [reflexivity|].
  simpl. rewrite Hid. destruct (String.eqb (id c) i); [reflexivity|exact IH].
Qed.

Lemma spread_again (m : DragMode) (clip c : Clip) (x0 x1 x2 : Q) :
  spread (spread c (gesture_updates m clip x0 x1)) (gesture_updates m clip x0 x2)
  = spread c (gesture_updates m clip x0 x2).
Proof.
  destruct m; unfold gesture_updates; simpl; try reflexivity.
  unfold Timeline.trim_end_updates.
  repeat match goal with
         | |- context [if leb ?a ?b then _ else _] => destruct (leb a b)
         end;
    reflexivity.
Qed.

(** Within one drag every pointer position is measured from the press: a
    further move leaves the clips as a single move to the last position
    does. *)
Lemma drag_last_position (m : DragMode) (n : nat) (x0 x1 x2 : Q) (ui : UI)
    (clip : Clip) :
  NoDup (map id (clips (app ui))) ->
  nth_error (clips (app ui)) n = Some clip ->
  id clip <> ""%string ->
  clips (app (run ui [MouseDown n (Some m) x0; MouseMove x1; MouseMove x2])) =
  clips (app (drag m n x0 x2 ui)).
Proof.
  intros Hnd Hn Hid.
  rewrite (drag_clips m n x0 x2 ui clip Hnd Hn Hid).
  change (run ui [MouseDown n (Some m) x0; MouseMove x1; MouseMove x2])
    with (step (drag m n x0 x1 ui) (MouseMove x2)).
  assert (Hds : dragState (drag m n x0 x1 ui)
                = Timeline.handleMouseDown x0 clip (Some m)).
  { unfold drag, run. simpl fold_left. unfold step at 2. simpl handle.
    rewrite Hn. unfold step. cbn [dragState app]. simpl handle.
    destruct (Timeline.handleMouseMove _ _ x1) as [[cid u]|]; reflexivity. }
  assert (Hfind : find_clip (id clip) (clips (app (drag m n x0 x1 ui)))
                  = Some (spread clip (gesture_updates m clip x0 x1))).
  { rewrite (drag_clips m n x0 x1 ui clip Hnd Hn Hid).
    rewrite find_clip_map.
    - rewrite (find_clip_unique _ _ Hnd (nth_error_In _ _ Hn)). simpl.
      rewrite String.eqb_refl. reflexivity.
    - intro c. destruct (String.eqb (id c) (id clip)); reflexivity. }
  pose proof (drag_clips m n x0 x1 ui clip Hnd Hn Hid) as Hc.
  set (ui1 := drag m n x0 x1 ui) in *. clearbody ui1.
  unfold step. cbn [app]. rewrite clips_commit.
  change (handle ui1 (MouseMove x2)) with
    (match Timeline.handleMouseMove (dragState ui1) (clips (app ui1)) x2 with
     | None => ui1
     | Some (cid, updates) => with_app (handleClipUpdate cid updates) ui1
     end).
  rewrite Hds. unfold Timeline.handleMouseMove.
  cbn [isDragging clipId Timeline.handleMouseDown negb].
  rewrite (truthy_id _ Hid), Hfind. unfold with_app. cbn [app].
  unfold handleClipUpdate. cbn [clips setClips].
  rewrite Hc, map_map.
  apply map_ext. intro c. simpl id.
  destruct (String.eqb (id c) (id clip)) eqn:E.
  - simpl id. rewrite E.
    rewrite <- (spread_again m clip c x0 x1 x2). f_equal.
  - rewrite E. reflexivity.
Qed.

(** A clip whose identifier is the empty string cannot be dragged: the
    guard [!dragState.clipId] of [handleMouseMove] takes it for no clip. *)
Lemma drag_unnamed (m : DragMode) (n : nat) (x0 x1 : Q) (ui : UI) (clip : Clip) :
  nth_error (clips (app ui)) n = Some clip ->
  id clip = ""%string ->
  clips (app (drag m n x0 x1 ui)) = clips (app ui).
Proof.
  intros Hn Hid. unfold drag, run. simpl fold_left.
  unfold step at 2. simpl handle. rewrite Hn. simpl.
  unfold step. simpl handle.
  unfold Timeline.handleMouseMove. cbn [isDragging clipId Timeline.handleMouseDown negb].
  rewrite Hid. simpl. rewrite !clips_commit. reflexivity.
Qed.

(** ** Move *)

Lemma same_media_refl (c : Clip) : same_media c c.
Proof. unfold same_media. repeat split. Qed.

Lemma deltaSeconds_pressed (x0 x1 : Q) (clip : Clip) (m : option DragMode) :
  Timeline.deltaSeconds (Timeline.handleMouseDown x0 clip m) x1 = deltaTime x0 x1.
Proof. reflexivity. Qed.

Lemma round_near (x : Q) : Qabs (inject_Z (Math.round x) - x) <= 1 # 2.
Proof.
  destruct (round_bounds x) as [Hlo Hhi].
  apply Qabs_Qle_condition. split; lra.
Qed.

(** C8, as the code has it.  A move of the [n]-th clip (its identifier not
    empty and unique) by the pointer travel [deltaTime x0 x1] requests the
    start [t = start + delta] and sets the start to
    [Math.round(max(0, t) / Q) * Q] as the program computes it: the
    quotient and the product are each rounded to a number, and the
    multiplier is the integer nearest to the rounded quotient.  The result
    is not negative and lies within half a grid step of [max(0, t)] up to
    an error of [2^-51] of that time and the grid step.  Every other field
    of the clip and every other clip stay as they were. *)
Theorem C8_move (n : nat) (x0 x1 : Q) (ui : UI) (clip : Clip) :
  NoDup (map id (clips (app ui))) ->
  nth_error (clips (app ui)) n = Some clip ->
  id clip <> ""%string ->
  let t := start clip [+] deltaTime x0 x1 in
  let quotient := Math.max 0 t [/] Timeline.SNAP_GRID in
  let cs' := clips (app (drag move n x0 x1 ui)) in
  exists clip' : Clip,
    nth_error cs' n = Some clip' /\
    start clip' = inject_Z (Math.round quotient) [*] Timeline.SNAP_GRID /\
    Qabs (inject_Z (Math.round quotient) - quotient) <= 1 # 2 /\
    0 <= start clip' /\
    Qabs (start clip' - Math.max 0 t)
    <= Timeline.SNAP_GRID / 2
       + 4 * Number.u * (Math.max 0 t + Timeline.SNAP_GRID) /\
    same_but_start clip clip' /\
    others_unchanged n (clips (app ui)) cs'.
Proof.
  intros Hnd Hn Hid t quotient cs'.
  exists (spread clip (gesture_updates move clip x0 x1)).
  split; [apply drag_pressed; assumption|].
  split; [reflexivity|].
  split; [apply round_near|].
  assert (Hs : start (spread clip (gesture_updates move clip x0 x1))
               = Timeline.snap (Math.max 0 t)) by reflexivity.
  rewrite Hs.
  split; [apply snap_nonneg, Q.le_max_l|].
  split; [apply snap_near, Q.le_max_l|].
  split.
  { unfold same_but_start, same_media.
    cbn [spread id duration offset trackId source file type
         Types.totalDuration name thumbnail width height
         gesture_updates Timeline.move_updates upd_duration upd_offset
         or_else].
    repeat split. }
  apply drag_others with (clip := clip); assumption.
Qed.

Lemma C8_move_witness :
  exists clip' : Clip,
    nth_error (clips (app (drag move 0 0 150 trim_ui))) 0 = Some clip' /\
    start clip' == 3.5 /\ duration clip' = 4 /\ offset clip' = 1.
Proof.
  assert (Hnd : NoDup (map id (clips (app trim_ui)))).
  { simpl. constructor; [intros []|constructor]. }
  assert (Hn : nth_error (clips (app trim_ui)) 0 = Some trim_clip)
    by reflexivity.
  assert (Hid : id trim_clip <> ""%string) by discriminate.
  destruct (C8_move 0 0 150 trim_ui trim_clip Hnd Hn Hid)
    as (clip' & Hc & Hs & _ & _ & _ & (_ & Hd & Ho & _) & _).
  exists clip'. split; [exact Hc|].
  rewrite Hs, Hd, Ho. split; [vm_compute; reflexivity|].
  split; reflexivity.
Defined.

(** C8 as stated fails in two places.  For a request left of the origin:
    pressing the clip that starts at 2 and dragging it five seconds to the
    left requests [t = -3]; the clip lands on 0, three seconds away from
    [round(t/Q)*Q = -3].  For a request next to the middle of a grid step:
    dragging the clip at the origin by 3 pixels requests the number 0.03,
    which lies below 0.03; the quotient the program computes is one and a
    half, so the clip lands on 0.04, although 0.02 is the nearer multiple
    of the grid step and the value of [round(t/Q)*Q]. *)
Lemma C8_counterexample :
  (let t := start trim_clip [+] deltaTime 500 0 in
   NoDup (map id (clips (app trim_ui))) /\
   nth_error (clips (app trim_ui)) 0 = Some trim_clip /\
   id trim_clip <> ""%string /\
   t == -3 /\
   exists clip' : Clip,
     nth_error (clips (app (drag move 0 500 0 trim_ui))) 0 = Some clip' /\
     start clip' == 0 /\
     ~ Qabs (start clip' - inject_Z (Math.round (t / 0.02)) * 0.02)
       < TOLERANCE) /\
  (let t := start late_clip [+] deltaTime 0 3 in
   NoDup (map id (clips (app late_ui))) /\
   nth_error (clips (app late_ui)) 0 = Some late_clip /\
   id late_clip <> ""%string /\
   t == number 0.03 /\ 0 <= t /\
   exists clip' : Clip,
     nth_error (clips (app (drag move 0 0 3 late_ui))) 0 = Some clip' /\
     start clip' == number 0.04 /\
     Qabs (0.02 - t) < Qabs (start clip' - t) /\
     ~ Qabs (start clip' - inject_Z (Math.round (t / 0.02)) * 0.02)
       < TOLERANCE).
Proof.
  split.
  - split. { simpl. constructor; [intros []|constructor]. }
    split; [reflexivity|].
    split; [discriminate|].
    split; [vm_compute; reflexivity|].
    eexists. split; [vm_compute; reflexivity|].
    split; [vm_compute; reflexivity|].
    intro H. vm_compute in H. discriminate.
  - split. { simpl. constructor; [intros []|constructor]. }
    split; [reflexivity|].
    split; [discriminate|].
    split; [vm_compute; reflexivity|].
    split; [vm_compute; discriminate|].
    eexists. split; [vm_compute; reflexivity|].
    split; [vm_compute; reflexivity|].
    split; [vm_compute; reflexivity|].
    intro H. vm_compute in H. discriminate.
Qed.

(** ** TrimStart *)

(** On a non-empty interval the [min]/[max] of the code is the clamp, on
    an empty one it is the upper end. *)
Lemma min_max_clamp (lo hi x : Q) :
  lo <= hi -> Math.min (Math.max x lo) hi == clamp lo hi x.
Proof.
  intro Hle. unfold clamp.
  destruct (max_cases x lo) as [[H1 E1]|[H1 E1]];
    destruct (min_cases (Math.max x lo) hi) as [[H2 E2]|[H2 E2]];
    rewrite E2; rewrite E1 in H2.
  - assert (B : ltb x lo = true) by (apply ltb_spec; assumption).
    rewrite B. assumption.
  - assert (B : ltb x lo = true) by (apply ltb_spec; assumption).
    rewrite B. lra.
  - assert (B : ltb x lo = false) by (apply ltb_false; assumption).
    assert (B' : ltb hi x = false) by (apply ltb_false; lra).
    rewrite B, B'. assumption.
  - assert (B : ltb x lo = false) by (apply ltb_false; assumption).
    rewrite B. destruct (ltb hi x) eqn:B'; [reflexivity|].
    apply ltb_false in B'. lra.
Qed.

Lemma min_max_empty (lo hi x : Q) :
  hi < lo -> Math.min (Math.max x lo) hi == hi.
Proof.
  intro Hlt.
  destruct (max_cases x lo) as [[H1 E1]|[H1 E1]];
    destruct (min_cases (Math.max x lo) hi) as [[H2 E2]|[H2 E2]];
    rewrite E2; rewrite E1 in H2; try reflexivity; lra.
Qed.

Lemma clamp_range (lo hi x : Q) :
  lo <= hi -> lo <= clamp lo hi x /\ clamp lo hi x <= hi.
Proof.
  intro Hle. unfold clamp.
  destruct (ltb x lo) eqn:B; [lra|].
  destruct (ltb hi x) eqn:B'; [lra|].
  apply ltb_false in B. apply ltb_false in B'. lra.
Qed.

Lemma literal_le (a b : Q) : a <= b -> number a <= number b.
Proof. apply rnd_mono. Qed.

(** For a clip with [offset >= 0] and [duration >= 0.1] the interval of
    the trim is not empty. *)
Lemma trim_interval (o d : Q) :
  0 <= o -> number 0.1 <= d -> - o <= d [-] number 0.1.
Proof.
  intros Ho Hd.
  assert (0 <= d [-] number 0.1) by (apply rnd_nonneg; lra).
  lra.
Qed.

(** C3, as the code has it.  Trimming the leading edge of the [n]-th clip
    (its identifier not empty and unique) by the pointer travel
    [deltaTime x0 x1]: the snapped start minus the original start is
    limited by [min(max(candidate, -offset), duration - 0.1)], which is
    the clamp to [[-offset, duration - 0.1]] when that interval is not
    empty, as it is for a clip with [offset >= 0] and [duration >= 0.1],
    and its upper end otherwise.  The result [finalDelta] is added to
    start and offset and taken from the duration, each with one rounding:
    the trailing edge [start + duration] stays where it was up to these
    roundings, a relative error of at most [2^-53] each; nothing else
    changes. *)
Theorem C3_trim_start (n : nat) (x0 x1 : Q) (ui : UI) (clip : Clip) :
  NoDup (map id (clips (app ui))) ->
  nth_error (clips (app ui)) n = Some clip ->
  id clip <> ""%string ->
  let candidate :=
    inject_Z (Math.round ((start clip [+] deltaTime x0 x1)
                          [/] Timeline.SNAP_GRID))
    [*] Timeline.SNAP_GRID [-] start clip in
  let lo := - offset clip in
  let hi := duration clip [-] number 0.1 in
  let cs' := clips (app (drag trim_start n x0 x1 ui)) in
  exists (clip' : Clip) (finalDelta : Q),
    nth_error cs' n = Some clip' /\
    finalDelta = Math.min (Math.max candidate lo) hi /\
    (lo <= hi ->
     finalDelta == clamp lo hi candidate /\ lo <= finalDelta <= hi) /\
    (hi < lo -> finalDelta == hi) /\
    (0 <= offset clip -> number 0.1 <= duration clip -> lo <= hi) /\
    start clip' = start clip [+] finalDelta /\
    duration clip' = duration clip [-] finalDelta /\
    offset clip' = offset clip [+] finalDelta /\
    Qabs (start clip' + duration clip' - (start clip + duration clip))
    <= Number.u * (Qabs (start clip + finalDelta)
                   + Qabs (duration clip - finalDelta)) /\
    id clip' = id clip /\ same_media clip clip' /\
    others_unchanged n (clips (app ui)) cs'.
Proof.
  intros Hnd Hn Hid candidate lo hi cs'.
  set (ds := Timeline.handleMouseDown x0 clip (Some trim_start)).
  exists (spread clip (gesture_updates trim_start clip x0 x1)),
         (Timeline.trim_start_finalDelta ds (deltaTime x0 x1)).
  assert (Hfd : Timeline.trim_start_finalDelta ds (deltaTime x0 x1)
                = Math.min (Math.max candidate lo) hi) by reflexivity.
  split; [apply drag_pressed; assumption|].
  split; [exact Hfd|].
  split.
  { intro Hne. rewrite Hfd, (min_max_clamp _ _ _ Hne).
    split; [reflexivity|apply clamp_range; assumption]. }
  split; [intro He; rewrite Hfd; apply min_max_empty; assumption|].
  split; [apply trim_interval|].
  split; [reflexivity|]. split; [reflexivity|]. split; [reflexivity|].
  split.
  { assert (Es : start (spread clip (gesture_updates trim_start clip x0 x1))
                 = start clip
                   [+] Timeline.trim_start_finalDelta ds (deltaTime x0 x1))
      by reflexivity.
    assert (Ed : duration (spread clip (gesture_updates trim_start clip x0 x1))
                 = duration clip
                   [-] Timeline.trim_start_finalDelta ds (deltaTime x0 x1))
      by reflexivity.
    rewrite Es, Ed.
    set (fd := Timeline.trim_start_finalDelta ds (deltaTime x0 x1)).
    pose proof (rnd_error (start clip + fd)) as H1.
    pose proof (rnd_error (duration clip - fd)) as H2.
    unfold Number.add, Number.sub.
    assert (E : Number.rnd (start clip + fd) + Number.rnd (duration clip - fd)
                - (start clip + duration clip)
                == (Number.rnd (start clip + fd) - (start clip + fd))
                   + (Number.rnd (duration clip - fd) - (duration clip - fd)))
      by ring.
    rewrite E.
    eapply Qle_trans; [apply Qabs_triangle|].
    set (a := Qabs (start clip + fd)) in *.
    set (b := Qabs (duration clip - fd)) in *.
    lra. }
  split; [reflexivity|].
  split.
  { unfold same_media.
    cbn [spread trackId source file type Types.totalDuration name thumbnail
         width height].
    repeat split. }
  apply drag_others with (clip := clip); assumption.
Qed.

(** The over-drag scenario: [{start: 2, duration: 4, offset: 1}] dragged by
    [-5] seconds ends as [{start: 1, duration: 5, offset: 0}]. *)
Lemma C3_trim_start_witness :
  deltaTime 500 0 == -5 /\
  exists clip' : Clip,
    nth_error (clips (app (drag trim_start 0 500 0 trim_ui))) 0 = Some clip' /\
    start clip' == 1 /\ duration clip' == 5 /\ offset clip' == 0.
Proof.
  split; [vm_compute; reflexivity|].
  assert (Hnd : NoDup (map id (clips (app trim_ui)))).
  { simpl. constructor; [intros []|constructor]. }
  assert (Hn : nth_error (clips (app trim_ui)) 0 = Some trim_clip)
    by reflexivity.
  assert (Hid : id trim_clip <> ""%string) by discriminate.
  destruct (C3_trim_start 0 500 0 trim_ui trim_clip Hnd Hn Hid)
    as (clip' & fd & Hc & Hfd & _ & _ & _ & Hs & Hd & Ho & _).
  exists clip'. split; [exact Hc|].
  rewrite Hs, Hd, Ho, Hfd. repeat split; vm_compute; reflexivity.
Defined.

(** C3 as stated fails in two places.  The trailing edge moves: trimming
    the clip [{start: 0.5, duration: 7.3}] by 6 pixels gives start 0.56 and
    duration 7.24, whose sum, exact or as the program computes it, is not
    the sum of 0.5 and 7.3.  And the interval may be empty: the imported
    sound of 50 ms has [duration - 0.1 < -offset], a press on its leading
    edge followed by a move without travel takes the upper end [-0.05] as
    the delta, which leaves the offset below zero. *)
Lemma C3_counterexample :
  (NoDup (map id (clips (app shifted_ui))) /\
   nth_error (clips (app shifted_ui)) 0 = Some shifted_clip /\
   id shifted_clip <> ""%string /\
   exists clip' : Clip,
     nth_error (clips (app (drag trim_start 0 0 6 shifted_ui))) 0
       = Some clip' /\
     start clip' == number 0.56 /\ duration clip' == number 7.24 /\
     ~ start clip' + duration clip'
       == start shifted_clip + duration shifted_clip /\
     ~ start clip' [+] duration clip'
       == start shifted_clip [+] duration shifted_clip) /\
  (exists clip clip' : Clip,
     NoDup (map id (clips (app short_ui))) /\
     nth_error (clips (app short_ui)) 0 = Some clip /\
     id clip <> ""%string /\
     duration clip [-] number 0.1 < - offset clip /\
     nth_error (clips (app (drag trim_start 0 0 0 short_ui))) 0
       = Some clip' /\
     offset clip' == - number 0.05 /\ offset clip' < - offset clip).
Proof.
  split.
  - split. { simpl. constructor; [intros []|constructor]. }
    split; [reflexivity|].
    split; [discriminate|].
    eexists. split; [vm_compute; reflexivity|].
    split; [vm_compute; reflexivity|].
    split; [vm_compute; reflexivity|].
    split; intro H; vm_compute in H; discriminate.
  - eexists. eexists.
    split. { vm_compute. constructor; [intros []|constructor]. }
    split; [vm_compute; reflexivity|].
    split; [discriminate|].
    split; [vm_compute; reflexivity|].
    split; [vm_compute; reflexivity|].
    split; vm_compute; reflexivity.
Qed.

(** ** TrimEnd *)

(** C4, as the code has it.  Trimming the trailing edge of the [n]-th clip
    (its identifier not empty and unique) by the pointer travel
    [deltaTime x0 x1]: with [newDuration = max(0.1, snap(duration + delta))],
    the duration becomes [newDuration] when the sum [offset + newDuration]
    the program computes fits the source, and then the clip ends inside
    its source by that sum; otherwise it becomes [totalDuration - offset]
    with one rounding, and the clip ends at the end of its source up to
    that rounding, a relative error of at most [2^-53]. *)
Theorem C4_trim_end (n : nat) (x0 x1 : Q) (ui : UI) (clip : Clip) :
  NoDup (map id (clips (app ui))) ->
  nth_error (clips (app ui)) n = Some clip ->
  id clip <> ""%string ->
  let newDuration :=
    Math.max (number 0.1)
      (inject_Z (Math.round ((duration clip [+] deltaTime x0 x1)
                             [/] Timeline.SNAP_GRID))
       [*] Timeline.SNAP_GRID) in
  let cs' := clips (app (drag trim_end n x0 x1 ui)) in
  exists clip' : Clip,
    nth_error cs' n = Some clip' /\
    (offset clip [+] newDuration <= Types.totalDuration clip ->
     duration clip' = newDuration /\
     number 0.1 <= duration clip' /\
     offset clip' [+] duration clip' <= Types.totalDuration clip') /\
    (~ offset clip [+] newDuration <= Types.totalDuration clip ->
     duration clip' = Types.totalDuration clip [-] offset clip /\
     Qabs (offset clip' + duration clip' - Types.totalDuration clip')
     <= Number.u * Qabs (Types.totalDuration clip - offset clip)) /\
    same_but_duration clip clip' /\
    others_unchanged n (clips (app ui)) cs'.
Proof.
  intros Hnd Hn Hid newDuration cs'.
  exists (spread clip (gesture_updates trim_end clip x0 x1)).
  split; [apply drag_pressed; assumption|].
  assert (Hshape :
    gesture_updates trim_end clip x0 x1 =
    if leb (offset clip [+] newDuration) (Types.totalDuration clip)
    then {| upd_start := None; upd_duration := Some newDuration;
            upd_offset := None |}
    else {| upd_start := None;
            upd_duration := Some (Types.totalDuration clip [-] offset clip);
            upd_offset := None |}) by reflexivity.
  rewrite Hshape.
  destruct (leb (offset clip [+] newDuration) (Types.totalDuration clip)) eqn:B.
  - apply leb_spec in B.
    split.
    { intros _. split; [reflexivity|].
      split; [apply Q.le_max_l|exact B]. }
    split; [intro H; contradiction|].
    split.
    { unfold same_but_duration, same_media.
      cbn [spread id start offset trackId source file type
           Types.totalDuration name thumbnail width height
           upd_start upd_offset or_else].
      repeat split. }
    apply drag_others with (clip := clip); assumption.
  - apply leb_false in B.
    split; [intro H; lra|].
    split.
    { intros _. split; [reflexivity|].
      cbn [spread offset duration Types.totalDuration upd_offset
           upd_duration or_else].
      apply sub_error. }
    split.
    { unfold same_but_duration, same_media.
      cbn [spread id start offset trackId source file type
           Types.totalDuration name thumbnail width height
           upd_start upd_offset or_else].
      repeat split. }
    apply drag_others with (clip := clip); assumption.
Qed.

Lemma C4_trim_end_witness :
  exists clip' : Clip,
    nth_error (clips (app (drag trim_end 0 0 10000 trim_ui))) 0 = Some clip' /\
    duration clip' == 9 /\
    offset clip' + duration clip' <= Types.totalDuration clip'.
Proof.
  assert (Hnd : NoDup (map id (clips (app trim_ui)))).
  { simpl. constructor; [intros []|constructor]. }
  assert (Hn : nth_error (clips (app trim_ui)) 0 = Some trim_clip)
    by reflexivity.
  assert (Hid : id trim_clip <> ""%string) by discriminate.
  destruct (C4_trim_end 0 0 10000 trim_ui trim_clip Hnd Hn Hid)
    as (clip' & Hc & _ & Hover & (_ & _ & Ho & _ & _ & _ & _ & Ht & _) & _).
  exists clip'. split; [exact Hc|].
  destruct Hover as [Hd _].
  - intro H. vm_compute in H. apply H. reflexivity.
  - rewrite Hd, Ho, Ht. split; vm_compute; [reflexivity|discriminate].
Defined.

(** C4 as stated fails on five seconds of a source of 7.3 seconds taken
    0.48 seconds into it: trimming the trailing edge far to the right sets
    the duration to [7.3 - 0.48], which the program computes as 6.82, and
    0.48 plus 6.82, exact or as the program computes it, exceeds 7.3. *)
Lemma C4_counterexample :
  NoDup (map id (clips (app inner_ui))) /\
  nth_error (clips (app inner_ui)) 0 = Some inner_clip /\
  id inner_clip <> ""%string /\
  offset inner_clip + duration inner_clip <= Types.totalDuration inner_clip /\
  exists clip' : Clip,
    nth_error (clips (app (drag trim_end 0 0 10000 inner_ui))) 0
      = Some clip' /\
    duration clip' == number 6.82 /\
    ~ offset clip' + duration clip' <= Types.totalDuration clip' /\
    ~ offset clip' [+] duration clip' <= Types.totalDuration clip'.
Proof.
  split. { simpl. constructor; [intros []|constructor]. }
  split; [reflexivity|].
  split; [discriminate|].
  split; [vm_compute; discriminate|].
  eexists. split; [vm_compute; reflexivity|].
  split; [vm_compute; reflexivity|].
  split; intro H; vm_compute in H; apply H; reflexivity.
Qed.

(** ** Timeline duration *)







(** ** Transport *)

(** The effects run after a handler change nothing but the stored total
    duration, the frame clock, the recorder and the outputs. *)
Ltac commit_field :=
  intros; unfold commit, exportWatch, recorder_stop, playbackEffect,
                 adjustTotalDuration;
  repeat match goal with
         | |- context [if ?b then _ else _] => destruct b
         | |- context [match ?o with Some _ => _ | None => _ end] => destruct o
         | |- context [match rec_state ?r with _ => _ end] => destruct (rec_state r)
         end;
  reflexivity.

Lemma isPlaying_commit (before s : State) :
  isPlaying (commit before s) = isPlaying s.
Proof. commit_field. Qed.

Lemma isExporting_commit (before s : State) :
  isExporting (commit before s) = isExporting s.
Proof. commit_field. Qed.

Lemma currentTime_commit (before s : State) :
  currentTime (commit before s) = currentTime s.
Proof. commit_field. Qed.

Lemma clipboard_commit (before s : State) :
  clipboardRef (commit before s) = clipboardRef s.
Proof. commit_field. Qed.

Lemma chunks_commit (before s : State) :
  recordedChunksRef (commit before s) = recordedChunksRef s.
Proof. commit_field. Qed.

Lemma exportTimeout_commit (before s : State) :
  exportTimeout (commit before s) = exportTimeout s.
Proof. commit_field. Qed.

Lemma advance_end (deltaTime : Q) (s : State) :
  totalDuration s <= currentTime s [+] deltaTime ->
  advance deltaTime s =
  if isExporting s
  then setCurrentTime (totalDuration s) (setIsPlaying false s)
  else setCurrentTime 0 (setIsPlaying false s).
Proof.
  intro H. unfold advance. apply geb_spec in H. rewrite H. reflexivity.
Qed.

Lemma advance_before_end (deltaTime : Q) (s : State) :
  currentTime s [+] deltaTime < totalDuration s ->
  advance deltaTime s = setCurrentTime (currentTime s [+] deltaTime) s.
Proof.
  intro H. unfold advance. apply geb_false in H. rewrite H. reflexivity.
Qed.

(** C5.  A frame at [time] while playing, the previous frame having been at
    [previous]: when the advanced position, as the program computes it,
    reaches or passes the timeline duration, playback stops, and the
    position is 0 outside an export and exactly the timeline duration
    during one. *)
Theorem C5_playback_end (ui : UI) (time previous : Q) :
  isPlaying (app ui) = true ->
  previousTimeRef (app ui) = Some previous ->
  totalDuration (app ui) <= currentTime (app ui) [+] (time [-] previous) [/] 1000 ->
  let s' := app (step ui (Frame time)) in
  isPlaying s' = false /\
  (isExporting (app ui) = false -> currentTime s' = 0) /\
  (isExporting (app ui) = true ->
   currentTime s' = totalDuration (app ui) /\ isExporting s' = true).
Proof.
  intros Hplay Hprev Hend s'. subst s'. unfold step. simpl app.
  rewrite isPlaying_commit, currentTime_commit, isExporting_commit.
  simpl. rewrite Hplay. unfold animate. rewrite Hprev.
  rewrite (advance_end _ _ Hend).
  destruct (isExporting (app ui)) eqn:E; simpl.
  - split; [reflexivity|]. split; [discriminate|]. intros _.
    split; [reflexivity|exact E].
  - split; [reflexivity|]. split; [reflexivity|]. discriminate.
Qed.

(** Before the end a frame only advances the position. *)
Lemma playback_continues (ui : UI) (time previous : Q) :
  isPlaying (app ui) = true ->
  previousTimeRef (app ui) = Some previous ->
  currentTime (app ui) [+] (time [-] previous) [/] 1000 < totalDuration (app ui) ->
  let s' := app (step ui (Frame time)) in
  isPlaying s' = true /\
  currentTime s' = currentTime (app ui) [+] (time [-] previous) [/] 1000.
Proof.
  intros Hplay Hprev Hlt s'. subst s'. unfold step. simpl app.
  rewrite isPlaying_commit, currentTime_commit.
  simpl. rewrite Hplay. unfold animate. rewrite Hprev.
  rewrite (advance_before_end _ _ Hlt). simpl. split; [assumption|reflexivity].
Qed.

Lemma C5_playback_end_witness :
  (isPlaying (app (step (playing_ui false) (Frame 16))) = false /\
   currentTime (app (step (playing_ui false) (Frame 16))) = 0) /\
  (isPlaying (app (step (playing_ui true) (Frame 16))) = false /\
   currentTime (app (step (playing_ui true) (Frame 16))) = 5).
Proof.
  assert (Hend : forall b,
    totalDuration (app (playing_ui b))
    <= currentTime (app (playing_ui b)) [+] (16 [-] 0) [/] 1000).
  { intro b. vm_compute. discriminate. }
  split.
  - destruct (C5_playback_end (playing_ui false) 16 0 eq_refl eq_refl
                (Hend false)) as (Hp & Hrest & _).
    split; [exact Hp|]. apply Hrest. reflexivity.
  - destruct (C5_playback_end (playing_ui true) 16 0 eq_refl eq_refl
                (Hend true)) as (Hp & _ & Hheld).
    split; [exact Hp|]. apply Hheld. reflexivity.
Defined.

(** ** The invariants under the edit operations *)

Lemma drag_missing (m : DragMode) (n : nat) (x0 x1 : Q) (ui : UI) :
  isDragging (dragState ui) = false ->
  nth_error (clips (app ui)) n = None ->
  clips (app (drag m n x0 x1 ui)) = clips (app ui).
Proof.
  intros Hidle Hn. unfold drag, run. simpl fold_left.
  unfold step at 2. simpl handle. rewrite Hn.
  unfold step. simpl handle. unfold Timeline.handleMouseMove. simpl.
  rewrite Hidle. simpl. rewrite !clips_commit. reflexivity.
Qed.

Lemma in_drag (m : DragMode) (n : nat) (x0 x1 : Q) (ui : UI) (c : Clip) :
  NoDup (map id (clips (app ui))) ->
  isDragging (dragState ui) = false ->
  In c (clips (app (drag m n x0 x1 ui))) ->
  In c (clips (app ui)) \/
  exists clip, nth_error (clips (app ui)) n = Some clip /\
               c = spread clip (gesture_updates m clip x0 x1).
Proof.
  intros Hnd Hidle Hin.
  destruct (nth_error (clips (app ui)) n) as [clip|] eqn:Hn.
  - destruct (string_dec (id clip) "") as [Hid|Hid].
    { left. rewrite (drag_unnamed m n x0 x1 ui clip Hn Hid) in Hin.
      assumption. }
    rewrite (drag_clips m n x0 x1 ui clip Hnd Hn Hid) in Hin.
    apply in_map_iff in Hin. destruct Hin as (d & Hd & Hind).
    destruct (String.eqb (id d) (id clip)) eqn:E.
    + right. exists clip. split; [reflexivity|].
      apply String.eqb_eq in E.
      assert (d = clip).
      { pose proof (find_clip_unique _ _ Hnd Hind) as F1.
        pose proof (find_clip_unique _ _ Hnd (nth_error_In _ _ Hn)) as F2.
        rewrite E in F1. congruence. }
      subst d. symmetry. assumption.
    + left. subst c. assumption.
  - left. rewrite (drag_missing m n x0 x1 ui Hidle Hn) in Hin. assumption.
Qed.

Lemma tenth_pos : 0 < number 0.1.
Proof. reflexivity. Qed.

Lemma twentieth_pos : 0 < number 0.05 /\ number 0.05 < number 0.1.
Proof. split; reflexivity. Qed.

Lemma move_keeps (clip : Clip) (x0 x1 : Q) :
  clip_invariant clip ->
  clip_invariant (spread clip (gesture_updates move clip x0 x1)).
Proof.
  intros [Hd Ho Hs Hst]. constructor; simpl; try assumption.
  apply snap_nonneg. apply Q.le_max_l.
Qed.

Lemma trim_start_range (clip : Clip) (x0 x1 : Q) :
  clip_invariant clip ->
  let fd := Timeline.trim_start_finalDelta
              (Timeline.handleMouseDown x0 clip (Some trim_start))
              (deltaTime x0 x1) in
  - offset clip <= fd /\ fd <= duration clip [-] number 0.1.
Proof.
  intros [Hd Ho Hs Hst] fd. subst fd.
  unfold Timeline.trim_start_finalDelta.
  cbn [originalDuration originalOffset Timeline.handleMouseDown].
  pose proof (trim_interval _ _ Ho Hd) as Hne.
  rewrite (min_max_clamp _ _ _ Hne). apply clamp_range. assumption.
Qed.

(** Trimming the leading edge of a clip that satisfies the invariants:
    the offset stays non-negative, the duration stays above [0.1] and the
    clip inside its source up to the rounding errors. *)
Lemma trim_start_keeps (clip : Clip) (x0 x1 : Q) :
  clip_invariant clip ->
  let c := spread clip (gesture_updates trim_start clip x0 x1) in
  0 <= offset c /\
  number 0.1 - slack c <= duration c /\
  offset c + duration c <= Types.totalDuration c + slack c /\
  (offset clip <= start clip -> 0 <= start c).
Proof.
  intros Hinv c.
  destruct (trim_start_range clip x0 x1 Hinv) as [Hlo Hhi].
  destruct Hinv as [Hd Ho Hs Hst].
  assert (Ec : c = spread clip
                 (Timeline.trim_start_updates
                    (Timeline.handleMouseDown x0 clip (Some trim_start))
                    (deltaTime x0 x1))) by reflexivity.
  rewrite Ec. clear Ec c. unfold slack, Timeline.trim_start_updates.
  cbn [spread offset duration start Types.totalDuration upd_start
       upd_duration upd_offset or_else originalStart originalDuration
       originalOffset Timeline.handleMouseDown].
  set (fd := Timeline.trim_start_finalDelta _ _) in *.
  pose proof tenth_pos as Hc.
  set (tenth := number 0.1) in *.
  set (o := offset clip) in *. set (d := duration clip) in *.
  set (s := start clip) in *. set (T := Types.totalDuration clip) in *.
  assert (Hdc : 0 <= d - tenth) by lra.
  destruct (rnd_near_pos _ Hdc) as [_ Hhi'].
  fold (d [-] tenth) in Hhi'.
  assert (Hof : 0 <= o + fd) by lra.
  destruct (rnd_near_pos _ Hof) as [_ Oup].
  pose proof (rnd_nonneg _ Hof) as Opos.
  fold (o [+] fd) in Oup, Opos.
  split; [exact Opos|].
  assert (Hdur : tenth - 4 * Number.u * T <= d [-] fd /\
                 (o [+] fd) + (d [-] fd) <= T + 4 * Number.u * T).
  { unfold Number.sub.
    destruct (Qlt_le_dec (d - fd) 0) as [Hneg|Hpos].
    - destruct (rnd_near_neg (d - fd)) as [Dlo Dup]; [lra|].
      set (D := Number.rnd (d - fd)) in *.
      set (O := o [+] fd) in *. set (hi := d [-] tenth) in *.
      unfold Number.u in *. split; lra.
    - destruct (rnd_near_pos (d - fd) Hpos) as [Dlo Dup].
      set (D := Number.rnd (d - fd)) in *.
      set (O := o [+] fd) in *. set (hi := d [-] tenth) in *.
      unfold Number.u in *. split; lra. }
  split; [apply Hdur|]. split; [apply Hdur|].
  intro Hle. unfold Number.add. apply rnd_nonneg. lra.
Qed.

(** Trimming the trailing edge of a clip that satisfies the invariants. *)
Lemma trim_end_keeps (clip : Clip) (x0 x1 : Q) :
  clip_invariant clip ->
  let c := spread clip (gesture_updates trim_end clip x0 x1) in
  0 <= offset c /\ number 0.1 <= duration c /\
  offset c + duration c <= Types.totalDuration c + slack c /\
  0 <= start c.
Proof.
  intros [Hd Ho Hs Hst] c. subst c.
  unfold gesture_updates, Timeline.trim_end_updates, slack.
  rewrite deltaSeconds_pressed.
  cbn [originalOffset Timeline.handleMouseDown].
  set (nd := Timeline.trim_end_newDuration _ _).
  assert (Hnd : number 0.1 <= nd) by (apply Q.le_max_l).
  pose proof tenth_pos as Hc.
  destruct (leb (offset clip [+] nd) (Types.totalDuration clip)) eqn:B;
    cbn [spread offset duration start Types.totalDuration upd_start
         upd_duration upd_offset or_else].
  - apply leb_spec in B.
    split; [assumption|]. split; [assumption|]. split; [|assumption].
    assert (Hsum : 0 <= offset clip + nd) by lra.
    destruct (rnd_near_pos _ Hsum) as [Slo _].
    fold (offset clip [+] nd) in Slo.
    set (S := offset clip [+] nd) in *.
    set (T := Types.totalDuration clip) in *.
    unfold Number.u in *. lra.
  - split; [assumption|].
    assert (Hrest : number 0.1 <= Types.totalDuration clip - offset clip)
      by lra.
    split.
    { unfold Number.sub.
      apply number_le_rnd; [apply literal_is_number|assumption]. }
    split; [|assumption].
    assert (Hpos : 0 <= Types.totalDuration clip - offset clip) by lra.
    destruct (rnd_near_pos _ Hpos) as [_ Dup].
    fold (Types.totalDuration clip [-] offset clip) in Dup.
    set (D := Types.totalDuration clip [-] offset clip) in *.
    set (T := Types.totalDuration clip) in *.
    unfold Number.u in *. lra.
Qed.

Lemma in_insert_by_end (a c : Clip) (l : list Clip) :
  In c (insert_by_end a l) -> c = a \/ In c l.
Proof.
  induction l as [|b l IH]; simpl.
  - intros [<-|[]]. left. reflexivity.
  - destruct (leb (clip_end a) (clip_end b)).
    + intros [<-|H]; [left; reflexivity|right; assumption].
    + intros [<-|H]; [right; left; reflexivity|].
      destruct (IH H) as [->|Hin]; [left; reflexivity|right; right; assumption].
Qed.

Lemma in_sort_by_end (c : Clip) (l : list Clip) :
  In c (sort_by_end l) -> In c l.
Proof.
  induction l as [|a l IH]; simpl; [tauto|].
  intro H. apply in_insert_by_end in H.
  destruct H as [->|H]; [left; reflexivity|right; apply IH; assumption].
Qed.

Lemma in_pop (c : Clip) (l : list Clip) : pop l = Some c -> In c l.
Proof.
  unfold pop. intro H. apply in_rev.
  destruct (rev l) as [|d r]; [discriminate|].
  injection H as ->. left. reflexivity.
Qed.

Lemma clip_end_nonneg (c : Clip) :
  0 <= start c -> 0 <= duration c -> 0 <= clip_end c.
Proof.
  intros Hs Hd. unfold clip_end, Number.add. apply rnd_nonneg. lra.
Qed.

Lemma addClip_new (gid url : string) (f : File) (tid : string)
    (ty : MediaType) (meta : Metadata) (prev : list Clip) :
  (forall c, In c prev -> clip_invariant c) ->
  exists new,
    addClip gid url f tid ty meta prev = prev ++ [new] /\
    offset new = 0 /\
    duration new = Math.min (meta_duration meta) 10 /\
    Types.totalDuration new = meta_duration meta /\
    0 <= start new.
Proof.
  intro Hinv. unfold addClip. eexists. split; [reflexivity|].
  cbn [offset duration Types.totalDuration start].
  repeat split; try reflexivity.
  destruct (pop (sort_by_end (filter (fun c => String.eqb (trackId c) tid) prev)))
    as [l|] eqn:E; [|lra].
  apply in_pop, in_sort_by_end, filter_In in E. destruct E as [Hin _].
  destruct (Hinv l Hin) as [Hd _ _ Hst].
  pose proof tenth_pos.
  unfold Number.add at 1. apply rnd_nonneg.
  assert (0 <= start l [+] duration l)
    by (unfold Number.add; apply rnd_nonneg; lra).
  assert (0 <= number 0.5) by (vm_compute; discriminate).
  lra.
Qed.

Lemma in_split (gid1 gid2 : string) (s : State) (c : Clip) :
  In c (clips (handleSplitClip gid1 gid2 s)) ->
  In c (clips s) \/
  exists clip, selectedClip s = Some clip /\ In clip (clips s) /\
               within_guard clip (currentTime s) /\
               (c = splitLeft gid1 clip (currentTime s) \/
                c = splitRight gid2 clip (currentTime s)).
Proof.
  unfold handleSplitClip, selectedClip.
  destruct (truthy (selectedClipId s)) as [sel|]; [|tauto].
  destruct (find_clip sel (clips s)) as [clip|] eqn:F; [|tauto].
  destruct (leb (currentTime s) (start clip [+] number 0.05)) eqn:B1; [tauto|].
  destruct (geb (currentTime s)
                (start clip [+] duration clip [-] number 0.05)) eqn:B2;
    [tauto|].
  simpl. intro Hin. apply in_app_or in Hin. destruct Hin as [Hin|Hin].
  - left. apply filter_In in Hin. tauto.
  - right. exists clip. apply find_clip_some in F.
    apply leb_false in B1. apply geb_false in B2.
    split; [reflexivity|]. split; [tauto|]. split; [split; assumption|].
    destruct Hin as [<-|[<-|[]]]; [left|right]; reflexivity.
Qed.

(** The split point, seen from the clip: it lies after the start and
    before the end of the clip, and the time between the start and the
    split point, as the program computes it, is positive and at most the
    duration. *)
Lemma split_point (clip : Clip) (at_ : Q) :
  0 <= start clip -> 0 <= duration clip ->
  Number.is_number (start clip) -> Number.is_number (duration clip) ->
  Number.is_number at_ ->
  within_guard clip at_ ->
  start clip < at_ /\ at_ < start clip + duration clip /\
  0 < at_ [-] start clip /\ at_ [-] start clip <= duration clip.
Proof.
  intros Hst Hd Ns Nd Na [Hlo Hhi].
  destruct twentieth_pos as [H5 _].
  assert (H1 : start clip <= start clip [+] number 0.05).
  { unfold Number.add. apply number_le_rnd; [assumption|lra]. }
  assert (H2 : start clip [+] duration clip [-] number 0.05
               <= start clip [+] duration clip).
  { unfold Number.sub.
    apply rnd_le_number; [apply is_number_rnd|lra]. }
  assert (H3 : at_ < start clip + duration clip).
  { apply number_lt_rnd; [assumption|].
    fold (start clip [+] duration clip). lra. }
  split; [lra|]. split; [assumption|]. split.
  - unfold Number.sub. apply rnd_positive. lra.
  - unfold Number.sub. apply rnd_le_number; [assumption|lra].
Qed.

(** The guard band of a split, up to the rounding errors: each part lasts
    0.05 seconds less [2^-50] of the end of the clip. *)
Lemma split_band (clip : Clip) (at_ : Q) :
  0 <= start clip -> 0 <= duration clip ->
  Number.is_number (start clip) -> Number.is_number (duration clip) ->
  Number.is_number at_ ->
  within_guard clip at_ ->
  number 0.05 - 8 * Number.u * clip_end clip <= at_ [-] start clip /\
  number 0.05 - 8 * Number.u * clip_end clip
  <= duration clip [-] (at_ [-] start clip).
Proof.
  intros Hst Hd Ns Nd Na Hg.
  destruct (split_point clip at_ Hst Hd Ns Nd Na Hg) as (P1 & P2 & P3 & P4).
  destruct Hg as [Hlo Hhi].
  destruct twentieth_pos as [H5 _].
  unfold clip_end.
  assert (Hsd : 0 <= start clip + duration clip) by lra.
  destruct (rnd_near_pos _ Hsd) as [Elo Eup].
  fold (start clip [+] duration clip) in Elo, Eup.
  assert (Hs5 : 0 <= start clip + number 0.05) by lra.
  destruct (rnd_near_pos _ Hs5) as [Llo _].
  fold (start clip [+] number 0.05) in Llo.
  assert (HE : 0 <= start clip [+] duration clip - number 0.05).
  { apply Qnot_lt_le. intro Hc.
    assert (start clip [+] duration clip [-] number 0.05 <= 0)
      by (unfold Number.sub; apply rnd_nonpos; lra).
    lra. }
  destruct (rnd_near_pos _ HE) as [_ Gup].
  fold (start clip [+] duration clip [-] number 0.05) in Gup.
  assert (Hrel : 0 <= at_ - start clip) by lra.
  destruct (rnd_near_pos _ Hrel) as [Rlo Rup].
  fold (at_ [-] start clip) in Rlo, Rup.
  assert (Hrest : 0 <= duration clip - (at_ [-] start clip)) by lra.
  destruct (rnd_near_pos _ Hrest) as [Dlo _].
  fold (duration clip [-] (at_ [-] start clip)) in Dlo.
  set (E := start clip [+] duration clip) in *.
  set (L := start clip [+] number 0.05) in *.
  set (G := E [-] number 0.05) in *.
  set (rel := at_ [-] start clip) in *.
  set (D := duration clip [-] rel) in *.
  set (c5 := number 0.05) in *.
  set (s := start clip) in *. set (d := duration clip) in *.
  unfold Number.u in *. split; lra.
Qed.

Lemma split_keeps (gid1 gid2 : string) (clip : Clip) (at_ : Q) (c : Clip) :
  clip_invariant clip ->
  Number.is_number (start clip) -> Number.is_number (duration clip) ->
  Number.is_number at_ ->
  within_guard clip at_ ->
  c = splitLeft gid1 clip at_ \/ c = splitRight gid2 clip at_ ->
  0 <= offset c /\ 0 <= duration c /\
  number 0.05 - 8 * Number.u * clip_end clip <= duration c /\
  offset c + duration c <= Types.totalDuration c + slack c /\
  0 <= start c.
Proof.
  intros [Hd Ho Hs Hst] Ns Nd Na Hg Hc.
  pose proof tenth_pos as Hten.
  assert (Hd0 : 0 <= duration clip) by lra.
  destruct (split_point clip at_ Hst Hd0 Ns Nd Na Hg) as (P1 & P2 & P3 & P4).
  destruct (split_band clip at_ Hst Hd0 Ns Nd Na Hg) as [B1 B2].
  set (rel := at_ [-] start clip) in *.
  destruct Hc as [->| ->]; unfold slack;
    cbn [splitLeft splitRight offset duration start Types.totalDuration];
    fold rel.
  - split; [assumption|]. split; [lra|]. split; [exact B1|].
    split; [|assumption].
    set (T := Types.totalDuration clip) in *. unfold Number.u. lra.
  - assert (Hor : 0 <= offset clip + rel) by lra.
    destruct (rnd_near_pos _ Hor) as [_ Oup].
    pose proof (rnd_nonneg _ Hor) as Opos.
    fold (offset clip [+] rel) in Oup, Opos.
    assert (Hdr : 0 <= duration clip - rel) by lra.
    destruct (rnd_near_pos _ Hdr) as [_ Dup].
    pose proof (rnd_nonneg _ Hdr) as Dpos.
    fold (duration clip [-] rel) in Dup, Dpos.
    split; [assumption|]. split; [assumption|]. split; [exact B2|].
    split; [|lra].
    set (O := offset clip [+] rel) in *.
    set (D := duration clip [-] rel) in *.
    set (T := Types.totalDuration clip) in *.
    unfold Number.u in *. lra.
Qed.

Lemma in_delete (cid : string) (s : State) (c : Clip) :
  In c (clips (handleDeleteClip cid s)) -> In c (clips s).
Proof.
  unfold handleDeleteClip.
  destruct (option_string_eqb (selectedClipId s) cid); simpl;
    intro H; apply filter_In in H; tauto.
Qed.

Lemma in_paste (gid : string) (s : State) (c : Clip) :
  In c (clips (paste gid s)) ->
  In c (clips s) \/
  exists board, clipboardRef s = Some board /\
                c = pastedClip gid (pasteStart s) board.
Proof.
  unfold paste. destruct (clipboardRef s) as [board|]; [|tauto].
  simpl. intro H. apply in_app_or in H. destruct H as [H|[<-|[]]].
  - left. assumption.
  - right. exists board. split; reflexivity.
Qed.

Lemma pasteStart_nonneg (s : State) :
  (forall c, In c (clips s) -> clip_invariant c) ->
  0 <= currentTime s -> 0 <= pasteStart s.
Proof.
  intros Hinv Hpos. unfold pasteStart.
  destruct (selectedClipId s) as [sel|]; [|assumption].
  destruct (find_clip sel (clips s)) as [c|] eqn:F; [|assumption].
  apply find_clip_some in F. destruct (Hinv c (proj1 F)) as [Hd _ _ Hst].
  pose proof tenth_pos. apply clip_end_nonneg; lra.
Qed.

(** A clip that satisfies the invariants has what every operation
    guarantees. *)
Lemma invariant_guaranteed (op : EditOp) (ui : UI) (c : Clip) :
  (forall clip, selectedClip (app ui) = Some clip -> 0 <= clip_end clip) ->
  clip_invariant c -> guaranteed op ui c.
Proof.
  intros Hsel [Hd Ho Hs Hst]. unfold guaranteed, slack.
  pose proof tenth_pos as Hten. destruct twentieth_pos as [_ H5].
  set (T := Types.totalDuration c) in *.
  assert (HT : 0 <= 4 * Number.u * T) by (unfold Number.u; lra).
  split; [assumption|].
  destruct op.
  - split; [intros _; assumption|]. split; assumption.
  - split; [assumption|]. split; assumption.
  - split; [lra|]. split; [lra|]. intros. assumption.
  - split; [assumption|]. split; [lra|assumption].
  - split; [lra|]. split.
    + intros clip Hc. specialize (Hsel clip Hc).
      set (E := clip_end clip) in *. unfold Number.u. lra.
    + split; [lra|assumption].
  - split; [assumption|]. split; assumption.
  - split; [assumption|]. split; assumption.
  - split; [assumption|]. split; assumption.
Qed.

Lemma selected_end_nonneg (s : State) :
  (forall c, In c (clips s) -> clip_invariant c) ->
  forall clip, selectedClip s = Some clip -> 0 <= clip_end clip.
Proof.
  intros Hinv clip Hsel. unfold selectedClip in Hsel.
  destruct (truthy (selectedClipId s)) as [sel|]; [|discriminate].
  apply find_clip_some in Hsel.
  destruct (Hinv clip (proj1 Hsel)) as [Hd _ _ Hst].
  pose proof tenth_pos. apply clip_end_nonneg; lra.
Qed.

(** C1, as the code has it.  On a state whose clips satisfy the invariants
    (with unique identifiers, a clipboard clip within its source, a playhead
    that is not negative, positions that are numbers and no drag in
    progress), every clip left by an edit operation has [offset >= 0].
    After AddClip, Move, Delete and Paste it has
    [offset + duration <= sourceTotalDuration]; after TrimStart, TrimEnd
    and Split it has this up to the rounding of the operation, an error of
    at most [2^-51] of the length of the source.  [duration >= 0.1] holds
    after Move, TrimEnd, Delete and Paste and after AddClip when the media
    lasts at least 0.1 seconds; after TrimStart it holds up to the same
    rounding error; Split leaves [duration >= 0] and the guard band of 0.05
    seconds less [2^-50] of the end of the split clip.  [start >= 0] holds
    after every operation but TrimStart, where it holds when the trimmed
    clip had [offset <= start]. *)
Theorem C1_edit_invariants (op : EditOp) (ui : UI) (c : Clip) :
  editable ui ->
  In c (clips (app (edit op ui))) ->
  guaranteed op ui c.
Proof.
  intros [Hnd Hinv Hboard Hplay [Hclock Hnum] Hidle] Hin.
  pose proof (selected_end_nonneg (app ui) Hinv) as Hsel.
  destruct op as [gid url f tid ty meta|n x0 x1|n x0 x1|n x0 x1
                  |gid1 gid2|n| |gid]; simpl edit in Hin.
  - (* AddClip *)
    unfold step in Hin. simpl in Hin. rewrite clips_commit in Hin.
    simpl in Hin.
    destruct (addClip_new gid url f tid ty meta _ Hinv)
      as (new & E & Hoff & Hdur & Htot & Hst).
    rewrite E in Hin. apply in_app_or in Hin.
    destruct Hin as [Hin|[<-|[]]];
      [apply invariant_guaranteed; [assumption|apply Hinv; assumption]|].
    unfold guaranteed. rewrite Hoff, Hdur, Htot.
    destruct (min_cases (meta_duration meta) 10) as [[H1 H2]|[H1 H2]];
      repeat split; try assumption; try lra.
    intro H. pose proof (literal_le 0.1 10) as L. rewrite H2.
    assert (number 10 == 10) by (vm_compute; reflexivity).
    assert (0.1 <= 10) by (vm_compute; discriminate).
    specialize (L H3). lra.
  - (* Move *)
    apply in_drag in Hin; try assumption.
    destruct Hin as [Hin|(clip & Hn & ->)];
      (apply invariant_guaranteed; [assumption|]);
      [apply Hinv; assumption|].
    apply move_keeps, Hinv. eapply nth_error_In; eassumption.
  - (* TrimStart *)
    apply in_drag in Hin; try assumption.
    destruct Hin as [Hin|(clip & Hn & ->)];
      [apply invariant_guaranteed; [assumption|apply Hinv; assumption]|].
    destruct (trim_start_keeps clip x0 x1 (Hinv clip (nth_error_In _ _ Hn)))
      as (Ho & Hd & Hs & Hst).
    unfold guaranteed. split; [assumption|]. split; [assumption|].
    split; [assumption|]. intros clip' Hn' Hle.
    assert (clip' = clip) by congruence. subst clip'. apply Hst. assumption.
  - (* TrimEnd *)
    apply in_drag in Hin; try assumption.
    destruct Hin as [Hin|(clip & Hn & ->)];
      [apply invariant_guaranteed; [assumption|apply Hinv; assumption]|].
    destruct (trim_end_keeps clip x0 x1 (Hinv clip (nth_error_In _ _ Hn)))
      as (Ho & Hd & Hs & Hst).
    unfold guaranteed. repeat split; assumption.
  - (* Split *)
    unfold step in Hin. simpl in Hin. rewrite clips_commit in Hin.
    destruct (negb (is_some (truthy (selectedClipId (app ui))))
              || isExporting (app ui));
      [apply invariant_guaranteed; [assumption|apply Hinv; assumption]|].
    apply in_split in Hin.
    destruct Hin as [Hin|(clip & Hs & Hc & Hg & Hlr)];
      [apply invariant_guaranteed; [assumption|apply Hinv; assumption]|].
    destruct (Hnum clip Hc) as [Ns Nd].
    destruct (split_keeps gid1 gid2 clip _ c (Hinv clip Hc) Ns Nd Hclock Hg Hlr)
      as (Ho & Hd & Hb & Hsum & Hst).
    unfold guaranteed. split; [assumption|]. split; [assumption|].
    split; [|split; assumption].
    intros clip' Hs'. assert (clip' = clip) by congruence. subst clip'.
    assumption.
  - (* Delete *)
    unfold step in Hin. simpl in Hin. rewrite clips_commit in Hin.
    apply invariant_guaranteed; [assumption|]. apply Hinv.
    destruct (nth_error (clips (app ui)) n) as [clip|]; [|assumption].
    simpl in Hin. apply in_delete in Hin. assumption.
  - (* DeleteSelected *)
    unfold step in Hin. simpl in Hin. rewrite clips_commit in Hin.
    apply invariant_guaranteed; [assumption|]. apply Hinv.
    unfold deleteKey in Hin.
    destruct (truthy (selectedClipId (app ui))) as [sel|]; [|assumption].
    apply in_delete in Hin. assumption.
  - (* Paste *)
    unfold step in Hin. simpl in Hin. rewrite clips_commit in Hin.
    apply invariant_guaranteed; [assumption|].
    apply in_paste in Hin. destruct Hin as [Hin|(board & Hb & ->)];
      [apply Hinv; assumption|].
    destruct (Hboard board Hb) as (Hd & Ho & Hs).
    constructor; simpl; try assumption.
    apply pasteStart_nonneg; assumption.
Qed.

Ltac concrete_invariant :=
  constructor; vm_compute; discriminate.

Ltac concrete_numbers :=
  split;
  [ vm_compute; reflexivity
  | intros ? [<-|[]]; split; vm_compute; reflexivity ].

Ltac concrete_editable :=
  constructor;
  [ simpl; repeat constructor; simpl; intuition discriminate
  | intros ? [<-|[]]; concrete_invariant
  | simpl; discriminate
  | vm_compute; discriminate
  | concrete_numbers
  | reflexivity ].

Lemma late_ui_editable : editable late_ui.
Proof. concrete_editable. Qed.

Lemma edge_ui_editable : editable edge_ui.
Proof. concrete_editable. Qed.

Lemma scenario_ui_editable : editable scenario_ui.
Proof. concrete_editable. Qed.

Lemma inner_ui_editable : editable inner_ui.
Proof. concrete_editable. Qed.

Lemma initialUI_editable : editable initialUI.
Proof.
  constructor; simpl;
    [constructor|intros ? []|discriminate|vm_compute; discriminate
    |split; [reflexivity|intros ? []]|reflexivity].
Qed.

Lemma C1_edit_invariants_witness :
  editable late_ui /\
  exists c : Clip,
    In c (clips (app (edit (TrimEnd 0 0 10000) late_ui))) /\
    duration c == 4 /\
    guaranteed (TrimEnd 0 0 10000) late_ui c.
Proof.
  split; [exact late_ui_editable|].
  eexists. split; [vm_compute; left; reflexivity|].
  split; [vm_compute; reflexivity|].
  apply (C1_edit_invariants (TrimEnd 0 0 10000) late_ui).
  - exact late_ui_editable.
  - vm_compute. left. reflexivity.
Defined.

(** C1 as stated fails in five places, each on a state whose clips satisfy
    the invariants: trimming the leading edge of a clip at the origin that
    has media before its first frame moves its start below 0; a split 60 ms
    after the start of a clip leaves a part of 60 ms; importing a sound of
    50 ms adds a clip of 50 ms; trimming the leading edge of the five
    second clip far to the right leaves a duration of 0.09999999999999964
    seconds, because [5 - 0.1] is rounded up; and trimming the trailing
    edge of the clip taken 0.48 seconds into a source of 7.3 seconds far to
    the right leaves [offset + duration] above 7.3. *)
Lemma C1_counterexample :
  (editable late_ui /\
   exists c : Clip,
     In c (clips (app (edit (TrimStart 0 100 0) late_ui))) /\
     start c == -1 /\ ~ clip_invariant c) /\
  (editable edge_ui /\
   exists c : Clip,
     In c (clips (app (edit (Split "l" "r") edge_ui))) /\
     duration c == number 0.06 /\ ~ clip_invariant c) /\
  (editable initialUI /\
   exists c : Clip,
     In c (clips (app (edit (AddClip "n" "blob:3" short_file "track-2" audio
                                     short_meta) initialUI))) /\
     duration c == number 0.05 /\ ~ clip_invariant c) /\
  (editable scenario_ui /\
   exists c : Clip,
     In c (clips (app (edit (TrimStart 0 0 10000) scenario_ui))) /\
     duration c < 0.1 /\ ~ clip_invariant c) /\
  (editable inner_ui /\
   exists c : Clip,
     In c (clips (app (edit (TrimEnd 0 0 10000) inner_ui))) /\
     Types.totalDuration c < offset c + duration c /\ ~ clip_invariant c).
Proof.
  split; [|split; [|split; [|split]]].
  - split; [exact late_ui_editable|].
    eexists. split; [vm_compute; left; reflexivity|].
    split; [vm_compute; reflexivity|].
    intros [_ _ _ H]. vm_compute in H. apply H. reflexivity.
  - split; [exact edge_ui_editable|].
    eexists. split; [vm_compute; left; reflexivity|].
    split; [vm_compute; reflexivity|].
    intros [H _ _ _]. vm_compute in H. apply H. reflexivity.
  - split; [exact initialUI_editable|].
    eexists. split; [vm_compute; left; reflexivity|].
    split; [vm_compute; reflexivity|].
    intros [H _ _ _]. vm_compute in H. apply H. reflexivity.
  - split; [exact scenario_ui_editable|].
    eexists. split; [vm_compute; left; reflexivity|].
    split; [vm_compute; reflexivity|].
    intros [H _ _ _]. vm_compute in H. apply H. reflexivity.
  - split; [exact inner_ui_editable|].
    eexists. split; [vm_compute; left; reflexivity|].
    split; [vm_compute; reflexivity|].
    intros [_ _ H _]. vm_compute in H. apply H. reflexivity.
Qed.

(** ** The clipboard *)

Lemma deref_grow (h extra : Heap.Store) (r : Heap.Ref) :
  (r < List.length h)%nat -> Heap.deref (h ++ extra) r = Heap.deref h r.
Proof. intro H. unfold Heap.deref. apply nth_error_app1. assumption. Qed.

Lemma deref_valid (h : Heap.Store) (r : Heap.Ref) (c : Clip) :
  Heap.deref h r = Some c -> (r < List.length h)%nat.
Proof. intro H. apply nth_error_Some. unfold Heap.deref in H. congruence. Qed.

Lemma deref_alloc (h : Heap.Store) (c : Clip) :
  Heap.deref (fst (Heap.alloc h c)) (snd (Heap.alloc h c)) = Some c.
Proof.
  unfold Heap.alloc, Heap.deref. simpl.
  rewrite nth_error_app2; [|lia]. rewrite Nat.sub_diag. reflexivity.
Qed.

(** The update of a clip allocates; the store it returns extends the one it
    was given, and the references it returns point into it. *)
Lemma map_update_grows (cid : string) (u : ClipUpdates) (rs : list Heap.Ref) :
  forall h, exists extra, fst (Heap.map_update cid u h rs) = h ++ extra.
Proof.
  induction rs as [|r rs IH]; intro h; simpl.
  - exists []. rewrite app_nil_r. reflexivity.
  - destruct (Heap.deref h r) as [c|].
    + destruct (String.eqb (id c) cid).
      * destruct (IH (h ++ [spread c u])) as [extra E].
        destruct (Heap.map_update cid u (h ++ [spread c u]) rs) as [h2 rs2].
        simpl in *. exists ([spread c u] ++ extra).
        rewrite E, app_assoc. reflexivity.
      * destruct (IH h) as [extra E].
        destruct (Heap.map_update cid u h rs) as [h2 rs2].
        simpl in *. exists extra. assumption.
    + destruct (IH h) as [extra E].
      destruct (Heap.map_update cid u h rs) as [h2 rs2].
      simpl in *. exists extra. assumption.
Qed.

Lemma map_update_valid (cid : string) (u : ClipUpdates) (rs : list Heap.Ref) :
  forall h,
    (forall r, In r rs -> (r < List.length h)%nat) ->
    forall r, In r (snd (Heap.map_update cid u h rs)) ->
              (r < List.length (fst (Heap.map_update cid u h rs)))%nat.
Proof.
  induction rs as [|r0 rs IH]; intros h Hv r; simpl.
  - intros [].
  - destruct (Heap.deref h r0) as [c|].
    + destruct (String.eqb (id c) cid).
      * pose proof (map_update_grows cid u rs (h ++ [spread c u])) as [extra E].
        specialize (IH (h ++ [spread c u])).
        destruct (Heap.map_update cid u (h ++ [spread c u]) rs) as [h2 rs2].
        simpl in *. intros [<-|Hin].
        -- rewrite E, !length_app. simpl. lia.
        -- apply IH; [|assumption]. intros r' Hr'. rewrite length_app.
           specialize (Hv r' (or_intror Hr')). lia.
      * pose proof (map_update_grows cid u rs h) as [extra E].
        specialize (IH h).
        destruct (Heap.map_update cid u h rs) as [h2 rs2].
        simpl in *. intros [<-|Hin].
        -- rewrite E, length_app. specialize (Hv r0 (or_introl eq_refl)). lia.
        -- apply IH; [|assumption]. intros r' Hr'. apply Hv. right. assumption.
    + specialize (IH h).
      destruct (Heap.map_update cid u h rs) as [h2 rs2].
      simpl in *. intro Hin. apply IH; [|assumption].
      intros r' Hr'. apply Hv. right. assumption.
Qed.

(** No operation writes to the store: it only grows. *)
Lemma apply_grows (s : Heap.State) (op : Heap.Op) :
  exists extra, Heap.store (Heap.apply s op) = Heap.store s ++ extra.
Proof.
  assert (Hsame : exists extra, Heap.store s = Heap.store s ++ extra).
  { exists []. rewrite app_nil_r. reflexivity. }
  destruct op as [cid u|g1 g2|cid| | |gid url f tid ty meta|gid|t|o]; simpl;
    try exact Hsame.
  - unfold Heap.handleClipUpdate.
    destruct (map_update_grows cid u (Heap.clips s) (Heap.store s)) as [extra E].
    destruct (Heap.map_update cid u (Heap.store s) (Heap.clips s)) as [h rs].
    simpl in *. exists extra. assumption.
  - unfold Heap.handleSplitClip.
    destruct (truthy (Heap.selectedClipId s)) as [sel|]; [|exact Hsame].
    destruct (Heap.find_ref sel (Heap.store s) (Heap.clips s)) as [r|];
      [|exact Hsame].
    destruct (Heap.deref (Heap.store s) r) as [clip|]; [|exact Hsame].
    destruct (leb _ _ || geb _ _); [exact Hsame|].
    simpl. rewrite <- app_assoc. eexists. reflexivity.
  - unfold Heap.deleteKey.
    destruct (truthy (Heap.selectedClipId s)); exact Hsame.
  - unfold Heap.addClipFromFile.
    destruct (rev _) as [|newClip l]; [exact Hsame|].
    simpl. eexists. reflexivity.
  - unfold Heap.paste.
    destruct (Heap.clipboardRef s) as [b|]; [|exact Hsame].
    destruct (Heap.deref (Heap.store s) b) as [board|]; [|exact Hsame].
    simpl. eexists. reflexivity.
Qed.

(** No operation of [Heap.Op] assigns the clipboard. *)
Lemma apply_clipboard (s : Heap.State) (op : Heap.Op) :
  Heap.clipboardRef (Heap.apply s op) = Heap.clipboardRef s.
Proof.
  destruct op as [cid u|g1 g2|cid| | |gid url f tid ty meta|gid|t|o]; simpl;
    try reflexivity.
  - unfold Heap.handleClipUpdate.
    destruct (Heap.map_update cid u (Heap.store s) (Heap.clips s)).
    reflexivity.
  - unfold Heap.handleSplitClip.
    destruct (truthy (Heap.selectedClipId s)) as [sel|]; [|reflexivity].
    destruct (Heap.find_ref sel (Heap.store s) (Heap.clips s)) as [r|];
      [|reflexivity].
    destruct (Heap.deref (Heap.store s) r) as [clip|]; [|reflexivity].
    destruct (leb _ _ || geb _ _); reflexivity.
  - unfold Heap.deleteKey.
    destruct (truthy (Heap.selectedClipId s)); reflexivity.
  - unfold Heap.addClipFromFile.
    destruct (rev _) as [|newClip l]; reflexivity.
  - unfold Heap.paste.
    destruct (Heap.clipboardRef s) as [b|] eqn:E;
      [|first [exact E|reflexivity]].
    destruct (Heap.deref (Heap.store s) b) as [board|];
      simpl; first [exact E|reflexivity].
Qed.

(** What the clipboard refers to survives any sequence of operations. *)
Lemma run_clipboard (ops : list Heap.Op) :
  forall (s : Heap.State) (r : Heap.Ref) (c0 : Clip),
    Heap.clipboardRef s = Some r ->
    Heap.deref (Heap.store s) r = Some c0 ->
    Heap.clipboardRef (Heap.run s ops) = Some r /\
    Heap.deref (Heap.store (Heap.run s ops)) r = Some c0.
Proof.
  induction ops as [|op ops IH]; intros s r c0 Hb Hd; simpl.
  - split; assumption.
  - apply IH.
    + rewrite apply_clipboard. assumption.
    + destruct (apply_grows s op) as [extra E]. rewrite E.
      rewrite deref_grow; [assumption|]. eapply deref_valid; eassumption.
Qed.

(** C10.  Copy stores the selected clip [c0]; whatever operations follow
    (updates of any clip by a move or a trim, splits, deletions, clearing
    the timeline, imports, pastes, seeks, selections), the clipboard still
    refers to an object with the fields of [c0], and a paste then appends a
    new object that carries the drawn identifier and the track, duration,
    offset, source duration, source and name of [c0], and selects it. *)
Theorem C10_clipboard_snapshot (s : Heap.State) (sel : string) (r : Heap.Ref)
    (c0 : Clip) (ops : list Heap.Op) (gid : string) :
  truthy (Heap.selectedClipId s) = Some sel ->
  Heap.find_ref sel (Heap.store s) (Heap.clips s) = Some r ->
  Heap.deref (Heap.store s) r = Some c0 ->
  let s1 := Heap.copy s in
  let s2 := Heap.run s1 ops in
  let s3 := Heap.paste gid s2 in
  Heap.clipboardRef s1 = Some r /\
  Heap.clipboardRef s2 = Some r /\
  Heap.deref (Heap.store s2) r = Some c0 /\
  exists (r' : Heap.Ref) (new : Clip),
    Heap.clips s3 = Heap.clips s2 ++ [r'] /\
    Heap.deref (Heap.store s3) r' = Some new /\
    Heap.deref (Heap.store s2) r' = None /\
    Heap.selectedClipId s3 = Some gid /\
    id new = gid /\
    trackId new = trackId c0 /\ duration new = duration c0 /\
    offset new = offset c0 /\
    Types.totalDuration new = Types.totalDuration c0 /\
    source new = source c0 /\ name new = name c0.
Proof.
  intros Hsel Hfind Hc0 s1 s2 s3.
  assert (H1 : Heap.clipboardRef s1 = Some r /\ Heap.store s1 = Heap.store s).
  { subst s1. unfold Heap.copy. rewrite Hsel, Hfind. split; reflexivity. }
  destruct H1 as [Hb1 Hst1].
  assert (Hd1 : Heap.deref (Heap.store s1) r = Some c0)
    by (rewrite Hst1; assumption).
  destruct (run_clipboard ops s1 r c0 Hb1 Hd1) as [Hb2 Hd2]. fold s2 in Hb2, Hd2.
  split; [assumption|]. split; [assumption|]. split; [assumption|].
  subst s3. unfold Heap.paste. rewrite Hb2, Hd2. simpl.
  exists (List.length (Heap.store s2)),
         (App.pastedClip gid (Heap.pasteStart s2) c0).
  split; [reflexivity|].
  split.
  { apply (deref_alloc (Heap.store s2)). }
  split.
  { unfold Heap.deref. apply nth_error_None. lia. }
  repeat split.
Qed.

Lemma C10_clipboard_snapshot_witness :
  Heap.clips (Heap.run (Heap.copy store_state) after_copy) = [] /\
  exists (r' : Heap.Ref) (new : Clip),
    Heap.deref
      (Heap.store (Heap.paste "p" (Heap.run (Heap.copy store_state) after_copy)))
      r' = Some new /\
    id new = "p"%string /\ trackId new = "track-1"%string /\
    duration new = 5 /\ offset new = 0 /\ Types.totalDuration new = 5.
Proof.
  split; [reflexivity|].
  destruct (C10_clipboard_snapshot store_state "c0" 0%nat scenario_clip
              after_copy "p" eq_refl eq_refl eq_refl)
    as (_ & _ & _ & r' & new & _ & Hd & _ & _ & Hid & Ht & Hdur & Hoff & Htot & _).
  exists r', new. split; [exact Hd|].
  rewrite Hid, Ht, Hdur, Hoff, Htot. repeat split.
Defined.

(** *** The store refines the values *)

Lemma objects_grow (h extra : Heap.Store) (rs : list Heap.Ref) :
  (forall r, In r rs -> (r < List.length h)%nat) ->
  Heap.objects (h ++ extra) rs = Heap.objects h rs.
Proof.
  induction rs as [|r rs IH]; intro Hv; [reflexivity|].
  unfold Heap.objects in *. simpl.
  rewrite deref_grow by (apply Hv; left; reflexivity).
  rewrite IH; [reflexivity|]. intros r' Hr'. apply Hv. right. assumption.
Qed.

Lemma objects_app (h : Heap.Store) (a b : list Heap.Ref) :
  Heap.objects h (a ++ b) = Heap.objects h a ++ Heap.objects h b.
Proof. unfold Heap.objects. apply flat_map_app. Qed.

Lemma objects_find (i : string) (h : Heap.Store) (rs : list Heap.Ref) :
  find_clip i (Heap.objects h rs) =
  match Heap.find_ref i h rs with
  | Some r => Heap.deref h r
  | None => None
  end.
Proof.
  unfold find_clip, Heap.objects.
  induction rs as [|r rs IH]; [reflexivity|]. simpl.
  destruct (Heap.deref h r) as [c|] eqn:E; simpl; [|assumption].
  destruct (String.eqb (id c) i) eqn:B; [symmetry; assumption|assumption].
Qed.

Lemma find_ref_id (i : string) (h : Heap.Store) (rs : list Heap.Ref)
    (r : Heap.Ref) :
  Heap.find_ref i h rs = Some r -> exists c, Heap.deref h r = Some c.
Proof.
  induction rs as [|r0 rs IH]; simpl; [discriminate|].
  destruct (Heap.deref h r0) as [c|] eqn:E; [|assumption].
  destruct (String.eqb (id c) i); [|assumption].
  intro H. injection H as <-. exists c. assumption.
Qed.

Lemma objects_filter (cid : string) (h : Heap.Store) (rs : list Heap.Ref) :
  Heap.objects h (filter (Heap.keeps cid h) rs) =
  filter (fun c => negb (String.eqb (id c) cid)) (Heap.objects h rs).
Proof.
  unfold Heap.objects, Heap.keeps.
  induction rs as [|r rs IH]; [reflexivity|]. simpl.
  destruct (Heap.deref h r) as [c|] eqn:E; simpl; [|assumption].
  destruct (negb (String.eqb (id c) cid)); simpl; [rewrite E; simpl|];
    rewrite IH; reflexivity.
Qed.

Lemma objects_map_update (cid : string) (u : ClipUpdates) (rs : list Heap.Ref) :
  forall h,
    (forall r, In r rs -> (r < List.length h)%nat) ->
    Heap.objects (fst (Heap.map_update cid u h rs))
                 (snd (Heap.map_update cid u h rs)) =
    map (fun c => if String.eqb (id c) cid then spread c u else c)
        (Heap.objects h rs).
Proof.
  induction rs as [|r rs IH]; intros h Hv; [reflexivity|]. simpl.
  assert (Hv' : forall r', In r' rs -> (r' < List.length h)%nat).
  { intros r' Hr'. apply Hv. right. assumption. }
  unfold Heap.objects at 2. simpl. fold (Heap.objects h rs).
  destruct (Heap.deref h r) as [c|] eqn:E.
  - destruct (String.eqb (id c) cid) eqn:B.
    + assert (Hv1 : forall r', In r' rs ->
                               (r' < List.length (h ++ [spread c u]))%nat).
      { intros r' Hr'. rewrite length_app. specialize (Hv' r' Hr'). lia. }
      specialize (IH (h ++ [spread c u]) Hv1).
      destruct (map_update_grows cid u rs (h ++ [spread c u])) as [extra G].
      destruct (Heap.map_update cid u (h ++ [spread c u]) rs) as [h2 rs2].
      simpl in *. rewrite B.
      unfold Heap.objects at 1. simpl. fold (Heap.objects h2 rs2).
      rewrite IH, G.
      assert (D : Heap.deref ((h ++ [spread c u]) ++ extra) (List.length h)
                  = Some (spread c u)).
      { rewrite deref_grow by (rewrite length_app; simpl; lia).
        apply (deref_alloc h). }
      rewrite D. simpl. f_equal.
      rewrite objects_grow by assumption. reflexivity.
    + specialize (IH h Hv').
      destruct (map_update_grows cid u rs h) as [extra G].
      destruct (Heap.map_update cid u h rs) as [h2 rs2].
      simpl in *. rewrite B.
      unfold Heap.objects at 1. simpl. fold (Heap.objects h2 rs2).
      rewrite IH, G.
      rewrite deref_grow by (apply Hv; left; reflexivity).
      rewrite E. reflexivity.
  - specialize (IH h Hv').
    destruct (Heap.map_update cid u h rs) as [h2 rs2].
    simpl in *. assumption.
Qed.

Lemma view_fields (base : App.State) (s : Heap.State) :
  App.clips (Heap.view base s) = Heap.objects (Heap.store s) (Heap.clips s) /\
  App.selectedClipId (Heap.view base s) = Heap.selectedClipId s /\
  App.clipboardRef (Heap.view base s) =
    match Heap.clipboardRef s with
    | Some r => Heap.deref (Heap.store s) r
    | None => None
    end /\
  App.currentTime (Heap.view base s) = Heap.currentTime s.
Proof. repeat split. Qed.

(** Two states with the same clips, selection, clipboard and playhead that
    agree with a base state elsewhere are equal. *)
Lemma view_ext (base : App.State) (s : Heap.State) (a : App.State) :
  App.clips a = Heap.objects (Heap.store s) (Heap.clips s) ->
  App.selectedClipId a = Heap.selectedClipId s ->
  App.clipboardRef a =
    match Heap.clipboardRef s with
    | Some r => Heap.deref (Heap.store s) r
    | None => None
    end ->
  App.currentTime a = Heap.currentTime s ->
  App.isPlaying a = App.isPlaying base ->
  App.isExporting a = App.isExporting base ->
  App.totalDuration a = App.totalDuration base ->
  App.resolutionState a = App.resolutionState base ->
  App.customResolution a = App.customResolution base ->
  App.previousTimeRef a = App.previousTimeRef base ->
  App.mediaRecorderRef a = App.mediaRecorderRef base ->
  App.recordedChunksRef a = App.recordedChunksRef base ->
  App.exportTimeout a = App.exportTimeout base ->
  App.outputs a = App.outputs base ->
  Heap.view base s = a.
Proof.
  destruct a. simpl. intros. subst. reflexivity.
Qed.

Lemma board_grow (h extra : Heap.Store) (b : option Heap.Ref) :
  (forall r, b = Some r -> (r < List.length h)%nat) ->
  match b with Some r => Heap.deref (h ++ extra) r | None => None end =
  match b with Some r => Heap.deref h r | None => None end.
Proof.
  intro Hv. destruct b as [r|]; [|reflexivity].
  apply deref_grow. apply Hv. reflexivity.
Qed.

Lemma pasteStart_view (base : App.State) (s : Heap.State) :
  App.pasteStart (Heap.view base s) = Heap.pasteStart s.
Proof.
  unfold App.pasteStart, Heap.pasteStart.
  destruct (view_fields base s) as (-> & -> & _ & ->).
  destruct (Heap.selectedClipId s) as [sel|]; [|reflexivity].
  rewrite objects_find.
  destruct (Heap.find_ref sel (Heap.store s) (Heap.clips s)); reflexivity.
Qed.

(** Each operation on the store is the handler of [Module App] on the
    state the store stands for. *)
Lemma deref_last (h : Heap.Store) (c : Clip) :
  Heap.deref (h ++ [c]) (List.length h) = Some c.
Proof. apply (deref_alloc h c). Qed.

Lemma deref_two (h : Heap.Store) (a b : Clip) :
  Heap.deref (h ++ [a; b]) (List.length h) = Some a /\
  Heap.deref (h ++ [a; b]) (List.length (h ++ [a])) = Some b.
Proof.
  unfold Heap.deref. split.
  - rewrite nth_error_app2 by lia. rewrite Nat.sub_diag. reflexivity.
  - rewrite length_app. simpl. rewrite nth_error_app2 by lia.
    replace (List.length h + 1 - List.length h)%nat with 1%nat by lia.
    reflexivity.
Qed.

Ltac by_view := apply view_ext; simpl; try reflexivity.

(** Each operation on the store is the handler of [Module App] on the
    state the store stands for. *)
Lemma apply_refines (base : App.State) (s : Heap.State) (op : Heap.Op) :
  Heap.well_formed s ->
  Heap.view base (Heap.apply s op) = Heap.to_app op (Heap.view base s).
Proof.
  intros [Hclips Hboard].
  destruct op as [cid u|g1 g2|cid| | |gid url f tid ty meta|gid|t|o]; simpl.
  - (* Update *)
    unfold Heap.handleClipUpdate.
    pose proof (objects_map_update cid u (Heap.clips s) (Heap.store s) Hclips)
      as Hobj.
    destruct (map_update_grows cid u (Heap.clips s) (Heap.store s)) as [extra G].
    destruct (Heap.map_update cid u (Heap.store s) (Heap.clips s)) as [h rs].
    simpl in *. subst h. by_view.
    + symmetry. exact Hobj.
    + symmetry. apply board_grow. assumption.
  - (* Split *)
    unfold Heap.handleSplitClip, App.handleSplitClip.
    destruct (view_fields base s) as (Ec & Es & Eb & Et).
    rewrite Es, Ec, Et.
    destruct (truthy (Heap.selectedClipId s)) as [sel|]; [|reflexivity].
    rewrite objects_find.
    destruct (Heap.find_ref sel (Heap.store s) (Heap.clips s)) as [r|];
      [|reflexivity].
    destruct (Heap.deref (Heap.store s) r) as [clip|]; [|reflexivity].
    destruct (leb _ _ || geb _ _); [reflexivity|].
    simpl. by_view.
    + rewrite objects_app, <- app_assoc.
      rewrite objects_grow.
      2:{ intros r' Hr'. apply filter_In in Hr'. apply Hclips. tauto. }
      rewrite objects_filter. f_equal.
      unfold Heap.objects. simpl.
      destruct (deref_two (Heap.store s)
                  (App.splitLeft g1 clip (Heap.currentTime s))
                  (App.splitRight g2 clip (Heap.currentTime s))) as [D1 D2].
      rewrite D1, D2. reflexivity.
    + rewrite <- app_assoc. symmetry. apply board_grow. assumption.
  - (* Delete *)
    unfold Heap.handleDeleteClip, App.handleDeleteClip.
    destruct (view_fields base s) as (Ec & Es & Eb & Et).
    rewrite Es, Ec.
    destruct (option_string_eqb (Heap.selectedClipId s) cid);
      by_view; symmetry; apply objects_filter.
  - (* DeleteSelected *)
    unfold Heap.deleteKey, App.deleteKey.
    destruct (view_fields base s) as (Ec & Es & Eb & Et).
    rewrite Es.
    destruct (truthy (Heap.selectedClipId s)) as [sel|]; [|reflexivity].
    unfold Heap.handleDeleteClip, App.handleDeleteClip. rewrite Es, Ec.
    destruct (option_string_eqb (Heap.selectedClipId s) sel);
      by_view; symmetry; apply objects_filter.
  - (* ClearAll *)
    reflexivity.
  - (* Add *)
    unfold Heap.addClipFromFile, App.addClipFromFile.
    destruct (view_fields base s) as (Ec & Es & Eb & Et).
    rewrite Ec. unfold App.addClip. rewrite rev_app_distr. simpl.
    by_view.
    + rewrite objects_app, objects_grow by assumption. f_equal.
      unfold Heap.objects. simpl.
      rewrite deref_last. reflexivity.
    + symmetry. apply board_grow. assumption.
  - (* Paste *)
    unfold Heap.paste, App.paste.
    destruct (view_fields base s) as (Ec & Es & Eb & Et).
    rewrite Eb, Ec, pasteStart_view.
    destruct (Heap.clipboardRef s) as [b|] eqn:Hb; [|reflexivity].
    destruct (Heap.deref (Heap.store s) b) as [board|] eqn:Hd; [|reflexivity].
    simpl. by_view.
    + rewrite objects_app, objects_grow by assumption. f_equal.
      unfold Heap.objects. simpl.
      rewrite deref_last. reflexivity.
    + rewrite Hb, Hd. rewrite deref_grow; [symmetry; assumption|].
      apply Hboard. reflexivity.
  - (* Seek *)
    reflexivity.
  - (* Select *)
    reflexivity.
Qed.

Lemma copy_refines (base : App.State) (s : Heap.State) :
  Heap.view base (Heap.copy s) = App.copy (Heap.view base s).
Proof.
  unfold Heap.copy, App.copy.
  destruct (view_fields base s) as (Ec & Es & Eb & Et).
  rewrite Es, Ec.
  destruct (truthy (Heap.selectedClipId s)) as [sel|]; [|reflexivity].
  rewrite objects_find.
  destruct (Heap.find_ref sel (Heap.store s) (Heap.clips s)) as [r|] eqn:F;
    [|reflexivity].
  destruct (find_ref_id _ _ _ _ F) as [c Hc]. rewrite Hc.
  by_view. symmetry. assumption.
Qed.

Lemma apply_well_formed (s : Heap.State) (op : Heap.Op) :
  Heap.well_formed s -> Heap.well_formed (Heap.apply s op).
Proof.
  intros [Hclips Hboard].
  destruct (apply_grows s op) as [extra G].
  split.
  - destruct op as [cid u|g1 g2|cid| | |gid url f tid ty meta|gid|t|o];
      simpl in *; try assumption.
    + unfold Heap.handleClipUpdate in *.
      pose proof (map_update_valid cid u (Heap.clips s) (Heap.store s) Hclips)
        as V.
      destruct (Heap.map_update cid u (Heap.store s) (Heap.clips s)).
      exact V.
    + unfold Heap.handleSplitClip in *.
      destruct (truthy (Heap.selectedClipId s)) as [sel|]; [|assumption].
      destruct (Heap.find_ref sel (Heap.store s) (Heap.clips s)) as [r|];
        [|assumption].
      destruct (Heap.deref (Heap.store s) r) as [clip|]; [|assumption].
      destruct (leb _ _ || geb _ _); [assumption|].
      simpl. intros r' Hr'.
      apply in_app_or in Hr'.
      destruct Hr' as [Hr'|[<-|[<-|[]]]]; rewrite ?length_app; simpl; try lia.
      apply filter_In in Hr'. destruct Hr' as [Hr' _].
      specialize (Hclips r' Hr'). lia.
    + intros r Hr. apply filter_In in Hr. apply Hclips. tauto.
    + unfold Heap.deleteKey.
      destruct (truthy (Heap.selectedClipId s)); [|assumption].
      simpl. intros r Hr. apply filter_In in Hr. apply Hclips. tauto.
    + intros r [].
    + unfold Heap.addClipFromFile in *.
      destruct (rev _) as [|newClip l]; [assumption|].
      simpl. intros r Hr. rewrite length_app. simpl.
      apply in_app_or in Hr. destruct Hr as [Hr|[<-|[]]]; [|lia].
      specialize (Hclips r Hr). lia.
    + unfold Heap.paste in *.
      destruct (Heap.clipboardRef s) as [b|]; [|assumption].
      destruct (Heap.deref (Heap.store s) b) as [board|]; [|assumption].
      simpl. intros r Hr. rewrite length_app. simpl.
      apply in_app_or in Hr. destruct Hr as [Hr|[<-|[]]]; [|lia].
      specialize (Hclips r Hr). lia.
  - intros r Hr. rewrite apply_clipboard in Hr. rewrite G, length_app.
    specialize (Hboard r Hr). lia.
Qed.

Lemma run_refines (base : App.State) (ops : list Heap.Op) :
  forall s,
    Heap.well_formed s ->
    Heap.view base (Heap.run s ops) =
    fold_left (fun a op => Heap.to_app op a) ops (Heap.view base s).
Proof.
  induction ops as [|op ops IH]; intros s Hwf; simpl; [reflexivity|].
  rewrite IH by (apply apply_well_formed; assumption).
  rewrite apply_refines by assumption. reflexivity.
Qed.

(** ** Drift correction *)

Lemma in_seek_singleton (b : bool) (target : Q) (rest : list Player.MediaAction) :
  ~ In (Player.SetCurrentTime target) rest ->
  In (Player.SetCurrentTime target)
     ((if b then [Player.SetCurrentTime target] else []) ++ rest) <-> b = true.
Proof.
  intro Hrest. destruct b; simpl; split; intro H; try reflexivity.
  - left. reflexivity.
  - contradiction.
  - discriminate.
Qed.

Lemma video_seek_playing (position : Q) (clip : Clip) (el : Player.MediaElement) :
  seeks position clip (Player.syncActive true position clip el) <->
  number 0.5 < drift position clip el.
Proof.
  unfold seeks, Player.syncActive, drift, Math.abs.
  rewrite in_seek_singleton.
  - apply gtb_spec.
  - destruct (Player.paused el); simpl; intuition discriminate.
Qed.

Lemma video_seek_paused (position : Q) (clip : Clip) (el : Player.MediaElement) :
  seeks position clip (Player.syncActive false position clip el) <->
  number 0.01 < drift position clip el.
Proof.
  unfold seeks, Player.syncActive, drift, Math.abs.
  rewrite <- gtb_spec.
  destruct (gtb _ (number 0.01)); simpl; split; intro H; try reflexivity.
  - right. left. reflexivity.
  - destruct H as [H|[]]. discriminate.
  - discriminate.
Qed.

Lemma audio_seek_playing (position : Q) (clip : Clip) (el : Player.MediaElement) :
  Player.isActive position clip = true ->
  (seeks position clip (App.syncAudio true position clip el) <->
   number 0.2 < drift position clip el \/ Player.paused el = true).
Proof.
  intro Hact. unfold seeks, App.syncAudio, drift, Math.abs. rewrite Hact. simpl.
  rewrite <- gtb_spec, <- orb_true_iff.
  destruct (gtb _ (number 0.2) || Player.paused el); simpl; split; intro H;
    try reflexivity.
  - left. reflexivity.
  - contradiction.
  - discriminate.
Qed.

Lemma audio_never_seeks_paused (position t : Q) (clip : Clip)
    (el : Player.MediaElement) :
  ~ In (Player.SetCurrentTime t) (App.syncAudio false position clip el).
Proof.
  unfold App.syncAudio. rewrite andb_false_r.
  destruct (negb (Player.paused el)); simpl; intuition discriminate.
Qed.

(** C7, as the code has it.  While the transport plays, the element of the
    active video clip is force-seeked exactly when its drift exceeds 0.5 s
    and the element of an active audio clip exactly when its drift exceeds
    0.2 s or it is paused, so for both kinds only when the drift exceeds
    0.2 s or the element is paused.  While the transport is paused, the
    video element is force-seeked exactly when its drift exceeds 0.01 s,
    and an audio element is never seeked.  Every seek goes to
    [position - clip.start + clip.offset]. *)
Theorem C7_drift_rule (position : Q) (clip : Clip) (el : Player.MediaElement) :
  (seeks position clip (sync video true position clip el) <->
   number 0.5 < drift position clip el) /\
  (seeks position clip (sync video false position clip el) <->
   number 0.01 < drift position clip el) /\
  (Player.isActive position clip = true ->
   (seeks position clip (sync audio true position clip el) <->
    number 0.2 < drift position clip el \/ Player.paused el = true)) /\
  ~ seeks position clip (sync audio false position clip el) /\
  (forall kind,
     Player.isActive position clip = true ->
     seeks position clip (sync kind true position clip el) ->
     number 0.2 < drift position clip el \/ Player.paused el = true) /\
  (forall kind isPlaying t,
     In (Player.SetCurrentTime t) (sync kind isPlaying position clip el) ->
     t = Player.seekTime position clip).
Proof.
  split; [apply video_seek_playing|].
  split; [apply video_seek_paused|].
  split; [apply audio_seek_playing|].
  split; [apply audio_never_seeks_paused|].
  split.
  - intros [|] Hact Hseek.
    + apply video_seek_playing in Hseek. left.
      assert (number 0.2 < number 0.5) by reflexivity. lra.
    + apply audio_seek_playing in Hseek; assumption.
  - intros kind isPlaying t Hin.
    destruct kind, isPlaying; simpl in Hin;
      unfold Player.syncActive, App.syncAudio in Hin.
    + destruct (gtb _ (number 0.5)); destruct (Player.paused el); simpl in Hin;
        intuition congruence.
    + destruct (gtb _ (number 0.01)); simpl in Hin; intuition congruence.
    + destruct (Player.isActive position clip && true); simpl in Hin.
      * destruct (gtb _ (number 0.2) || Player.paused el); simpl in Hin;
          intuition congruence.
      * destruct (negb (Player.paused el)); simpl in Hin;
          intuition congruence.
    + exfalso. eapply audio_never_seeks_paused. eassumption.
Qed.

Lemma C7_drift_rule_witness :
  Player.isActive 0 audio_clip = true /\
  seeks 0 audio_clip (sync audio true 0 audio_clip stale_element) /\
  seeks 0 scenario_clip (sync video false 0 scenario_clip stale_element).
Proof.
  assert (Hact : Player.isActive 0 audio_clip = true)
    by (vm_compute; reflexivity).
  destruct (C7_drift_rule 0 audio_clip stale_element) as (_ & _ & Ha & _).
  destruct (C7_drift_rule 0 scenario_clip stale_element) as (_ & Hv & _).
  split; [exact Hact|]. split.
  - apply (Ha Hact). right. reflexivity.
  - apply Hv. vm_compute. reflexivity.
Defined.

(** C7 as stated fails for audio while the transport is paused: an active
    audio element five seconds off is left where it is. *)
Lemma C7_counterexample : ~ drift_rule_as_stated.
Proof.
  intro H.
  assert (Hact : Player.isActive 0 audio_clip = true)
    by (vm_compute; reflexivity).
  destruct (H audio false 0 audio_clip stale_element Hact) as [_ Hpaused].
  destruct (Hpaused eq_refl) as [_ Hseek].
  assert (Hdrift : number 0.01 < drift 0 audio_clip stale_element)
    by (vm_compute; reflexivity).
  apply Hseek in Hdrift.
  exact (audio_never_seeks_paused 0 (Player.seekTime 0 audio_clip) audio_clip
           stale_element Hdrift).
Qed.

(** ** Export *)

Lemma newDuration_pos (cs : list Clip) : 0 < newDuration cs.
Proof.
  unfold newDuration. destruct (gtb (maxClipEnd cs) 0) eqn:B.
  - apply gtb_spec. assumption.
  - reflexivity.
Qed.

(** The phase and its side conditions only read five fields. *)
Lemma phase_ext (s h : State) :
  isExporting h = isExporting s ->
  exportTimeout h = exportTimeout s ->
  mediaRecorderRef h = mediaRecorderRef s ->
  phase h = phase s.
Proof. unfold phase. intros -> -> ->. reflexivity. Qed.

Lemma phase_ok_ext (s h : State) :
  isExporting h = isExporting s ->
  exportTimeout h = exportTimeout s ->
  mediaRecorderRef h = mediaRecorderRef s ->
  isPlaying h = isPlaying s ->
  currentTime h = currentTime s ->
  phase_ok s -> phase_ok h.
Proof.
  intros E1 E2 E3 E4 E5. unfold phase_ok, quiet.
  rewrite (phase_ext s h E1 E2 E3), E2, E3, E4, E5. tauto.
Qed.

Lemma settled_fields (h : State) :
  clips (settled h) = clips h /\
  isExporting (settled h) = isExporting h /\
  isPlaying (settled h) = isPlaying h /\
  currentTime (settled h) = currentTime h /\
  exportTimeout (settled h) = exportTimeout h /\
  mediaRecorderRef (settled h) = mediaRecorderRef h /\
  outputs (settled h) = outputs h /\
  recordedChunksRef (settled h) = recordedChunksRef h /\
  totalDuration (settled h) = newDuration (clips h).
Proof.
  unfold settled, playbackEffect, adjustTotalDuration. simpl.
  destruct (isPlaying h) eqn:E; simpl; repeat split; first [reflexivity|exact E].
Qed.

(** When the transport agrees with the phase, the export watcher has
    nothing to do: it does not run, or it finds no recording encoder. *)
Lemma watch_nothing (h : State) :
  phase_ok h -> exportWatch (settled h) = settled h.
Proof.
  intro Hok.
  destruct (settled_fields h) as (Ec & Ee & Ep & Et & Eo & Er & _ & _ & Ed).
  unfold exportWatch. rewrite Ee, Ep, Et, Ed.
  unfold phase_ok, phase, quiet in Hok.
  destruct (isExporting h); simpl in *; [|reflexivity].
  destruct (exportTimeout h) as [res|].
  - destruct Hok as (-> & -> & _). simpl.
    assert (B : geb 0 (newDuration (clips h)) = false)
      by (apply geb_false, newDuration_pos).
    rewrite B. reflexivity.
  - unfold recorder_stop. rewrite Er.
    destruct (mediaRecorderRef h) as [r|].
    + destruct (rec_state r).
      * destruct (negb (isPlaying h) && geb (currentTime h) (newDuration (clips h)));
          reflexivity.
      * destruct Hok as [-> _]. reflexivity.
    + destruct (negb (isPlaying h) && geb (currentTime h) (newDuration (clips h)));
        reflexivity.
Qed.

Lemma commit_settled (before h : State) :
  phase_ok h -> commit before h = settled h.
Proof.
  intro Hok. unfold commit. fold (settled h).
  destruct (watch_deps_changed before (settled h)); [|reflexivity].
  apply watch_nothing. assumption.
Qed.

Lemma settled_inv (h : State) : phase_ok h -> reachable_inv (settled h).
Proof.
  intro Hok.
  destruct (settled_fields h) as (Ec & Ee & Ep & Et & Eo & Er & _ & _ & Ed).
  constructor.
  - rewrite Ed, Ec. reflexivity.
  - apply (phase_ok_ext h); assumption.
Qed.

(** A handler whose result agrees with its phase is followed by no output
    of the effects; the step is then read off the handler. *)
Lemma step_of_handler (ui : UI) (e : Event) :
  phase_ok (app (handle ui e)) ->
  reachable_inv (app (step ui e)) /\
  phase (app (step ui e)) = phase (app (handle ui e)) /\
  outputs (app (step ui e)) = outputs (app (handle ui e)) /\
  recordedChunksRef (app (step ui e)) = recordedChunksRef (app (handle ui e)) /\
  isExporting (app (step ui e)) = isExporting (app (handle ui e)) /\
  currentTime (app (step ui e)) = currentTime (app (handle ui e)).
Proof.
  intro Hok. unfold step. simpl app.
  rewrite (commit_settled _ _ Hok).
  destruct (settled_fields (app (handle ui e)))
    as (Ec & Ee & Ep & Et & Eo & Er & Eout & Ech & Ed).
  split; [apply settled_inv; assumption|].
  split; [apply phase_ext; assumption|].
  repeat split; assumption.
Qed.

Lemma phase_idle (s : State) : isExporting s = false -> phase s = Idle.
Proof. unfold phase. intros ->. reflexivity. Qed.

Lemma idle_phase_ok (h : State) :
  isExporting h = false -> exportTimeout h = None -> quiet h -> phase_ok h.
Proof.
  intros He Ht Hq. unfold phase_ok. rewrite (phase_idle h He). tauto.
Qed.

Lemma idle_inv (s : State) :
  phase_ok s -> isExporting s = false -> exportTimeout s = None /\ quiet s.
Proof.
  intros Hok He. unfold phase_ok in Hok. rewrite (phase_idle s He) in Hok.
  assumption.
Qed.

Lemma playing_phase (s : State) :
  phase_ok s -> isPlaying s = true ->
  (isExporting s = false /\ phase s = Idle) \/
  (isExporting s = true /\ phase s = Recording).
Proof.
  intros Hok Hp. unfold phase_ok in Hok.
  destruct (phase s) eqn:P.
  - left. split; [|reflexivity]. unfold phase in P.
    destruct (isExporting s); [|reflexivity]. simpl in P.
    destruct (exportTimeout s); [discriminate|].
    destruct (mediaRecorderRef s) as [r|]; [|discriminate].
    destruct (rec_state r); [|discriminate].
    destruct (stop_queued r); discriminate.
  - destruct Hok as [H _]. congruence.
  - destruct Hok as [H _]. congruence.
  - right. split; [|reflexivity]. unfold phase in P.
    destruct (isExporting s); [reflexivity|discriminate].
  - congruence.
Qed.

(** While playing, the position is free. *)
Lemma phase_ok_playing (s h : State) :
  phase_ok s -> isPlaying s = true ->
  isExporting h = isExporting s ->
  exportTimeout h = exportTimeout s ->
  mediaRecorderRef h = mediaRecorderRef s ->
  isPlaying h = true ->
  phase_ok h.
Proof.
  intros Hok Hp E1 E2 E3 E4.
  pose proof (phase_ext s h E1 E2 E3) as Eph.
  destruct (playing_phase s Hok Hp) as [[He P]|[He P]];
    unfold phase_ok in *; rewrite Eph; rewrite P in *; unfold quiet in *;
    rewrite ?E2, ?E3, ?E4; tauto.
Qed.

(** A step whose handler leaves the pipeline alone. *)
Lemma neutral_step (ui : UI) (e : Event) :
  reachable_inv (app ui) ->
  ctl_same (app ui) (app (handle ui e)) ->
  reachable_inv (app (step ui e)) /\
  phase (app (step ui e)) = phase (app ui) /\
  outputs (app (step ui e)) = outputs (app ui).
Proof.
  intros [Hd Hok] (E1 & E2 & E3 & E4 & E5 & E6).
  assert (Hok' : phase_ok (app (handle ui e)))
    by (apply (phase_ok_ext (app ui)); assumption).
  destruct (step_of_handler ui e Hok') as (Hinv & Hph & Hout & _).
  split; [assumption|]. split.
  - rewrite Hph. apply phase_ext; assumption.
  - rewrite Hout. assumption.
Qed.

Lemma ctl_same_refl (s : State) : ctl_same s s.
Proof. unfold ctl_same. repeat split. Qed.

(** The handlers of the edit operations leave the pipeline alone. *)
Lemma ctl_split (g1 g2 : string) (s : State) :
  ctl_same s (handleSplitClip g1 g2 s).
Proof.
  unfold handleSplitClip.
  destruct (truthy (selectedClipId s)); [|apply ctl_same_refl].
  destruct (find_clip _ _); [|apply ctl_same_refl].
  destruct (leb _ _ || geb _ _); [apply ctl_same_refl|].
  unfold ctl_same. simpl. repeat split.
Qed.

Lemma ctl_delete (cid : string) (s : State) :
  ctl_same s (handleDeleteClip cid s).
Proof.
  unfold handleDeleteClip, ctl_same.
  destruct (option_string_eqb _ _); simpl; repeat split.
Qed.

Create HintDb ctl.
#[local] Hint Resolve ctl_same_refl ctl_split ctl_delete : ctl.

Ltac ctl_done :=
  first [solve [auto with ctl]
        |apply ctl_same_refl
        |apply ctl_split
        |apply ctl_delete
        |unfold ctl_same; simpl; repeat split; reflexivity].

Lemma ctl_edit (ui : UI) (e : Event) :
  match e with
  | ClickSplit _ _ | ClickClearAll | MediaLoaded _ _ _ _ _ _ | KeyCopy
  | KeyPaste _ | KeyDelete | MouseDown _ _ _ | MouseMove _ | MouseUp
  | ContextDelete _ | SelectResolution _ | CustomResolution _
  | DataAvailable _ => True
  | _ => False
  end ->
  ctl_same (app ui) (app (handle ui e)).
Proof.
  destruct e; try contradiction; intros _; simpl.
  - destruct (negb _ || _); ctl_done.
  - unfold unless_exporting. destruct (isExporting (app ui)); ctl_done.
  - ctl_done.
  - unfold copy. destruct (truthy _); [|ctl_done].
    destruct (find_clip _ _); ctl_done.
  - unfold paste. destruct (clipboardRef (app ui)); ctl_done.
  - unfold deleteKey. destruct (truthy _); ctl_done.
  - destruct (nth_error _ _); ctl_done.
  - destruct (Timeline.handleMouseMove _ _ _) as [[cid u]|]; ctl_done.
  - ctl_done.
  - destruct (nth_error _ _); ctl_done.
  - unfold unless_exporting. destruct (isExporting (app ui)); ctl_done.
  - ctl_done.
  - destruct (mediaRecorderRef (app ui)) as [r|]; [|ctl_done].
    unfold ondataavailable.
    destruct (rec_state r); [destruct (stop_queued r)|];
      destruct (0 <? blob_size data)%nat; ctl_done.
Qed.

(** A step whose handler acts on an idle pipeline and leaves it idle. *)
Lemma idle_step (ui : UI) (e : Event) :
  reachable_inv (app ui) ->
  isExporting (app ui) = false ->
  isExporting (app (handle ui e)) = false ->
  exportTimeout (app (handle ui e)) = exportTimeout (app ui) ->
  mediaRecorderRef (app (handle ui e)) = mediaRecorderRef (app ui) ->
  outputs (app (handle ui e)) = outputs (app ui) ->
  reachable_inv (app (step ui e)) /\
  phase (app (step ui e)) = phase (app ui) /\
  outputs (app (step ui e)) = outputs (app ui).
Proof.
  intros [Hd Hok] He He' Et Er Eo.
  destruct (idle_inv _ Hok He) as [Ht Hq].
  assert (Hok' : phase_ok (app (handle ui e))).
  { apply idle_phase_ok; [assumption|congruence|].
    unfold quiet in *. rewrite Er. assumption. }
  destruct (step_of_handler ui e Hok') as (Hinv & Hph & Hout & _).
  split; [assumption|]. split.
  - rewrite Hph, (phase_idle _ He), (phase_idle _ He'). reflexivity.
  - congruence.
Qed.

Lemma recording_recorder (s : State) :
  phase s = Recording ->
  exists r, mediaRecorderRef s = Some r /\ rec_state r = recording /\
            isExporting s = true /\ exportTimeout s = None.
Proof.
  unfold phase. intro P.
  destruct (isExporting s); [|discriminate]. simpl in P.
  destruct (exportTimeout s); [discriminate|].
  destruct (mediaRecorderRef s) as [r|]; [|discriminate].
  exists r. destruct (rec_state r) eqn:R.
  - destruct (stop_queued r); discriminate.
  - repeat split.
Qed.

(** The settle timeout starts the recording when the canvas and the audio
    destination exist and the platform supports the chosen container type;
    otherwise it only clears itself. *)
Lemma exportStart_cases (ok : bool) (sup : string -> bool) (s : State)
    (res : Resolution) :
  exportTimeout s = Some res ->
  exportStart ok sup s =
  if ok && sup (chooseMimeType sup)
  then setIsPlaying true
         (setMediaRecorderRef
            (Some {| rec_state := recording;
                     mimeType := chooseMimeType sup;
                     videoBitsPerSecond := chooseBitrate res;
                     rec_resolution := res; stop_queued := false |})
            (setExportTimeout None s))
  else setExportTimeout None s.
Proof.
  intro H. unfold exportStart. rewrite H.
  destruct ok; [|reflexivity].
  destruct (sup (chooseMimeType sup)); reflexivity.
Qed.

Lemma geb_refl (x : Q) : geb x x = true.
Proof. apply geb_spec. apply Qle_refl. Qed.

(** The frame that ends the recording: the transport stops on the timeline
    duration and the watcher stops the encoder in the same step. *)
Lemma frame_stop (ui : UI) (time p : Q) :
  reachable_inv (app ui) ->
  isPlaying (app ui) = true ->
  isExporting (app ui) = true ->
  previousTimeRef (app ui) = Some p ->
  totalDuration (app ui) <= currentTime (app ui) [+] (time [-] p) [/] 1000 ->
  let s' := app (step ui (Frame time)) in
  reachable_inv s' /\
  phase (app ui) = Recording /\ phase s' = Finalizing /\
  outputs s' = EncoderStop (currentTime s') (totalDuration s') :: outputs (app ui) /\
  isExporting s' = true /\ isPlaying s' = false /\
  currentTime s' = totalDuration s' /\
  recordedChunksRef s' = recordedChunksRef (app ui).
Proof.
  intros [Hd Hok] Hplay Hexp Hprev Hend s'.
  destruct (playing_phase _ Hok Hplay) as [[He _]|[_ P]]; [congruence|].
  destruct (recording_recorder _ P) as (r & Hr & Hrec & _ & Hto).
  set (h := setPreviousTimeRef (Some time)
              (setCurrentTime (totalDuration (app ui))
                 (setIsPlaying false (app ui)))).
  assert (Hh : app (handle ui (Frame time)) = h).
  { simpl. rewrite Hplay. unfold animate. rewrite Hprev.
    rewrite (advance_end _ _ Hend), Hexp. reflexivity. }
  destruct (settled_fields h) as (Ec & Ee & Ep & Et & Eo & Er & Eout & Ech & Edur).
  change (clips h) with (clips (app ui)) in *.
  change (isExporting h) with (isExporting (app ui)) in *.
  change (isPlaying h) with false in *.
  change (currentTime h) with (totalDuration (app ui)) in *.
  change (exportTimeout h) with (exportTimeout (app ui)) in *.
  change (mediaRecorderRef h) with (mediaRecorderRef (app ui)) in *.
  change (outputs h) with (outputs (app ui)) in *.
  change (recordedChunksRef h) with (recordedChunksRef (app ui)) in *.
  rewrite <- Hd in Edur.
  assert (Hs' : s' =
    emit (EncoderStop (totalDuration (app ui)) (totalDuration (app ui)))
      (setMediaRecorderRef
         (Some {| rec_state := inactive; mimeType := mimeType r;
                  videoBitsPerSecond := videoBitsPerSecond r;
                  rec_resolution := rec_resolution r;
                  stop_queued := true |}) (settled h))).
  { subst s'. unfold step. cbn [app]. rewrite Hh. unfold commit.
    fold (settled h).
    assert (Hdeps : watch_deps_changed (app ui) (settled h) = true).
    { unfold watch_deps_changed. rewrite Ee, Ep, Hplay. simpl.
      rewrite eqb_reflx. reflexivity. }
    rewrite Hdeps. unfold exportWatch.
    rewrite Ee, Ep, Et, Edur, Hexp, geb_refl. simpl.
    unfold recorder_stop. rewrite Er, Hr, Hrec, Et, Edur. reflexivity. }
  rewrite Hs'. clear Hs' s'.
  split.
  { constructor.
    - simpl. reflexivity.
    - unfold phase_ok, phase. simpl. rewrite Hexp, Hto. simpl. reflexivity. }
  split; [assumption|].
  split.
  { unfold phase. simpl. rewrite Hexp, Hto. reflexivity. }
  simpl. rewrite <- Hd.
  repeat split; first [reflexivity|assumption].
Qed.

Lemma queued_finalizing (s : State) (r : MediaRecorder) :
  phase_ok s -> mediaRecorderRef s = Some r -> stop_queued r = true ->
  phase s = Finalizing /\ rec_state r = inactive /\
  isExporting s = true /\ exportTimeout s = None.
Proof.
  unfold phase_ok, phase, quiet. intros Hok Hr Hq. rewrite Hr in *.
  destruct (isExporting s); simpl in *.
  - destruct (exportTimeout s).
    + destruct Hok as (_ & _ & _ & H). congruence.
    + destruct (rec_state r).
      * rewrite Hq in *. repeat split.
      * destruct Hok as [_ H]. specialize (H r eq_refl). congruence.
  - destruct Hok as (_ & _ & H). congruence.
Qed.

Lemma preparing_inv (s : State) (res : Resolution) :
  phase_ok s -> exportTimeout s = Some res ->
  phase s = Preparing /\ isExporting s = true /\
  isPlaying s = false /\ currentTime s = 0 /\ quiet s.
Proof.
  unfold phase_ok, phase. intros Hok Ht. rewrite Ht in *.
  destruct (isExporting s); simpl in *.
  - destruct Hok as (H1 & H2 & H3). repeat split; assumption.
  - destruct Hok as [H _]. discriminate.
Qed.

Ltac stay_by H :=
  destruct H as (?Hinv & ?Hph & ?Hout);
  split; [assumption|apply es_stay; assumption].

(** Every step of the editor preserves the invariant and is a step of the
    export pipeline. *)
Lemma step_export (ui : UI) (e : Event) :
  reachable_inv (app ui) ->
  reachable_inv (app (step ui e)) /\
  export_step (app ui) (app (step ui e)).
Proof.
  intro Hinv0. pose proof Hinv0 as [Hd Hok].
  destruct e as [time| | |g1 g2| |gid url f tid ty meta| |gid| |n m x|x|
                 |x|n|o|res| |ok sup|data|now].
  - (* Frame *)
    destruct (isPlaying (app ui)) eqn:Hplay.
    2:{ assert (C : ctl_same (app ui) (app (handle ui (Frame time)))).
        { simpl. rewrite Hplay. apply ctl_same_refl. }
        stay_by (neutral_step ui (Frame time) Hinv0 C). }
    destruct (previousTimeRef (app ui)) as [p|] eqn:Hprev.
    2:{ assert (C : ctl_same (app ui) (app (handle ui (Frame time)))).
        { simpl. rewrite Hplay. unfold animate. rewrite Hprev. ctl_done. }
        stay_by (neutral_step ui (Frame time) Hinv0 C). }
    destruct (Qlt_le_dec (currentTime (app ui) [+] (time [-] p) [/] 1000)
                         (totalDuration (app ui))) as [Hlt|Hge].
    + assert (Hh : app (handle ui (Frame time)) =
                   setPreviousTimeRef (Some time)
                     (setCurrentTime (currentTime (app ui) [+] (time [-] p) [/] 1000)
                        (app ui))).
      { simpl. rewrite Hplay. unfold animate. rewrite Hprev.
        rewrite (advance_before_end _ _ Hlt). reflexivity. }
      assert (Hok' : phase_ok (app (handle ui (Frame time)))).
      { rewrite Hh. apply (phase_ok_playing (app ui)); auto. }
      destruct (step_of_handler ui (Frame time) Hok')
        as (Hinv & Hph & Hout & _).
      split; [assumption|]. apply es_stay.
      * rewrite Hph, Hh. reflexivity.
      * rewrite Hout, Hh. reflexivity.
    + destruct (isExporting (app ui)) eqn:Hexp.
      * destruct (frame_stop ui time p Hinv0 Hplay Hexp Hprev Hge)
          as (Hinv & P & P' & Hout & He & Hp & Hc & Hch).
        split; [assumption|]. apply es_stop; assumption.
      * assert (Hh : app (handle ui (Frame time)) =
                     setPreviousTimeRef (Some time)
                       (setCurrentTime 0 (setIsPlaying false (app ui)))).
        { simpl. rewrite Hplay. unfold animate. rewrite Hprev.
          rewrite (advance_end _ _ Hge), Hexp. reflexivity. }
        assert (I : reachable_inv (app (step ui (Frame time))) /\
                    phase (app (step ui (Frame time))) = phase (app ui) /\
                    outputs (app (step ui (Frame time))) = outputs (app ui)).
        { apply idle_step; try assumption; rewrite Hh; auto. }
        stay_by I.
  - (* ClickBack *)
    destruct (isExporting (app ui)) eqn:Hexp.
    + assert (C : ctl_same (app ui) (app (handle ui ClickBack))).
      { simpl. unfold unless_exporting. rewrite Hexp. apply ctl_same_refl. }
      stay_by (neutral_step ui ClickBack Hinv0 C).
    + assert (Hh : app (handle ui ClickBack) = setCurrentTime 0 (app ui)).
      { simpl. unfold unless_exporting. rewrite Hexp. reflexivity. }
      assert (I : reachable_inv (app (step ui ClickBack)) /\
                  phase (app (step ui ClickBack)) = phase (app ui) /\
                  outputs (app (step ui ClickBack)) = outputs (app ui)).
      { apply idle_step; try assumption; rewrite Hh; auto. }
      stay_by I.
  - (* ClickPlay *)
    destruct (isExporting (app ui)) eqn:Hexp.
    + assert (C : ctl_same (app ui) (app (handle ui ClickPlay))).
      { simpl. unfold unless_exporting. rewrite Hexp. apply ctl_same_refl. }
      stay_by (neutral_step ui ClickPlay Hinv0 C).
    + assert (Hh : app (handle ui ClickPlay) = togglePlay (app ui)).
      { simpl. unfold unless_exporting. rewrite Hexp. reflexivity. }
      assert (I : reachable_inv (app (step ui ClickPlay)) /\
                  phase (app (step ui ClickPlay)) = phase (app ui) /\
                  outputs (app (step ui ClickPlay)) = outputs (app ui)).
      { apply idle_step; try assumption; rewrite Hh; auto. }
      stay_by I.
  - stay_by (neutral_step ui _ Hinv0 (ctl_edit ui (ClickSplit g1 g2) I)).
  - stay_by (neutral_step ui _ Hinv0 (ctl_edit ui ClickClearAll I)).
  - stay_by (neutral_step ui _ Hinv0
               (ctl_edit ui (MediaLoaded gid url f tid ty meta) I)).
  - stay_by (neutral_step ui _ Hinv0 (ctl_edit ui KeyCopy I)).
  - stay_by (neutral_step ui _ Hinv0 (ctl_edit ui (KeyPaste gid) I)).
  - stay_by (neutral_step ui _ Hinv0 (ctl_edit ui KeyDelete I)).
  - stay_by (neutral_step ui _ Hinv0 (ctl_edit ui (MouseDown n m x) I)).
  - stay_by (neutral_step ui _ Hinv0 (ctl_edit ui (MouseMove x) I)).
  - stay_by (neutral_step ui _ Hinv0 (ctl_edit ui MouseUp I)).
  - (* TimelineClick *)
    destruct (Timeline.handleTimelineClick (dragState ui) x) as [t|] eqn:Hc.
    2:{ assert (C : ctl_same (app ui) (app (handle ui (TimelineClick x)))).
        { simpl. rewrite Hc. apply ctl_same_refl. }
        stay_by (neutral_step ui (TimelineClick x) Hinv0 C). }
    destruct (isExporting (app ui)) eqn:Hexp.
    + assert (C : ctl_same (app ui) (app (handle ui (TimelineClick x)))).
      { simpl. rewrite Hc. simpl. unfold onSeek. simpl. rewrite Hexp.
        ctl_done. }
      stay_by (neutral_step ui (TimelineClick x) Hinv0 C).
    + assert (Hh : app (handle ui (TimelineClick x)) =
                   setCurrentTime t (setSelectedClipId None (app ui))).
      { simpl. rewrite Hc. simpl. unfold onSeek. simpl. rewrite Hexp.
        reflexivity. }
      assert (I : reachable_inv (app (step ui (TimelineClick x))) /\
                  phase (app (step ui (TimelineClick x))) = phase (app ui) /\
                  outputs (app (step ui (TimelineClick x))) = outputs (app ui)).
      { apply idle_step; try assumption; rewrite Hh; auto. }
      stay_by I.
  - stay_by (neutral_step ui _ Hinv0 (ctl_edit ui (ContextDelete n) I)).
  - stay_by (neutral_step ui _ Hinv0 (ctl_edit ui (SelectResolution o) I)).
  - stay_by (neutral_step ui _ Hinv0 (ctl_edit ui (CustomResolution res) I)).
  - (* ClickExport *)
    destruct (isExporting (app ui)) eqn:Hexp.
    + assert (C : ctl_same (app ui) (app (handle ui ClickExport))).
      { simpl. unfold handleExport. rewrite Hexp. apply ctl_same_refl. }
      stay_by (neutral_step ui ClickExport Hinv0 C).
    + destruct (idle_inv _ Hok Hexp) as [Hto Hq].
      set (h := setExportTimeout (Some (currentResolution (app ui)))
                  (setRecordedChunksRef []
                     (setIsExporting true
                        (setCurrentTime 0 (setIsPlaying false (app ui)))))).
      assert (Hh : app (handle ui ClickExport) = h).
      { simpl. unfold handleExport. rewrite Hexp. reflexivity. }
      assert (Hok' : phase_ok (app (handle ui ClickExport))).
      { rewrite Hh. unfold phase_ok, phase. simpl. repeat split. exact Hq. }
      destruct (step_of_handler ui ClickExport Hok')
        as (Hinv & Hph & Hout & Hch & _).
      split; [assumption|]. rewrite Hh in Hph, Hout, Hch.
      apply es_start.
      * apply phase_idle. assumption.
      * rewrite Hph. reflexivity.
      * rewrite Hout. reflexivity.
      * rewrite Hch. reflexivity.
  - (* ExportTimeout *)
    destruct (exportTimeout (app ui)) as [res|] eqn:Hto.
    2:{ assert (C : ctl_same (app ui) (app (handle ui (ExportTimeout ok sup)))).
        { simpl. unfold exportStart. rewrite Hto. apply ctl_same_refl. }
        stay_by (neutral_step ui (ExportTimeout ok sup) Hinv0 C). }
    destruct (preparing_inv _ res Hok Hto) as (P & Hexp & Hplay & Hct & Hq).
    pose proof (exportStart_cases ok sup (app ui) res Hto) as Hcases.
    destruct (ok && sup (chooseMimeType sup)).
    + set (rec := {| rec_state := recording; mimeType := chooseMimeType sup;
                     videoBitsPerSecond := chooseBitrate res;
                     rec_resolution := res; stop_queued := false |}).
      set (h := setIsPlaying true
                  (setMediaRecorderRef (Some rec)
                     (setExportTimeout None (app ui)))).
      assert (Hh : app (handle ui (ExportTimeout ok sup)) = h).
      { exact Hcases. }
      assert (Ph : phase h = Recording).
      { unfold phase. simpl. rewrite Hexp. reflexivity. }
      assert (Hok' : phase_ok (app (handle ui (ExportTimeout ok sup)))).
      { rewrite Hh. unfold phase_ok. rewrite Ph. simpl. split; [reflexivity|].
        intros r Hr. injection Hr as <-. reflexivity. }
      destruct (step_of_handler ui (ExportTimeout ok sup) Hok')
        as (Hinv & Hph & Hout & _).
      split; [assumption|]. rewrite Hh in Hph, Hout.
      apply es_record; [assumption|congruence|rewrite Hout; reflexivity].
    + set (h := setExportTimeout None (app ui)).
      assert (Hh : app (handle ui (ExportTimeout ok sup)) = h).
      { exact Hcases. }
      assert (Ph : phase h = Stalled).
      { unfold phase. simpl. rewrite Hexp. simpl. unfold quiet in Hq.
        destruct (mediaRecorderRef (app ui)) as [r|]; [|reflexivity].
        destruct Hq as [-> ->]. reflexivity. }
      assert (Hok' : phase_ok (app (handle ui (ExportTimeout ok sup)))).
      { rewrite Hh. unfold phase_ok. rewrite Ph. simpl. split; assumption. }
      destruct (step_of_handler ui (ExportTimeout ok sup) Hok')
        as (Hinv & Hph & Hout & _).
      split; [assumption|]. rewrite Hh in Hph, Hout.
      apply es_stall; [assumption|congruence|rewrite Hout; reflexivity].
  - stay_by (neutral_step ui _ Hinv0 (ctl_edit ui (DataAvailable data) I)).
  - (* RecorderStopped *)
    destruct (mediaRecorderRef (app ui)) as [r|] eqn:Hr.
    2:{ assert (C : ctl_same (app ui) (app (handle ui (RecorderStopped now)))).
        { simpl. rewrite Hr. apply ctl_same_refl. }
        stay_by (neutral_step ui (RecorderStopped now) Hinv0 C). }
    destruct (stop_queued r) eqn:Hq.
    2:{ assert (C : ctl_same (app ui) (app (handle ui (RecorderStopped now)))).
        { simpl. rewrite Hr, Hq. apply ctl_same_refl. }
        stay_by (neutral_step ui (RecorderStopped now) Hinv0 C). }
    destruct (queued_finalizing _ r Hok Hr Hq) as (P & Hrs & Hexp & Hto).
    set (r' := {| rec_state := rec_state r; mimeType := mimeType r;
                  videoBitsPerSecond := videoBitsPerSecond r;
                  rec_resolution := rec_resolution r;
                  stop_queued := false |}).
    set (h := onstop now r (setMediaRecorderRef (Some r') (app ui))).
    assert (Hh : app (handle ui (RecorderStopped now)) = h).
    { simpl. rewrite Hr, Hq. reflexivity. }
    assert (Hok' : phase_ok (app (handle ui (RecorderStopped now)))).
    { rewrite Hh. apply idle_phase_ok; simpl; try assumption; try reflexivity.
      unfold quiet. simpl. split; [assumption|reflexivity]. }
    destruct (step_of_handler ui (RecorderStopped now) Hok')
      as (Hinv & Hph & Hout & Hch & He & Hct).
    split; [assumption|]. rewrite Hh in Hph, Hout, Hch, He, Hct.
    eapply es_deliver.
    + assumption.
    + rewrite Hph. apply phase_idle. reflexivity.
    + rewrite Hout. simpl. reflexivity.
    + reflexivity.
    + rewrite He. reflexivity.
    + rewrite Hct. reflexivity.
Qed.

(** *** Reachable states *)

Lemma initial_inv : reachable_inv (app initialUI).
Proof.
  constructor; [reflexivity|]. unfold phase_ok, phase, quiet. simpl. tauto.
Qed.

Lemma run_inv (es : list Event) :
  forall ui, reachable_inv (app ui) -> reachable_inv (app (run ui es)).
Proof.
  induction es as [|e es IH]; intros ui Hinv; simpl; [assumption|].
  apply IH. apply step_export. assumption.
Qed.

Lemma run_app (ui : UI) (es es' : list Event) :
  run ui (es ++ es') = run (run ui es) es'.
Proof. unfold run. apply fold_left_app. Qed.

(** *** Counting stops and deliveries *)





(** *** A recording runs to its end *)














(** No handler changes the clips together with the transport: the export
    watcher never sees a new transport state next to a total duration that
    is about to change. *)
Lemma handler_separates (ui : UI) (e : Event) :
  clips (app (handle ui e)) = clips (app ui) \/
  (isExporting (app (handle ui e)) = isExporting (app ui) /\
   isPlaying (app (handle ui e)) = isPlaying (app ui) /\
   currentTime (app (handle ui e)) = currentTime (app ui)).
Proof.
  destruct e as [time| | |g1 g2| |gid url f tid ty meta| |gid| |n m x|x|
                 |x|n|o|res| |ok sup|data|now];
    try (right;
         match goal with
         | |- context [handle ui ?ev] =>
             destruct (ctl_edit ui ev I) as (E1 & _ & _ & E2 & E3 & _)
         end;
         repeat split; assumption);
    left; simpl.
  - destruct (isPlaying (app ui)); [|reflexivity].
    unfold animate, advance.
    destruct (previousTimeRef (app ui)); [|reflexivity].
    destruct (geb _ _); [destruct (isExporting (app ui))|]; reflexivity.
  - unfold unless_exporting. destruct (isExporting (app ui)); reflexivity.
  - unfold unless_exporting. destruct (isExporting (app ui)); reflexivity.
  - destruct (Timeline.handleTimelineClick _ _); [|reflexivity].
    simpl. unfold onSeek. destruct (isExporting _); reflexivity.
  - unfold handleExport. destruct (isExporting (app ui)); reflexivity.
  - unfold exportStart. destruct (exportTimeout (app ui)); [|reflexivity].
    destruct ok; [destruct (sup _)|]; reflexivity.
  - destruct (mediaRecorderRef (app ui)) as [r|]; [|reflexivity].
    destruct (stop_queued r); reflexivity.
Qed.

(** * Further properties of the code *)

Import More.

(** ** The source resolution *)

Lemma candidate_unique (c : Clip) (w h w' h' : Z) :
  candidate c w h -> candidate c w' h' -> w' = w /\ h' = h.
Proof.
  intros (_ & Hw & Hh & _) (_ & Hw' & Hh' & _). split; congruence.
Qed.

(** One step of the scan either keeps the maximum or replaces it by the
    dimensions of a candidate with a strictly larger area. *)
Lemma source_step_cases (mw mh : Z) (found : bool) (a : Clip) :
  (source_step (mw, mh, found) a = (mw, mh, found) /\
   forall w h, candidate a w h -> (w * h <= mw * mh)%Z) \/
  (exists w h, source_step (mw, mh, found) a = (w, h, true) /\
               candidate a w h /\ (mw * mh < w * h)%Z).
Proof.
  unfold source_step, candidate.
  destruct (type a) eqn:Ht.
  2:{ left. split; [reflexivity|]. intros w h (H & _). discriminate. }
  destruct (width a) as [w|] eqn:Hw.
  2:{ left. split; [reflexivity|]. intros w h (_ & H & _). discriminate. }
  destruct (height a) as [h|] eqn:Hh.
  2:{ left. split; [reflexivity|]. intros w' h' (_ & _ & H & _). discriminate. }
  destruct (w =? 0)%Z eqn:Ew.
  { left. split; [reflexivity|]. intros w' h' (_ & H & _ & Hn & _).
    injection H as <-. apply Z.eqb_eq in Ew. contradiction. }
  destruct (h =? 0)%Z eqn:Eh.
  { left. split; [reflexivity|]. intros w' h' (_ & _ & H & _ & Hn).
    injection H as <-. apply Z.eqb_eq in Eh. contradiction. }
  simpl. apply Z.eqb_neq in Ew, Eh.
  destruct (mw * mh <? w * h)%Z eqn:B.
  - right. exists w, h. apply Z.ltb_lt in B. repeat split; assumption.
  - left. split; [reflexivity|]. intros w' h' (_ & H1 & H2 & _).
    injection H1 as <-. injection H2 as <-. apply Z.ltb_ge in B. assumption.
Qed.

Lemma source_fold (l : list Clip) :
  forall mw mh found,
  exists rw rh rf,
    fold_left source_step l (mw, mh, found) = (rw, rh, rf) /\
    (mw * mh <= rw * rh)%Z /\
    (forall c w h, In c l -> candidate c w h -> (w * h <= rw * rh)%Z) /\
    ((rf = found /\ rw = mw /\ rh = mh) \/
     (rf = true /\
      exists l1 c l2,
        l = l1 ++ c :: l2 /\ candidate c rw rh /\ (mw * mh < rw * rh)%Z /\
        forall c' w h, In c' l1 -> candidate c' w h -> (w * h < rw * rh)%Z)).
Proof.
  induction l as [|a l IH]; intros mw mh found.
  - exists mw, mh, found. split; [reflexivity|]. split; [lia|].
    split; [intros c w h []|]. left. repeat split.
  - change (fold_left source_step (a :: l) (mw, mh, found))
      with (fold_left source_step l (source_step (mw, mh, found) a)).
    destruct (source_step_cases mw mh found a) as [[E Ha]|(w & h & E & Ha & Hlt)];
      rewrite E.
    + destruct (IH mw mh found) as (rw & rh & rf & F & Hle & Hall & Hcase).
      exists rw, rh, rf. split; [exact F|]. split; [exact Hle|]. split.
      * intros c w h [<-|Hin] Hc; [specialize (Ha w h Hc); lia|].
        apply (Hall c w h Hin Hc).
      * destruct Hcase as [Hsame|(Hf & l1 & c & l2 & El & Hc & Hgt & Hbefore)];
          [left; exact Hsame|].
        right. split; [exact Hf|].
        exists (a :: l1), c, l2. split; [rewrite El; reflexivity|].
        split; [exact Hc|]. split; [exact Hgt|].
        intros c' w h [<-|Hin] Hc'; [specialize (Ha w h Hc'); lia|].
        apply (Hbefore c' w h Hin Hc').
    + destruct (IH w h true) as (rw & rh & rf & F & Hle & Hall & Hcase).
      exists rw, rh, rf. split; [exact F|]. split; [lia|]. split.
      * intros c w' h' [<-|Hin] Hc.
        -- destruct (candidate_unique _ _ _ _ _ Ha Hc) as [-> ->]. exact Hle.
        -- apply (Hall c w' h' Hin Hc).
      * right.
        destruct Hcase as [(Hf & -> & ->)|(Hf & l1 & c & l2 & El & Hc & Hgt & Hbefore)].
        -- split; [exact Hf|]. exists [], a, l. split; [reflexivity|].
           split; [exact Ha|]. split; [exact Hlt|]. intros c' w' h' [].
        -- split; [exact Hf|]. exists (a :: l1), c, l2.
           split; [rewrite El; reflexivity|]. split; [exact Hc|].
           split; [lia|].
           intros c' w' h' [<-|Hin] Hc'.
           ++ destruct (candidate_unique _ _ _ _ _ Ha Hc') as [-> ->]. exact Hgt.
           ++ apply (Hbefore c' w' h' Hin Hc').
Qed.

(** X1.  In [source] mode the resolution is that of the first video clip,
    in model order, whose area is the largest among the video clips with
    known non-zero dimensions; when no such clip has a positive area it is
    1280 x 720. *)
Theorem source_resolution (s : State) :
  resolutionState s = res_source ->
  let r := currentResolution s in
  (forall c w h, In c (clips s) -> candidate c w h -> (w * h <= area r)%Z) /\
  ((r = default_resolution /\
    forall c w h, In c (clips s) -> candidate c w h -> (w * h <= 0)%Z) \/
   (exists l1 c l2,
      clips s = l1 ++ c :: l2 /\
      candidate c (res_width r) (res_height r) /\ (0 < area r)%Z /\
      forall c' w h, In c' l1 -> candidate c' w h -> (w * h < area r)%Z)).
Proof.
  intros Hmode r. subst r. unfold currentResolution, area. rewrite Hmode.
  destruct (source_fold (clips s) 0%Z 0%Z false)
    as (rw & rh & rf & F & Hle & Hall & Hcase).
  rewrite F.
  destruct Hcase as [(-> & -> & ->)|(-> & l1 & c & l2 & El & Hc & Hgt & Hbefore)].
  - simpl. split.
    + intros c w h Hin Hc. specialize (Hall c w h Hin Hc). simpl in Hall. lia.
    + left. split; [reflexivity|]. intros c w h Hin Hc.
      specialize (Hall c w h Hin Hc). simpl in Hall. lia.
  - simpl. split; [exact Hall|]. right.
    exists l1, c, l2. split; [exact El|]. split; [exact Hc|].
    split; [simpl in Hgt; lia|exact Hbefore].
Qed.

Lemma source_resolution_witness :
  (1920 * 1080 <=
   area (currentResolution
           (setResolutionState res_source
              (setClips [Scenario.scenario_clip; Scenario.trim_clip] initial))))%Z.
Proof.
  apply (proj1 (source_resolution
                  (setResolutionState res_source
                     (setClips [Scenario.scenario_clip; Scenario.trim_clip]
                        initial)) eq_refl) Scenario.trim_clip 1920%Z 1080%Z).
  - right. left. reflexivity.
  - repeat split; discriminate.
Defined.

(** ** The container and the bit rate of an export *)

(** The settle timeout picks the first type of the preference order that
    the platform supports, the last one when it supports none of the
    probed ones. *)
Lemma chooseMimeType_first (sup : string -> bool) :
  exists before after,
    mime_candidates = before ++ chooseMimeType sup :: after /\
    (forall m, In m before -> sup m = false) /\
    (sup (chooseMimeType sup) = true \/ after = []).
Proof.
  unfold chooseMimeType, mime_candidates.
  destruct (sup "video/mp4"%string) eqn:E1.
  { exists [], ["video/mp4;codecs=avc1.42E01E,mp4a.40.2";
                "video/webm;codecs=h264"; "video/webm;codecs=vp9"]%string.
    split; [reflexivity|]. split; [intros m []|left; exact E1]. }
  destruct (sup "video/mp4;codecs=avc1.42E01E,mp4a.40.2"%string) eqn:E2.
  { exists ["video/mp4"%string],
           ["video/webm;codecs=h264"; "video/webm;codecs=vp9"]%string.
    split; [reflexivity|].
    split; [intros m [<-|[]]; exact E1|left; exact E2]. }
  destruct (sup "video/webm;codecs=h264"%string) eqn:E3.
  { exists ["video/mp4"; "video/mp4;codecs=avc1.42E01E,mp4a.40.2"]%string,
           ["video/webm;codecs=vp9"%string].
    split; [reflexivity|].
    split; [intros m [<-|[<-|[]]]; assumption|left; exact E3]. }
  exists ["video/mp4"; "video/mp4;codecs=avc1.42E01E,mp4a.40.2";
          "video/webm;codecs=h264"]%string, [].
  split; [reflexivity|].
  split; [intros m [<-|[<-|[<-|[]]]]; assumption|right; reflexivity].
Qed.

Lemma chooseMimeType_ext (sup : string -> bool) :
  includes "mp4" (chooseMimeType sup) =
  sup "video/mp4"%string
  || sup "video/mp4;codecs=avc1.42E01E,mp4a.40.2"%string.
Proof.
  unfold chooseMimeType.
  destruct (sup "video/mp4"%string); [reflexivity|].
  destruct (sup "video/mp4;codecs=avc1.42E01E,mp4a.40.2"%string);
    [reflexivity|].
  destruct (sup "video/webm;codecs=h264"%string); reflexivity.
Qed.

(** X2.  The settle timeout picks the first container type of the
    preference order that the platform supports, or VP9 WebM when it
    supports none of the three probed types.  When the platform supports
    the type picked, a recorder of that type is created and started and
    playback begins; the file delivered at its stop carries that type in
    lower case and is named [.mp4] exactly when one of the two MP4 types is
    supported and [.webm] otherwise.  When the platform supports none of
    the four types, the constructor refuses the type: no recorder is
    stored and playback does not begin. *)
Theorem export_container (sup : string -> bool) (s s' : State)
    (res : Resolution) (now : Z) :
  exportTimeout s = Some res ->
  let m := chooseMimeType sup in
  (exists before after,
      mime_candidates = before ++ m :: after /\
      (forall k, In k before -> sup k = false) /\
      (sup m = true \/ after = [])) /\
  (sup m = true ->
   exists rec d,
     exportStart true sup s
       = setIsPlaying true
           (setMediaRecorderRef (Some rec) (setExportTimeout None s)) /\
     mimeType rec = m /\ rec_state rec = recording /\
     outputs (onstop now rec s') = Delivered d :: outputs s' /\
     dl_type d = blob_type m /\
     (dl_ext d = "mp4"%string <->
        sup "video/mp4"%string = true \/
        sup "video/mp4;codecs=avc1.42E01E,mp4a.40.2"%string = true) /\
     (dl_ext d = "webm"%string <->
        sup "video/mp4"%string = false /\
        sup "video/mp4;codecs=avc1.42E01E,mp4a.40.2"%string = false)) /\
  (sup m = false ->
   (forall k, In k mime_candidates -> sup k = false) /\
   exportStart true sup s = setExportTimeout None s) /\
  map blob_type mime_candidates
  = [ "video/mp4"; "video/mp4;codecs=avc1.42e01e,mp4a.40.2";
      "video/webm;codecs=h264"; "video/webm;codecs=vp9" ]%string.
Proof.
  intros H m.
  pose proof (exportStart_cases true sup s res H) as Hcases.
  cbn [andb] in Hcases. fold m in Hcases.
  split; [apply chooseMimeType_first|].
  split; [|split; [|reflexivity]].
  - intro Hs. rewrite Hs in Hcases.
    eexists. eexists. split; [exact Hcases|].
    split; [reflexivity|]. split; [reflexivity|].
    split; [reflexivity|]. split; [reflexivity|].
    cbn [dl_ext mimeType]. fold m. unfold m.
    rewrite chooseMimeType_ext.
    destruct (sup "video/mp4"%string);
      destruct (sup "video/mp4;codecs=avc1.42E01E,mp4a.40.2"%string);
      cbn [orb]; split; split; intros; auto; try discriminate;
      intuition discriminate.
  - intro Hs. rewrite Hs in Hcases. split; [|exact Hcases].
    destruct (chooseMimeType_first sup) as (before & after & E & Hb & Ha).
    fold m in E, Ha.
    destruct Ha as [Ha| ->]; [congruence|].
    intros k Hk. rewrite E in Hk. apply in_app_or in Hk.
    destruct Hk as [Hk|[<-|[]]]; [apply Hb; exact Hk|exact Hs].
Qed.

Lemma export_container_witness :
  exists rec d,
    mediaRecorderRef
      (exportStart true (fun m => String.eqb m "video/webm;codecs=h264")
         (handleExport initial)) = Some rec /\
    outputs (onstop 0 rec initial) = [Delivered d] /\
    dl_type d = "video/webm;codecs=h264"%string /\
    dl_ext d = "webm"%string.
Proof.
  destruct (export_container
              (fun m => String.eqb m "video/webm;codecs=h264")
              (handleExport initial) initial default_resolution 0 eq_refl)
    as (_ & Hrec & _).
  destruct (Hrec eq_refl) as (rec & d & Hs & Hm & _ & Hout & Ht & _ & Hwebm).
  exists rec, d. split; [rewrite Hs; reflexivity|].
  split; [exact Hout|]. split; [rewrite Ht; reflexivity|].
  apply Hwebm. split; reflexivity.
Defined.

(** X3.  The video bit rate grows with the pixel count of the export
    resolution and takes one of three values: 8 Mbit/s from 1920 x 1080
    pixels on, 3 Mbit/s below 1280 x 720 pixels, 5 Mbit/s in between. *)
Theorem bitrate_tiers (r1 r2 : Resolution) :
  (area r1 <= area r2)%Z ->
  (chooseBitrate r1 <= chooseBitrate r2)%Z /\
  (chooseBitrate r1 = 8000000%Z <-> (1920 * 1080 <= area r1)%Z) /\
  (chooseBitrate r1 = 3000000%Z <-> (area r1 < 1280 * 720)%Z) /\
  (chooseBitrate r1 = 5000000%Z <->
     (1280 * 720 <= area r1 < 1920 * 1080)%Z).
Proof.
  unfold chooseBitrate, area.
  set (a1 := (res_width r1 * res_height r1)%Z).
  set (a2 := (res_width r2 * res_height r2)%Z).
  intros H.
  destruct (Z.leb_spec (1920 * 1080) a1), (Z.leb_spec (1920 * 1080) a2),
           (Z.ltb_spec a1 (1280 * 720)), (Z.ltb_spec a2 (1280 * 720));
    repeat split; intros; try discriminate; try lia.
Qed.

Lemma bitrate_tiers_witness :
  (chooseBitrate default_resolution
   <= chooseBitrate {| res_width := 1920; res_height := 1080 |})%Z.
Proof.
  apply (bitrate_tiers default_resolution
           {| res_width := 1920; res_height := 1080 |}).
  vm_compute. discriminate.
Defined.

(** ** Dropping files on a track *)

(** X4.  A dropped file is added exactly when the lane is one of the three
    tracks and the MIME type of the file starts with the kind of that
    track; it is then added as a clip of that kind. *)
Theorem drop_accepts (tid : string) (f : File) (k : MediaType) :
  dropKind tid f = Some k <->
  exists t, In t tracks /\ track_id t = tid /\ track_type t = k /\
            String.prefix (mime_prefix k) (file_type f) = true.
Proof.
  unfold dropKind, tracks.
  cbn [find track_id].
  destruct (String.eqb_spec "track-1" tid) as [<-|N1].
  { cbn [track_type]. split.
    - destruct (String.prefix "video/" (file_type f)) eqn:P; [|discriminate].
      intros [= <-]. eexists. split; [left; reflexivity|].
      repeat split. exact P.
    - intros (t & [<-|[<-|[<-|[]]]] & Hid & Hty & P); try discriminate.
      cbn in Hty. subst k. cbn [mime_prefix] in P. rewrite P. reflexivity. }
  destruct (String.eqb_spec "track-2" tid) as [<-|N2].
  { cbn [track_type]. split.
    - destruct (String.prefix "audio/" (file_type f)) eqn:P; [|discriminate].
      intros [= <-]. eexists. split; [right; left; reflexivity|].
      repeat split. exact P.
    - intros (t & [<-|[<-|[<-|[]]]] & Hid & Hty & P); try discriminate.
      cbn in Hty. subst k. cbn [mime_prefix] in P. rewrite P. reflexivity. }
  destruct (String.eqb_spec "track-3" tid) as [<-|N3].
  { cbn [track_type]. split.
    - destruct (String.prefix "audio/" (file_type f)) eqn:P; [|discriminate].
      intros [= <-]. eexists. split; [right; right; left; reflexivity|].
      repeat split. exact P.
    - intros (t & [<-|[<-|[<-|[]]]] & Hid & Hty & P); try discriminate.
      cbn in Hty. subst k. cbn [mime_prefix] in P. rewrite P. reflexivity. }
  split; [discriminate|].
  intros (t & [<-|[<-|[<-|[]]]] & Hid & _); cbn in Hid; congruence.
Qed.

(** ** The selection *)

Lemma valid_same (s s' : State) :
  clips s' = clips s -> selectedClipId s' = selectedClipId s ->
  selection_valid s -> selection_valid s'.
Proof.
  intros Hc Hs Hv i Hi. rewrite Hc. apply Hv. rewrite <- Hs. exact Hi.
Qed.

Lemma valid_commit (before s : State) :
  selection_valid s -> selection_valid (commit before s).
Proof.
  apply valid_same; [apply clips_commit|apply selection_commit].
Qed.

Lemma valid_delete (cid : string) (s : State) :
  selection_valid s -> selection_valid (handleDeleteClip cid s).
Proof.
  intros Hv. unfold handleDeleteClip.
  destruct (option_string_eqb (selectedClipId s) cid) eqn:E.
  - intros i Hi. discriminate.
  - intros i Hi. cbn in Hi. destruct (Hv i Hi) as (c & Hin & Hid).
    exists c. split; [|exact Hid]. cbn. apply filter_In.
    split; [exact Hin|]. rewrite Hid. rewrite Hi in E. cbn in E.
    rewrite E. reflexivity.
Qed.

Lemma valid_split (g1 g2 : string) (s : State) :
  selection_valid s -> selection_valid (handleSplitClip g1 g2 s).
Proof.
  intros Hv. unfold handleSplitClip.
  destruct (truthy (selectedClipId s)); [|exact Hv].
  destruct (find_clip s0 (clips s)); [|exact Hv].
  destruct (leb (currentTime s) (start c [+] number 0.05)
            || geb (currentTime s) (start c [+] duration c [-] number 0.05));
    [exact Hv|].
  intros i Hi. cbn in Hi. injection Hi as <-.
  exists (splitRight g2 c (currentTime s)). split; [|reflexivity].
  cbn. apply in_or_app. right. right. left. reflexivity.
Qed.

Lemma valid_paste (gid : string) (s : State) :
  selection_valid s -> selection_valid (paste gid s).
Proof.
  intros Hv. unfold paste. destruct (clipboardRef s) as [board|]; [|exact Hv].
  intros i Hi. cbn in Hi. injection Hi as <-.
  exists (pastedClip gid (pasteStart s) board). split; [|reflexivity].
  cbn. apply in_or_app. right. left. reflexivity.
Qed.

Lemma valid_update (cid : string) (u : ClipUpdates) (s : State) :
  selection_valid s -> selection_valid (handleClipUpdate cid u s).
Proof.
  intros Hv i Hi. cbn in Hi. destruct (Hv i Hi) as (c & Hin & Hid).
  exists (if String.eqb (id c) cid then spread c u else c). split.
  - cbn. apply (in_map (fun c => if String.eqb (id c) cid
                                 then spread c u else c)). exact Hin.
  - destruct (String.eqb (id c) cid); exact Hid.
Qed.

(** The handlers that touch neither the clips nor the selection. *)
Ltac fields_unchanged :=
  repeat match goal with
         | |- context [if ?b then _ else _] => destruct b
         | |- context [match ?o with Some _ => _ | None => _ end] => destruct o
         | |- context [match ?r with recording => _ | inactive => _ end] =>
             destruct r
         end;
  reflexivity.

Ltac valid_unchanged H :=
  apply valid_same with (3 := H);
  unfold unless_exporting, togglePlay, handleExport, exportStart,
    ondataavailable, onstop, animate, advance, copy;
  fields_unchanged.

(** X5.  Every event but Clear All keeps the selection on a clip of the
    model: a selected identifier always names a clip that exists. *)
Theorem selection_stays_valid (ui : UI) (e : Event) :
  e <> ClickClearAll ->
  selection_valid (app ui) -> selection_valid (app (step ui e)).
Proof.
  intros Hne Hv. unfold step. cbn [app]. apply valid_commit.
  destruct e; cbn [handle with_app app].
  - valid_unchanged Hv.
  - valid_unchanged Hv.
  - valid_unchanged Hv.
  - destruct (negb (is_some (truthy (selectedClipId (app ui))))
              || isExporting (app ui)); [exact Hv|].
    apply valid_split, Hv.
  - contradiction Hne; reflexivity.
  - intros i Hi. cbn in Hi. destruct (Hv i Hi) as (c & Hin & Hid).
    exists c. split; [|exact Hid]. cbn. unfold addClip.
    apply in_or_app. left. exact Hin.
  - valid_unchanged Hv.
  - apply valid_paste, Hv.
  - unfold deleteKey. destruct (truthy (selectedClipId (app ui)));
      [apply valid_delete, Hv|exact Hv].
  - destruct (nth_error (clips (app ui)) n) as [clip|] eqn:En; [|exact Hv].
    cbn [app]. intros i Hi. cbn in Hi. injection Hi as <-.
    exists clip. split; [|reflexivity]. cbn. apply (nth_error_In _ _ En).
  - destruct (Timeline.handleMouseMove (dragState ui) (clips (app ui)) clientX)
      as [[cid u]|]; [|exact Hv].
    cbn [with_app app]. apply valid_update, Hv.
  - exact Hv.
  - destruct (Timeline.handleTimelineClick (dragState ui) x); [|exact Hv].
    cbn [with_app app]. intros i Hi. unfold onSeek in Hi.
    destruct (isExporting (setSelectedClipId None (app ui))); discriminate.
  - destruct (nth_error (clips (app ui)) n) as [clip|]; [|exact Hv].
    cbn [with_app app]. apply valid_delete, Hv.
  - valid_unchanged Hv.
  - valid_unchanged Hv.
  - valid_unchanged Hv.
  - valid_unchanged Hv.
  - valid_unchanged Hv.
  - valid_unchanged Hv.
Qed.

Lemma selection_stays_valid_witness :
  selection_valid
    (app (step {| app := Scenario.scenario_state;
                  dragState := Timeline.initialDragState |} KeyDelete)).
Proof.
  apply selection_stays_valid; [discriminate|].
  intros i Hi. exists Scenario.scenario_clip.
  split; [left; reflexivity|]. cbn in Hi. injection Hi as <-. reflexivity.
Defined.

(** ** Where an imported clip is placed *)

Lemma pop_cons (b : Clip) (l : list Clip) :
  pop (b :: l) = match pop l with Some m => Some m | None => Some b end.
Proof.
  unfold pop. cbn [rev]. destruct (rev l); reflexivity.
Qed.

Lemma pop_none (l : list Clip) : pop l = None -> l = [].
Proof.
  destruct l as [|b l]; [reflexivity|]. rewrite pop_cons.
  destruct (pop l); discriminate.
Qed.

Lemma insert_by_end_in (a : Clip) (l : list Clip) : In a (insert_by_end a l).
Proof.
  induction l as [|b l IH]; cbn; [left; reflexivity|].
  destruct (leb (clip_end a) (clip_end b)); [left; reflexivity|right; exact IH].
Qed.

Lemma insert_by_end_keeps (a c : Clip) (l : list Clip) :
  In c l -> In c (insert_by_end a l).
Proof.
  induction l as [|b l IH]; cbn; [intros []|].
  destruct (leb (clip_end a) (clip_end b)); intros [<-|H].
  - right. left. reflexivity.
  - right. right. exact H.
  - left. reflexivity.
  - right. apply IH, H.
Qed.

Lemma sort_by_end_in (c : Clip) (l : list Clip) :
  In c l -> In c (sort_by_end l).
Proof.
  induction l as [|b l IH]; cbn; [intros []|].
  intros [<-|H]; [apply insert_by_end_in|apply insert_by_end_keeps, IH, H].
Qed.

(** The last element of the list ends latest. *)
Lemma insert_by_end_last (a : Clip) (l : list Clip) :
  (forall m, pop l = Some m -> forall c, In c l -> clip_end c <= clip_end m) ->
  forall m, pop (insert_by_end a l) = Some m ->
            forall c, In c (insert_by_end a l) -> clip_end c <= clip_end m.
Proof.
  induction l as [|b l IH]; intros U m Hm c Hc.
  - cbn in Hm, Hc. injection Hm as <-. destruct Hc as [<-|[]]. lra.
  - assert (U' : forall m, pop l = Some m ->
                           forall c, In c l -> clip_end c <= clip_end m).
    { intros m' Hm' c' Hc'. apply (U m').
      - rewrite pop_cons, Hm'. reflexivity.
      - right. exact Hc'. }
    cbn [insert_by_end] in Hm, Hc.
    destruct (leb (clip_end a) (clip_end b)) eqn:L.
    + rewrite pop_cons in Hm.
      assert (Hbm : pop (b :: l) = Some m).
      { destruct (pop (b :: l)) as [m'|] eqn:P; [exact Hm|].
        apply pop_none in P. discriminate. }
      apply leb_spec in L.
      destruct Hc as [<-|Hc].
      * pose proof (U m Hbm b (or_introl eq_refl)). lra.
      * apply (U m Hbm c Hc).
    + rewrite pop_cons in Hm.
      destruct (pop (insert_by_end a l)) as [m'|] eqn:P.
      * injection Hm as <-. apply leb_false in L.
        pose proof (IH U' m' eq_refl a (insert_by_end_in a l)) as Ha.
        destruct Hc as [<-|Hc]; [lra|].
        apply (IH U' m' eq_refl c Hc).
      * apply pop_none in P.
        pose proof (insert_by_end_in a l) as Ha. rewrite P in Ha.
        destruct Ha.
Qed.

Lemma sort_by_end_last (l : list Clip) (m : Clip) :
  pop (sort_by_end l) = Some m ->
  In m l /\ forall c, In c l -> clip_end c <= clip_end m.
Proof.
  intros Hm. split.
  - apply in_sort_by_end, in_pop, Hm.
  - assert (U : forall l m, pop (sort_by_end l) = Some m ->
                forall c, In c (sort_by_end l) -> clip_end c <= clip_end m).
    { clear. induction l as [|b l IH]; intros m Hm c Hc.
      - destruct Hc.
      - cbn [sort_by_end fold_right] in Hm, Hc.
        apply (insert_by_end_last b (sort_by_end l) IH m Hm c Hc). }
    intros c Hc. apply (U l m Hm c). apply sort_by_end_in, Hc.
Qed.

(** X6.  An imported clip is appended to the model and placed on its
    track half a second after the latest end of the clips of that track,
    so it starts at least half a second after each of them ends, the ends
    and the half second added as the program adds them; the first clip of
    a track starts at 0. *)
Theorem addClip_placement (gid url : string) (f : File) (tid : string)
    (ty : MediaType) (meta : Metadata) (prev : list Clip) :
  exists new,
    addClip gid url f tid ty meta prev = prev ++ [new] /\
    id new = gid /\ trackId new = tid /\ type new = ty /\
    (forall c, In c prev -> trackId c = tid ->
               clip_end c [+] number 0.5 <= start new) /\
    ((start new = 0 /\ forall c, In c prev -> trackId c <> tid) \/
     (exists last, In last prev /\ trackId last = tid /\
                   start new = clip_end last [+] number 0.5)).
Proof.
  unfold addClip.
  set (trackClips := filter (fun c => String.eqb (trackId c) tid) prev).
  destruct (pop (sort_by_end trackClips)) as [l|] eqn:P.
  - eexists. split; [reflexivity|]. cbn.
    destruct (sort_by_end_last trackClips l P) as [Hin Hmax].
    apply filter_In in Hin. destruct Hin as [Hin Htid].
    apply String.eqb_eq in Htid.
    repeat split.
    + intros c Hc Hct.
      assert (Hcl : clip_end c <= clip_end l).
      { apply Hmax. apply filter_In. split; [exact Hc|].
        apply String.eqb_eq, Hct. }
      change (clip_end c [+] number 0.5 <= clip_end l [+] number 0.5).
      unfold Number.add. apply rnd_mono. lra.
    + right. exists l. repeat split; assumption.
  - eexists. split; [reflexivity|]. cbn.
    assert (E : trackClips = []).
    { destruct trackClips as [|b t] eqn:T; [reflexivity|].
      pose proof (pop_none _ P) as N.
      pose proof (sort_by_end_in b (b :: t) (or_introl eq_refl)) as Hb.
      rewrite N in Hb. destruct Hb. }
    assert (Hnone : forall c, In c prev -> trackId c <> tid).
    { intros c Hc Hct.
      assert (Hf : In c trackClips).
      { apply filter_In. split; [exact Hc|]. apply String.eqb_eq, Hct. }
      rewrite E in Hf. destruct Hf. }
    repeat split.
    + intros c Hc Hct. destruct (Hnone c Hc Hct).
    + left. split; [reflexivity|exact Hnone].
Qed.

(** ** Pasting repeatedly *)

Lemma find_clip_fresh (g : string) (cs : list Clip) (new : Clip) :
  (forall c, In c cs -> id c <> g) -> id new = g ->
  find_clip g (cs ++ [new]) = Some new.
Proof.
  intros Hfresh Hnew. unfold find_clip.
  induction cs as [|a cs IH]; cbn [List.app find].
  - rewrite Hnew, String.eqb_refl. reflexivity.
  - destruct (String.eqb_spec (id a) g) as [E|_].
    + destruct (Hfresh a (or_introl eq_refl) E).
    + apply IH. intros c Hc. apply Hfresh. right. exact Hc.
Qed.

Lemma pasteStart_commit (before s : State) :
  pasteStart (commit before s) = pasteStart s.
Proof.
  unfold pasteStart.
  rewrite selection_commit, clips_commit, currentTime_commit. reflexivity.
Qed.

Lemma paste_step (g : string) (ui : UI) (board : Clip) :
  clipboardRef (app ui) = Some board ->
  (forall c, In c (clips (app ui)) -> id c <> g) ->
  let ui' := step ui (KeyPaste g) in
  clips (app ui') =
    clips (app ui) ++ [pastedClip g (pasteStart (app ui)) board] /\
  clipboardRef (app ui') = Some board /\
  selectedClipId (app ui') = Some g /\
  pasteStart (app ui') = pasteStart (app ui) [+] duration board.
Proof.
  intros Hboard Hfresh ui'. subst ui'. unfold step. cbn [app handle with_app].
  rewrite clips_commit, clipboard_commit, selection_commit, pasteStart_commit.
  unfold paste. rewrite Hboard.
  split; [reflexivity|]. split; [exact Hboard|]. split; [reflexivity|].
  unfold pasteStart at 1. cbn [selectedClipId setSelectedClipId clips setClips].
  change (id (pastedClip g (pasteStart (app ui)) board)) with g.
  rewrite (find_clip_fresh g (clips (app ui))
             (pastedClip g (pasteStart (app ui)) board) Hfresh eq_refl).
  reflexivity.
Qed.

(** X7.  With a clip on the clipboard, pasting repeatedly lays the copies
    end to end: the first at the paste position, each further one where
    the previous copy ends; every copy takes the clipboard's fields and
    the clipboard keeps its clip. *)
Theorem paste_chain (gids : list string) :
  forall (ui : UI) (board : Clip),
    clipboardRef (app ui) = Some board ->
    NoDup gids ->
    (forall g c, In g gids -> In c (clips (app ui)) -> id c <> g) ->
    clips (app (paste_all gids ui)) =
      clips (app ui) ++ copies board (pasteStart (app ui)) gids /\
    clipboardRef (app (paste_all gids ui)) = Some board.
Proof.
  unfold paste_all.
  induction gids as [|g gs IH]; intros ui board Hboard Hnd Hfresh.
  - cbn. rewrite app_nil_r. split; [reflexivity|exact Hboard].
  - cbn [map run fold_left copies].
    destruct (paste_step g ui board Hboard
                (fun c Hc => Hfresh g c (or_introl eq_refl) Hc))
      as (Hc & Hb & _ & Hp).
    inversion Hnd as [|g' gs' Hnotin Hnd']; subst.
    destruct (IH (step ui (KeyPaste g)) board Hb Hnd') as [Hclips Hboard'].
    { intros g' c Hg' Hin. rewrite Hc in Hin.
      apply in_app_or in Hin. destruct Hin as [Hin|[<-|[]]].
      - apply (Hfresh g' c (or_intror Hg') Hin).
      - cbn. intros <-. apply Hnotin, Hg'. }
    unfold run in Hclips, Hboard'. split; [|exact Hboard'].
    rewrite Hclips, Hc, Hp, <- app_assoc. reflexivity.
Qed.

Lemma paste_chain_witness :
  let ui := step {| app := Scenario.scenario_state;
                    dragState := Timeline.initialDragState |} KeyCopy in
  clips (app (paste_all ["p1"; "p2"]%string ui)) =
    clips (app ui)
    ++ copies Scenario.scenario_clip (pasteStart (app ui)) ["p1"; "p2"]%string.
Proof.
  intros ui.
  apply (paste_chain ["p1"; "p2"]%string ui Scenario.scenario_clip).
  - reflexivity.
  - repeat constructor; cbn; intuition discriminate.
  - intros g c [<-|[<-|[]]] [<-|[]]; discriminate.
Defined.

(** ** The playback clock *)

Lemma commit_playing (before h : State) :
  isPlaying h = true -> commit before h = adjustTotalDuration h.
Proof.
  intros Hp. unfold commit, playbackEffect.
  change (isPlaying (adjustTotalDuration h)) with (isPlaying h). rewrite Hp.
  destruct (watch_deps_changed before (adjustTotalDuration h)); [|reflexivity].
  unfold exportWatch.
  change (isPlaying (adjustTotalDuration h)) with (isPlaying h). rewrite Hp.
  rewrite andb_false_r. reflexivity.
Qed.

Lemma commit_idle (before h : State) :
  isExporting h = false -> commit before h = playbackEffect (adjustTotalDuration h).
Proof.
  intros He. unfold commit.
  destruct (watch_deps_changed before (playbackEffect (adjustTotalDuration h)));
    [|reflexivity].
  unfold exportWatch.
  replace (isExporting (playbackEffect (adjustTotalDuration h))) with false;
    [reflexivity|].
  unfold playbackEffect.
  destruct (isPlaying (adjustTotalDuration h)); symmetry; exact He.
Qed.

(** X10.  Time spent paused is not played: after Pause and Play the first
    frame only restarts the clock, the position is the one at which the
    transport was paused. *)
Theorem pause_resume (ui : UI) (t : Q) :
  isExporting (app ui) = false ->
  isPlaying (app ui) = true ->
  let s' := app (run ui [ClickPlay; ClickPlay; Frame t]) in
  currentTime s' = currentTime (app ui) /\
  isPlaying s' = true /\
  previousTimeRef s' = Some t.
Proof.
  intros He Hp s'. subst s'. unfold run. cbn [fold_left].
  set (u1 := step ui ClickPlay).
  assert (H1 : isExporting (app u1) = false /\ isPlaying (app u1) = false /\
               currentTime (app u1) = currentTime (app ui) /\
               previousTimeRef (app u1) = None).
  { subst u1. unfold step. cbn [app handle with_app].
    unfold unless_exporting. rewrite He.
    rewrite commit_idle by (unfold togglePlay; exact He).
    unfold playbackEffect, togglePlay. cbn. rewrite Hp. cbn.
    repeat split; assumption. }
  destruct H1 as (He1 & Hp1 & Hc1 & Hprev1). clearbody u1.
  set (u2 := step u1 ClickPlay).
  assert (H2 : isExporting (app u2) = false /\ isPlaying (app u2) = true /\
               currentTime (app u2) = currentTime (app ui) /\
               previousTimeRef (app u2) = None).
  { subst u2. unfold step. cbn [app handle with_app].
    unfold unless_exporting. rewrite He1.
    rewrite commit_idle by (unfold togglePlay; exact He1).
    unfold playbackEffect, togglePlay. cbn. rewrite Hp1. cbn.
    repeat split; assumption. }
  destruct H2 as (He2 & Hp2 & Hc2 & Hprev2). clearbody u2.
  unfold step. cbn [app handle with_app]. rewrite Hp2.
  unfold animate. rewrite Hprev2.
  rewrite commit_playing by exact Hp2.
  cbn. repeat split; assumption.
Qed.

Lemma pause_resume_witness :
  currentTime
    (app (run (Scenario.playing_ui false) [ClickPlay; ClickPlay; Frame 9000]))
  = number 4.99.
Proof.
  destruct (pause_resume (Scenario.playing_ui false) 9000 eq_refl eq_refl)
    as (H & _).
  exact H.
Defined.

(** ** The chunks of a recording *)




(** ** The media elements follow the clips *)

Lemma has_app (k : string) (a b : Elements.Registry) :
  Elements.has k (a ++ b) = Elements.has k a || Elements.has k b.
Proof. unfold Elements.has. apply existsb_app. Qed.

Lemma has_in (k : string) (e : Elements.Element) (m : Elements.Registry) :
  In (k, e) m -> Elements.has k m = true.
Proof.
  intros H. unfold Elements.has. apply existsb_exists.
  exists (k, e). split; [exact H|]. apply String.eqb_refl.
Qed.

Lemma has_filter (p : string -> bool) (k : string) (m : Elements.Registry) :
  Elements.has k (filter (fun e => p (fst e)) m) = Elements.has k m && p k.
Proof.
  unfold Elements.has. induction m as [|[i e] m IH]; [reflexivity|].
  cbn [filter existsb fst].
  destruct (String.eqb_spec i k) as [->|N].
  - destruct (p k) eqn:P; cbn [existsb fst];
      rewrite ?String.eqb_refl, ?IH, ?P, ?andb_false_r; reflexivity.
  - apply String.eqb_neq in N.
    destruct (p i); cbn [existsb fst]; rewrite ?N; exact IH.
Qed.

Lemma set_has_spec (k : MediaType) (clips : list Clip) (i : string) :
  Elements.set_has
    (map id (filter (fun c => media_eqb (type c) k) clips)) i = true <->
  clip_of_kind k clips i.
Proof.
  unfold Elements.set_has, clip_of_kind. rewrite existsb_exists. split.
  - intros (x & Hx & E). apply String.eqb_eq in E. subst x.
    apply in_map_iff in Hx. destruct Hx as (c & Hid & Hc).
    apply filter_In in Hc. destruct Hc as [Hc Ht].
    exists c. split; [exact Hc|]. split; [|exact Hid].
    destruct (type c), k; try discriminate; reflexivity.
  - intros (c & Hc & Ht & Hid). exists i. split; [|apply String.eqb_refl].
    apply in_map_iff. exists c. split; [exact Hid|].
    apply filter_In. split; [exact Hc|]. rewrite Ht. destruct k; reflexivity.
Qed.

Lemma createMissing_spec (create : Clip -> Elements.Element) (cs : list Clip) :
  forall refs,
    exists extra,
      Elements.createMissing create cs refs = refs ++ extra /\
      (forall i, Elements.has i (refs ++ extra)
                 = Elements.has i refs || Elements.set_has (map id cs) i) /\
      (forall i e, In (i, e) extra ->
                   Elements.has i refs = false /\
                   exists c, In c cs /\ id c = i /\ e = create c) /\
      (NoDup (map fst refs) -> NoDup (map fst (refs ++ extra))).
Proof.
  unfold Elements.createMissing.
  induction cs as [|c cs IH]; intros refs.
  - exists []. rewrite app_nil_r. split; [reflexivity|].
    split; [intros i; cbn; rewrite orb_false_r; reflexivity|].
    split; [intros i e []|auto].
  - cbn [fold_left map].
    destruct (Elements.has (id c) refs) eqn:H; cbn [negb].
    + destruct (IH refs) as (extra & E & Hhas & Hnew & Hnd).
      exists extra. split; [exact E|]. split; [|split; [|exact Hnd]].
      * intros i. rewrite Hhas. unfold Elements.set_has. cbn [existsb].
        destruct (String.eqb_spec i (id c)) as [->|_]; [|reflexivity].
        rewrite H. reflexivity.
      * intros i e Hin. destruct (Hnew i e Hin) as (Hno & c' & Hc' & Hid & He).
        split; [exact Hno|]. exists c'. split; [right; exact Hc'|].
        split; assumption.
    + replace (Elements.set (id c) (create c) refs)
        with (refs ++ [(id c, create c)])
        by (unfold Elements.set; rewrite H; reflexivity).
      destruct (IH (refs ++ [(id c, create c)]))
        as (extra & E & Hhas & Hnew & Hnd).
      exists ((id c, create c) :: extra).
      replace (refs ++ (id c, create c) :: extra)
        with ((refs ++ [(id c, create c)]) ++ extra)
        by (rewrite <- app_assoc; reflexivity).
      split; [exact E|]. split; [|split].
      * intros i. rewrite Hhas, has_app. unfold Elements.set_has.
        cbn [existsb Elements.has fst]. rewrite orb_false_r.
        rewrite (String.eqb_sym (id c) i), orb_assoc. reflexivity.
      * intros i e [[= <- <-]|Hin].
        -- split; [exact H|]. exists c. split; [left; reflexivity|].
           split; reflexivity.
        -- destruct (Hnew i e Hin) as (Hno & c' & Hc' & Hid & He).
           rewrite has_app in Hno. apply orb_false_iff in Hno.
           split; [apply Hno|]. exists c'. split; [right; exact Hc'|].
           split; assumption.
      * intros Hnd0. apply Hnd. rewrite map_app. cbn [map fst].
        apply NoDup_app; [exact Hnd0| |].
        -- repeat constructor. intros [].
        -- intros x Hx [<-|[]].
           apply in_map_iff in Hx. destruct Hx as ([i e] & Hi & Hin).
           cbn in Hi. subst i. rewrite (has_in _ _ _ Hin) in H. discriminate.
Qed.

Lemma filter_all {A : Type} (f : A -> bool) (l : list A) :
  (forall x, In x l -> f x = true) -> filter f l = l.
Proof.
  induction l as [|a l IH]; intros H; [reflexivity|]. cbn.
  rewrite (H a (or_introl eq_refl)). f_equal. apply IH.
  intros x Hx. apply H. right. exact Hx.
Qed.

Lemma filter_none {A : Type} (f : A -> bool) (l : list A) :
  (forall x, In x l -> f x = true) -> filter (fun x => negb (f x)) l = [].
Proof.
  induction l as [|a l IH]; intros H; [reflexivity|]. cbn.
  rewrite (H a (or_introl eq_refl)). cbn. apply IH.
  intros x Hx. apply H. right. exact Hx.
Qed.

Lemma keys_filter (f : string * Elements.Element -> bool)
    (m : Elements.Registry) :
  NoDup (map fst m) -> NoDup (map fst (filter f m)).
Proof.
  induction m as [|a m IH]; intros H; [constructor|].
  inversion H as [|x l Hnotin Hnd]; subst. cbn [filter].
  destruct (f a); [|apply IH, Hnd].
  cbn [map]. constructor; [|apply IH, Hnd].
  intros Hin. apply Hnotin.
  apply in_map_iff in Hin. destruct Hin as (e & He & Hin).
  apply filter_In in Hin. apply in_map_iff. exists e. split; [exact He|apply Hin].
Qed.

Lemma createMissing_present (create : Clip -> Elements.Element)
    (cs : list Clip) (refs : Elements.Registry) :
  (forall c, In c cs -> Elements.has (id c) refs = true) ->
  Elements.createMissing create cs refs = refs.
Proof.
  unfold Elements.createMissing.
  induction cs as [|c cs IH]; intros H; [reflexivity|].
  cbn [fold_left]. rewrite (H c (or_introl eq_refl)). cbn [negb].
  apply IH. intros c' Hc'. apply H. right. exact Hc'.
Qed.

Lemma set_has_id (k : MediaType) (clips : list Clip) (c : Clip) :
  In c (filter (fun c => media_eqb (type c) k) clips) ->
  Elements.set_has (map id (filter (fun c => media_eqb (type c) k) clips))
                   (id c) = true.
Proof.
  intros Hc. unfold Elements.set_has. apply existsb_exists.
  exists (id c). split; [apply in_map, Hc|apply String.eqb_refl].
Qed.

Lemma video_registry_keys (clips : list Clip) (refs : Elements.Registry)
    (i : string) :
  Elements.has i (fst (Elements.videoLifecycle clips refs)) = true <->
  clip_of_kind video clips i.
Proof.
  unfold Elements.videoLifecycle. cbn [fst].
  set (cs := filter (fun c => media_eqb (type c) video) clips).
  set (ids := map id cs).
  destruct (createMissing_spec Elements.createVideo cs
              (filter (fun e => Elements.set_has ids (fst e)) refs))
    as (extra & E & Hhas & _).
  rewrite E, Hhas, (has_filter (Elements.set_has ids)). fold ids.
  rewrite <- (set_has_spec video clips i). fold cs. fold ids.
  destruct (Elements.has i refs), (Elements.set_has ids i);
    split; intros H; try discriminate; reflexivity.
Qed.

Lemma audio_registry_keys (clips : list Clip) (refs : Elements.Registry)
    (i : string) :
  Elements.has i (fst (Elements.audioLifecycle clips refs)) = true <->
  clip_of_kind audio clips i.
Proof.
  unfold Elements.audioLifecycle. cbn [fst].
  set (cs := filter (fun c => media_eqb (type c) audio) clips).
  set (ids := map id cs).
  destruct (createMissing_spec Elements.createAudio cs refs)
    as (extra & E & Hhas & _).
  rewrite E, (has_filter (Elements.set_has ids)), Hhas. fold ids.
  rewrite <- (set_has_spec audio clips i). fold cs. fold ids.
  destruct (Elements.has i refs), (Elements.set_has ids i);
    split; intros H; try discriminate; reflexivity.
Qed.

(** X12.  The lifecycle effect of the player keeps one video element per
    video clip: afterwards the registry holds an element for an
    identifier exactly when a video clip has it; the element of a clip
    that is still there is the one it had (its playback state is kept),
    an element is created only for an identifier that had none, from the
    source of a video clip with it; the elements of removed clips are
    released without source; unique keys stay unique; running the effect
    again changes nothing. *)
Theorem video_elements_follow (clips : list Clip) (refs : Elements.Registry) :
  let refs' := fst (Elements.videoLifecycle clips refs) in
  let released := snd (Elements.videoLifecycle clips refs) in
  (forall i, Elements.has i refs' = true <-> clip_of_kind video clips i) /\
  (forall i e, In (i, e) refs -> clip_of_kind video clips i ->
               In (i, e) refs') /\
  (forall i e, In (i, e) refs' ->
     In (i, e) refs \/
     (Elements.has i refs = false /\
      exists c, In c clips /\ type c = video /\ id c = i /\
                e = Elements.createVideo c)) /\
  (NoDup (map fst refs) -> NoDup (map fst refs')) /\
  (forall v, In v released ->
             Elements.src v = None /\
             Player.paused (Elements.media v) = true) /\
  Elements.videoLifecycle clips refs' = (refs', []).
Proof.
  unfold Elements.videoLifecycle. cbn [fst snd].
  set (cs := filter (fun c => media_eqb (type c) video) clips).
  set (ids := map id cs).
  set (kept := filter (fun e => Elements.set_has ids (fst e)) refs).
  destruct (createMissing_spec Elements.createVideo cs kept)
    as (extra & E & Hhas & Hnew & Hnd).
  rewrite E.
  assert (Hkeys : forall i, Elements.has i (kept ++ extra)
                            = Elements.set_has ids i).
  { intros i. rewrite Hhas. subst kept.
    rewrite (has_filter (Elements.set_has ids)). fold ids.
    destruct (Elements.has i refs), (Elements.set_has ids i); reflexivity. }
  split; [|split; [|split; [|split; [|split]]]].
  - intros i. rewrite Hkeys. apply set_has_spec.
  - intros i e Hin Hk. apply in_or_app. left. apply filter_In.
    split; [exact Hin|]. apply set_has_spec, Hk.
  - intros i e Hin. apply in_app_or in Hin. destruct Hin as [Hin|Hin].
    + left. apply filter_In in Hin. apply Hin.
    + right. destruct (Hnew i e Hin) as (Hno & c & Hc & Hid & He).
      subst kept. rewrite (has_filter (Elements.set_has ids)) in Hno.
      assert (Hi : Elements.set_has ids i = true).
      { rewrite <- Hid. apply set_has_id, Hc. }
      rewrite Hi, andb_true_r in Hno. split; [exact Hno|].
      apply filter_In in Hc. destruct Hc as [Hc Ht].
      exists c. split; [exact Hc|]. split; [|split; assumption].
      destruct (type c); [reflexivity|discriminate].
  - intros H. apply Hnd. apply keys_filter, H.
  - intros v Hv. apply in_map_iff in Hv. destruct Hv as (e & <- & _).
    split; reflexivity.
  - assert (Hall : forall e, In e (kept ++ extra) ->
                             Elements.set_has ids (fst e) = true).
    { intros [i e] Hin. rewrite <- Hkeys. apply (has_in _ _ _ Hin). }
    rewrite (filter_all _ _ Hall), (filter_none _ _ Hall).
    rewrite createMissing_present; [reflexivity|].
    intros c Hc. rewrite Hkeys. apply set_has_id, Hc.
Qed.

(** X13.  The audio effect keeps one audio element per audio clip in the
    same way, although it creates before it cleans up: afterwards the
    registry holds an element for an identifier exactly when an audio
    clip has it, surviving clips keep their element, elements are
    created only for identifiers that had none, the elements of removed
    clips are paused, and running the effect again changes nothing. *)
Theorem audio_elements_follow (clips : list Clip) (refs : Elements.Registry) :
  let refs' := fst (Elements.audioLifecycle clips refs) in
  let released := snd (Elements.audioLifecycle clips refs) in
  (forall i, Elements.has i refs' = true <-> clip_of_kind audio clips i) /\
  (forall i e, In (i, e) refs -> clip_of_kind audio clips i ->
               In (i, e) refs') /\
  (forall i e, In (i, e) refs' ->
     In (i, e) refs \/
     (Elements.has i refs = false /\
      exists c, In c clips /\ type c = audio /\ id c = i /\
                e = Elements.createAudio c)) /\
  (NoDup (map fst refs) -> NoDup (map fst refs')) /\
  (forall a, In a released -> Player.paused (Elements.media a) = true) /\
  Elements.audioLifecycle clips refs' = (refs', []).
Proof.
  unfold Elements.audioLifecycle. cbn [fst snd].
  set (cs := filter (fun c => media_eqb (type c) audio) clips).
  set (ids := map id cs).
  destruct (createMissing_spec Elements.createAudio cs refs)
    as (extra & E & Hhas & Hnew & Hnd).
  rewrite E.
  set (refs' := filter (fun e => Elements.set_has ids (fst e)) (refs ++ extra)).
  assert (Hkeys : forall i, Elements.has i refs' = Elements.set_has ids i).
  { intros i. subst refs'.
    rewrite (has_filter (Elements.set_has ids)), Hhas. fold ids.
    destruct (Elements.has i refs), (Elements.set_has ids i); reflexivity. }
  split; [|split; [|split; [|split; [|split]]]].
  - intros i. rewrite Hkeys. apply set_has_spec.
  - intros i e Hin Hk. apply filter_In. split.
    + apply in_or_app. left. exact Hin.
    + apply set_has_spec, Hk.
  - intros i e Hin. apply filter_In in Hin. destruct Hin as [Hin _].
    apply in_app_or in Hin. destruct Hin as [Hin|Hin]; [left; exact Hin|].
    right. destruct (Hnew i e Hin) as (Hno & c & Hc & Hid & He).
    split; [exact Hno|].
    apply filter_In in Hc. destruct Hc as [Hc Ht].
    exists c. split; [exact Hc|]. split; [|split; assumption].
    destruct (type c); [discriminate|reflexivity].
  - intros H. apply keys_filter, Hnd, H.
  - intros a Ha. apply in_map_iff in Ha. destruct Ha as (e & <- & _).
    reflexivity.
  - assert (Hall : forall e, In e refs' -> Elements.set_has ids (fst e) = true).
    { intros [i e] Hin. rewrite <- Hkeys. apply (has_in _ _ _ Hin). }
    rewrite createMissing_present.
    + rewrite (filter_all _ _ Hall), (filter_none _ _ Hall). reflexivity.
    + intros c Hc. rewrite Hkeys. apply set_has_id, Hc.
Qed.

(** ** What the synchronisation leaves behind *)

Lemma drift_seeked (t bound : Q) : 0 <= bound -> Qabs (t [-] t) <= bound.
Proof.
  intros H. unfold Number.sub. rewrite (rnd_zero (t - t)) by ring. exact H.
Qed.

Ltac sync_cases G P :=
  cbn [fold_left Player.perform Player.paused Player.el_currentTime List.app];
  rewrite ?P; split;
  try reflexivity; try (apply drift_seeked; vm_compute; discriminate);
  try (apply gtb_false in G; exact G).

Lemma syncActive_result (playing : bool) (position : Q) (clip : Clip)
    (el : Player.MediaElement) :
  let el' := perform_all el (Player.syncActive playing position clip el) in
  Player.paused el' = negb playing /\
  drift position clip el' <= (if playing then number 0.5 else number 0.01).
Proof.
  unfold Player.syncActive, drift, perform_all.
  destruct playing.
  - destruct (gtb (Math.abs (Player.el_currentTime el
                             [-] Player.seekTime position clip))
                  (number 0.5)) eqn:G;
      destruct (Player.paused el) eqn:P; sync_cases G P.
  - destruct (gtb (Math.abs (Player.el_currentTime el
                             [-] Player.seekTime position clip))
                  (number 0.01)) eqn:G;
      destruct (Player.paused el) eqn:P; sync_cases G P.
Qed.

Lemma syncAudio_result (playing : bool) (position : Q) (clip : Clip)
    (el : Player.MediaElement) :
  let el' := perform_all el (App.syncAudio playing position clip el) in
  if Player.isActive position clip && playing
  then Player.paused el' = false /\ drift position clip el' <= number 0.2
  else Player.paused el' = true /\
       Player.el_currentTime el' = Player.el_currentTime el.
Proof.
  unfold App.syncAudio, drift, perform_all.
  destruct (Player.isActive position clip && playing).
  - destruct (gtb (Math.abs (Player.el_currentTime el
                             [-] Player.seekTime position clip))
                  (number 0.2)) eqn:G;
      destruct (Player.paused el) eqn:P;
      cbn [orb negb]; sync_cases G P.
  - destruct (Player.paused el) eqn:P; cbn [negb]; sync_cases P P.
Qed.

Lemma combine_map_r {A B : Type} (f : A -> B) (l : list A) :
  combine l (map f l) = map (fun x => (x, f x)) l.
Proof.
  induction l as [|a l IH]; [reflexivity|]. cbn. rewrite IH. reflexivity.
Qed.

Lemma has_map_keys (f : string * Elements.Element -> string * Elements.Element)
    (i : string) (m : Elements.Registry) :
  (forall e, fst (f e) = fst e) ->
  Elements.has i (map f m) = Elements.has i m.
Proof.
  intros H. unfold Elements.has. induction m as [|a m IH]; [reflexivity|].
  cbn. rewrite H, IH. reflexivity.
Qed.

Lemma has_entry (i : string) (m : Elements.Registry) :
  Elements.has i m = true -> exists e, In (i, e) m.
Proof.
  unfold Elements.has. intros H. apply existsb_exists in H.
  destruct H as ([k e] & Hin & E). apply String.eqb_eq in E. cbn in E.
  subst k. exists e. exact Hin.
Qed.

Lemma activeVideoClip_some (clips : list Clip) (position : Q) (clip : Clip) :
  Player.activeVideoClip clips position = Some clip ->
  In clip clips /\ type clip = video /\ Player.isActive position clip = true.
Proof.
  unfold Player.activeVideoClip. intros H. apply find_some in H.
  destruct H as [Hin H]. apply andb_true_iff in H. destruct H as [Ht Ha].
  split; [exact Hin|]. split; [|exact Ha].
  destruct (type clip); [reflexivity|discriminate].
Qed.

Lemma synced_videos_map (clips : list Clip) (position : Q) (playing : bool)
    (refs : Elements.Registry) :
  synced_videos clips position playing refs =
  map (fun e : string * Elements.Element =>
         (fst e,
          with_media (snd e)
            (perform_all (Elements.media (snd e))
               match Player.activeVideoClip clips position with
               | Some clip =>
                   if String.eqb (id clip) (fst e)
                   then Player.syncActive playing position clip
                          (Elements.media (snd e))
                   else [Player.Pause]
               | None => [Player.Pause]
               end))) refs.
Proof.
  unfold synced_videos, Player.syncEffect, Elements.states.
  rewrite map_map, combine_map_r, map_map.
  apply map_ext. intros [i e]. cbn [fst snd].
  destruct (Player.activeVideoClip clips position) as [clip|]; [|reflexivity].
  destruct (String.eqb (id clip) i); reflexivity.
Qed.

(** X14.  After the effects of the player every video clip has an element
    and at most the element of the active clip plays: an element that is
    not paused belongs to the active video clip and the transport plays;
    the element of the active clip plays exactly when the transport does,
    within 0.5 s of the position in the source while playing and within
    0.01 s when paused. *)
Theorem player_render_result (clips : list Clip) (position : Q)
    (playing : bool) (refs : Elements.Registry) :
  let refs' := player_render clips position playing refs in
  (forall i, Elements.has i refs' = true <-> clip_of_kind video clips i) /\
  (forall i e, In (i, e) refs' ->
     Player.paused (Elements.media e) = false ->
     playing = true /\
     exists clip, Player.activeVideoClip clips position = Some clip /\
                  id clip = i) /\
  (forall clip, Player.activeVideoClip clips position = Some clip ->
     exists e, In (id clip, e) refs' /\
               Player.paused (Elements.media e) = negb playing /\
               drift position clip (Elements.media e)
               <= (if playing then number 0.5 else number 0.01)).
Proof.
  unfold player_render. rewrite synced_videos_map.
  set (refs1 := fst (Elements.videoLifecycle clips refs)).
  assert (Hkeys : forall i, Elements.has i refs1 = true
                            <-> clip_of_kind video clips i).
  { apply (video_registry_keys clips refs). }
  split; [|split].
  - intros i. rewrite has_map_keys by reflexivity. apply Hkeys.
  - intros i e Hin Hp. apply in_map_iff in Hin.
    destruct Hin as ([k e0] & [= <- <-] & _). cbn [fst snd] in Hp.
    cbn [fst].
    destruct (Player.activeVideoClip clips position) as [clip|];
      [|discriminate].
    destruct (String.eqb_spec (id clip) k) as [E|_]; [|discriminate].
    destruct (syncActive_result playing position clip (Elements.media e0))
      as [Hpaused _].
    cbn [with_media Elements.media] in Hp. rewrite Hp in Hpaused.
    split; [destruct playing; [reflexivity|discriminate]|].
    exists clip. split; [reflexivity|exact E].
  - intros clip Hact.
    destruct (activeVideoClip_some _ _ _ Hact) as (Hin & Ht & _).
    assert (Hhas : Elements.has (id clip) refs1 = true).
    { apply Hkeys. exists clip. repeat split; assumption. }
    destruct (has_entry _ _ Hhas) as (e0 & He0).
    rewrite Hact. eexists. split.
    + apply in_map_iff. exists (id clip, e0). split; [|exact He0].
      cbn [fst snd]. rewrite String.eqb_refl. reflexivity.
    + apply (syncActive_result playing position clip (Elements.media e0)).
Qed.

Lemma audio_registry_unique (clips : list Clip) (refs : Elements.Registry) :
  NoDup (map fst refs) ->
  NoDup (map fst (fst (Elements.audioLifecycle clips refs))).
Proof.
  intros H. unfold Elements.audioLifecycle. cbn [fst].
  destruct (createMissing_spec Elements.createAudio
              (filter (fun c => media_eqb (type c) audio) clips) refs)
    as (extra & E & _ & _ & Hnd).
  rewrite E. apply keys_filter, Hnd, H.
Qed.

Lemma ids_filter (f : Clip -> bool) (cs : list Clip) :
  NoDup (map id cs) -> NoDup (map id (filter f cs)).
Proof.
  induction cs as [|a cs IH]; intros H; [constructor|].
  inversion H as [|x l Hnotin Hnd]; subst. cbn [filter].
  destruct (f a); [|apply IH, Hnd].
  cbn [map]. constructor; [|apply IH, Hnd].
  intros Hin. apply Hnotin.
  apply in_map_iff in Hin. destruct Hin as (c & Hc & Hin).
  apply filter_In in Hin. apply in_map_iff. exists c. split; [exact Hc|apply Hin].
Qed.

Lemma get_unique (k : string) (e : Elements.Element) (m : Elements.Registry) :
  NoDup (map fst m) -> In (k, e) m -> Elements.get k m = Some e.
Proof.
  unfold Elements.get. induction m as [|[i e'] m IH]; intros Hnd Hin.
  - destruct Hin.
  - cbn [map find fst snd]. inversion Hnd as [|x l Hnotin Hnd']; subst.
    destruct Hin as [[= -> ->]|Hin].
    + rewrite String.eqb_refl. reflexivity.
    + destruct (String.eqb_spec i k) as [->|_]; [|apply IH; assumption].
      destruct Hnotin. apply in_map_iff. exists (k, e).
      split; [reflexivity|exact Hin].
Qed.

Lemma sync_audio_clip_keys (position : Q) (playing : bool)
    (m : Elements.Registry) (clip : Clip) :
  map fst (sync_audio_clip position playing m clip) = map fst m.
Proof.
  unfold sync_audio_clip. destruct (Elements.get (id clip) m); [|reflexivity].
  unfold perform_on. rewrite map_map. apply map_ext. intros x.
  destruct (String.eqb (fst x) (id clip)); reflexivity.
Qed.

Lemma sync_audio_clips_keys (position : Q) (playing : bool) (cs : list Clip) :
  forall m, map fst (fold_left (sync_audio_clip position playing) cs m)
            = map fst m.
Proof.
  induction cs as [|a cs IH]; intros m; [reflexivity|].
  cbn [fold_left]. rewrite IH. apply sync_audio_clip_keys.
Qed.

Lemma sync_audio_other (position : Q) (playing : bool) (m : Elements.Registry)
    (clip : Clip) (k : string) (e : Elements.Element) :
  id clip <> k -> In (k, e) m ->
  In (k, e) (sync_audio_clip position playing m clip).
Proof.
  intros Hne Hin. unfold sync_audio_clip.
  destruct (Elements.get (id clip) m); [|exact Hin].
  unfold perform_on. apply in_map_iff. exists (k, e). split; [|exact Hin].
  cbn [fst]. destruct (String.eqb_spec k (id clip)) as [E|_]; [|reflexivity].
  destruct Hne. symmetry. exact E.
Qed.

Lemma sync_audio_others (position : Q) (playing : bool) (cs : list Clip)
    (k : string) (e : Elements.Element) :
  (forall c, In c cs -> id c <> k) ->
  forall m, In (k, e) m ->
            In (k, e) (fold_left (sync_audio_clip position playing) cs m).
Proof.
  induction cs as [|a cs IH]; intros H m Hin; [exact Hin|].
  cbn [fold_left]. apply IH.
  - intros c Hc. apply H. right. exact Hc.
  - apply sync_audio_other; [apply H; left; reflexivity|exact Hin].
Qed.

Lemma sync_audio_one (position : Q) (playing : bool) (cs : list Clip)
    (c : Clip) (e0 : Elements.Element) :
  NoDup (map id cs) -> In c cs ->
  forall m, NoDup (map fst m) -> In (id c, e0) m ->
    In (id c,
        with_media e0
          (perform_all (Elements.media e0)
             (App.syncAudio playing position c (Elements.media e0))))
       (fold_left (sync_audio_clip position playing) cs m).
Proof.
  induction cs as [|a cs IH]; intros Hnd Hc m Hm He0; [destruct Hc|].
  inversion Hnd as [|x l Hnotin Hnd']; subst. cbn [fold_left].
  destruct Hc as [->|Hc].
  - apply sync_audio_others.
    + intros c' Hc' E. apply Hnotin. apply in_map_iff.
      exists c'. split; assumption.
    + unfold sync_audio_clip. rewrite (get_unique _ _ _ Hm He0).
      unfold perform_on. apply in_map_iff. exists (id c, e0).
      split; [|exact He0]. cbn [fst snd]. rewrite String.eqb_refl.
      reflexivity.
  - apply (IH Hnd' Hc).
    + rewrite sync_audio_clip_keys. exact Hm.
    + apply sync_audio_other; [|exact He0].
      intros E. apply Hnotin. apply in_map_iff. exists c. split; [|exact Hc].
      symmetry. exact E.
Qed.

Lemma has_keys (i : string) (m m' : Elements.Registry) :
  map fst m' = map fst m -> Elements.has i m' = Elements.has i m.
Proof.
  unfold Elements.has. intros E.
  assert (H : forall l : Elements.Registry,
            existsb (fun e => String.eqb (fst e) i) l
            = existsb (fun k => String.eqb k i) (map fst l)).
  { induction l as [|a l IH]; [reflexivity|]. cbn. rewrite IH. reflexivity. }
  rewrite !H, E. reflexivity.
Qed.

(** X15.  After the audio effect every audio clip has an element, and
    with unique clip identifiers that element plays exactly when the clip
    is under the playhead and the transport plays: it is then within
    0.2 s of the position in the source, and it is paused otherwise. *)
Theorem audio_render_result (clips : list Clip) (position : Q)
    (playing : bool) (refs : Elements.Registry) :
  NoDup (map id clips) -> NoDup (map fst refs) ->
  let refs' := audio_render clips position playing refs in
  (forall i, Elements.has i refs' = true <-> clip_of_kind audio clips i) /\
  (forall c, In c clips -> type c = audio ->
     exists e, In (id c, e) refs' /\
       if Player.isActive position c && playing
       then Player.paused (Elements.media e) = false /\
            drift position c (Elements.media e) <= number 0.2
       else Player.paused (Elements.media e) = true).
Proof.
  intros Hnd Hrefs. unfold audio_render. cbn zeta.
  set (refs1 := fst (Elements.audioLifecycle clips refs)).
  set (cs := filter (fun c => media_eqb (type c) audio) clips).
  split.
  - intros i.
    rewrite (has_keys i refs1) by apply sync_audio_clips_keys.
    apply audio_registry_keys.
  - intros c Hc Ht.
    assert (Hhas : Elements.has (id c) refs1 = true).
    { apply audio_registry_keys. exists c. repeat split; assumption. }
    destruct (has_entry _ _ Hhas) as (e0 & He0).
    pose proof (audio_registry_unique clips refs Hrefs) as Hnd1.
    fold refs1 in Hnd1.
    assert (Hcs : In c cs).
    { apply filter_In. split; [exact Hc|]. rewrite Ht. reflexivity. }
    eexists. split.
    + apply (sync_audio_one position playing cs c e0
               (ids_filter _ _ Hnd) Hcs refs1 Hnd1 He0).
    + cbn [with_media Elements.media].
      pose proof (syncAudio_result playing position c (Elements.media e0)) as H.
      cbn zeta in H.
      destruct (Player.isActive position c && playing); [exact H|apply H].
Qed.

Lemma audio_render_result_witness :
  Elements.has "a0"
    (audio_render [Scenario.scenario_clip; Scenario.audio_clip] 2 true [])
  = true.
Proof.
  destruct (audio_render_result
              [Scenario.scenario_clip; Scenario.audio_clip] 2 true [])
    as [Hkeys _].
  - repeat constructor; cbn; intuition discriminate.
  - constructor.
  - apply Hkeys. exists Scenario.audio_clip.
    split; [right; left; reflexivity|]. split; reflexivity.
Defined.

(** ** A drag from press to release *)

Lemma move_in_drag (m : DragMode) (x0 xk x : Q) (cs : list Clip)
    (clip : Clip) (ui : UI) :
  NoDup (map id cs) -> In clip cs -> id clip <> ""%string ->
  dragState ui = Timeline.handleMouseDown x0 clip (Some m) ->
  clips (app ui) =
    map (fun c => if String.eqb (id c) (id clip)
                  then spread c (gesture_updates m clip x0 xk) else c) cs ->
  dragState (step ui (MouseMove x)) = dragState ui /\
  clips (app (step ui (MouseMove x))) =
    map (fun c => if String.eqb (id c) (id clip)
                  then spread c (gesture_updates m clip x0 x) else c) cs.
Proof.
  intros Hnd Hin Hid Hds Hc.
  assert (Hfind : find_clip (id clip) (clips (app ui))
                  = Some (spread clip (gesture_updates m clip x0 xk))).
  { rewrite Hc, find_clip_map.
    - rewrite (find_clip_unique _ _ Hnd Hin). cbn [option_map].
      rewrite String.eqb_refl. reflexivity.
    - intro c. destruct (String.eqb (id c) (id clip)); reflexivity. }
  unfold step. cbn [app dragState]. rewrite clips_commit.
  change (handle ui (MouseMove x)) with
    (match Timeline.handleMouseMove (dragState ui) (clips (app ui)) x with
     | None => ui
     | Some (cid, updates) => with_app (handleClipUpdate cid updates) ui
     end).
  rewrite Hds. unfold Timeline.handleMouseMove.
  cbn [isDragging clipId Timeline.handleMouseDown negb].
  rewrite (truthy_id _ Hid), Hfind. unfold with_app. cbn [app dragState].
  split; [exact Hds|].
  unfold handleClipUpdate. cbn [clips setClips].
  rewrite Hc, map_map.
  apply map_ext. intro c. cbn [id spread].
  destruct (String.eqb (id c) (id clip)) eqn:E.
  - cbn [id spread]. rewrite E.
    rewrite <- (spread_again m clip c x0 xk x). f_equal.
  - rewrite E. reflexivity.
Qed.

Lemma moves_in_drag (m : DragMode) (x0 : Q) (cs : list Clip) (clip : Clip)
    (xs : list Q) :
  NoDup (map id cs) -> In clip cs -> id clip <> ""%string ->
  forall (ui : UI) (xk : Q),
    dragState ui = Timeline.handleMouseDown x0 clip (Some m) ->
    clips (app ui) =
      map (fun c => if String.eqb (id c) (id clip)
                    then spread c (gesture_updates m clip x0 xk) else c) cs ->
    dragState (run ui (map MouseMove xs))
      = Timeline.handleMouseDown x0 clip (Some m) /\
    clips (app (run ui (map MouseMove xs))) =
      map (fun c => if String.eqb (id c) (id clip)
                    then spread c (gesture_updates m clip x0 (final xk xs))
                    else c) cs.
Proof.
  intros Hnd Hin Hid.
  induction xs as [|x xs IH]; intros ui xk Hds Hc.
  - split; assumption.
  - destruct (move_in_drag m x0 xk x cs clip ui Hnd Hin Hid Hds Hc)
      as [Hds1 Hc1].
    rewrite Hds in Hds1.
    apply (IH (step ui (MouseMove x)) x Hds1 Hc1).
Qed.

Lemma moves_after_release (xs : list Q) :
  forall ui, isDragging (dragState ui) = false ->
             clips (app (run ui (map MouseMove xs))) = clips (app ui).
Proof.
  induction xs as [|x xs IH]; intros ui H; [reflexivity|].
  cbn [map run fold_left].
  assert (Hs : step ui (MouseMove x)
               = {| app := commit (app ui) (app ui); dragState := dragState ui |}).
  { unfold step. cbn [handle]. unfold Timeline.handleMouseMove.
    rewrite H. reflexivity. }
  unfold run in IH. rewrite IH.
  - rewrite Hs. cbn [app]. apply clips_commit.
  - rewrite Hs. exact H.
Qed.

(** X16.  A drag depends only on where the button was pressed and where
    it was released: the clips after a press, any pointer movements, a
    last movement to [x] and the release are those of a single movement
    to [x], and pointer movements after the release change nothing. *)
Theorem gesture_result (m : DragMode) (n : nat) (x0 x : Q) (xs ys : list Q)
    (ui : UI) (clip : Clip) :
  NoDup (map id (clips (app ui))) ->
  nth_error (clips (app ui)) n = Some clip ->
  id clip <> ""%string ->
  clips (app (run ui (MouseDown n (Some m) x0
                      :: map MouseMove (xs ++ [x])
                      ++ MouseUp :: map MouseMove ys))) =
  clips (app (drag m n x0 x ui)).
Proof.
  intros Hnd Hn Hid.
  rewrite (drag_clips m n x0 x ui clip Hnd Hn Hid).
  pose proof (nth_error_In _ _ Hn) as Hin.
  assert (Hlast : final x0 (xs ++ [x]) = x).
  { clear. revert x0. induction xs as [|a xs IH]; intros x0; [reflexivity|].
    cbn [List.app final]. apply IH. }
  destruct (xs ++ [x]) as [|x1 rest] eqn:El.
  { destruct xs; discriminate. }
  cbn [final] in Hlast.
  change (run ui (MouseDown n (Some m) x0
                  :: map MouseMove (x1 :: rest) ++ MouseUp :: map MouseMove ys))
    with (run (drag m n x0 x1 ui)
              (map MouseMove rest ++ MouseUp :: map MouseMove ys)).
  rewrite run_app.
  assert (Hds1 : dragState (drag m n x0 x1 ui)
                 = Timeline.handleMouseDown x0 clip (Some m)).
  { unfold drag, run. cbn [fold_left]. unfold step at 2. cbn [handle].
    rewrite Hn. unfold step. cbn [dragState app handle].
    destruct (Timeline.handleMouseMove _ _ x1) as [[cid u]|]; reflexivity. }
  pose proof (drag_clips m n x0 x1 ui clip Hnd Hn Hid) as Hc1.
  set (ui1 := drag m n x0 x1 ui) in *. clearbody ui1.
  destruct (moves_in_drag m x0 (clips (app ui)) clip rest Hnd Hin Hid
              ui1 x1 Hds1 Hc1) as [Hds2 Hc2].
  set (ui2 := run ui1 (map MouseMove rest)) in *. clearbody ui2.
  change (run ui2 (MouseUp :: map MouseMove ys))
    with (run (step ui2 MouseUp) (map MouseMove ys)).
  rewrite moves_after_release by reflexivity.
  unfold step. cbn [app handle]. rewrite clips_commit, Hc2, Hlast.
  reflexivity.
Qed.

Lemma gesture_result_witness :
  clips (app (run Scenario.trim_ui
                (MouseDown 0 (Some trim_start) 300
                 :: map MouseMove ([250; 400] ++ [-200])
                 ++ MouseUp :: map MouseMove [0; 900]))) =
  clips (app (drag trim_start 0 300 (-200) Scenario.trim_ui)).
Proof.
  apply (gesture_result trim_start 0 300 (-200) [250; 400] [0; 900]
           Scenario.trim_ui Scenario.trim_clip).
  - repeat constructor. cbn. intuition.
  - reflexivity.
  - discriminate.
Defined.

(** ** Seeking on the ruler *)

(** X17.  A click on the ruler never edits the clips.  While a drag is in
    progress it does nothing; otherwise it clears the selection and,
    outside an export, moves the playhead to the clicked time snapped to
    the grid: the number nearest to a whole multiple of the grid step,
    the multiple being the rounded quotient of the clicked time by the
    step; it is not negative and differs from the clicked time by at
    most half a grid step and the error of the two roundings.  During an
    export the playhead stays. *)
Theorem timeline_seek (ui : UI) (x : Q) :
  let s := app ui in
  let s' := app (step ui (TimelineClick x)) in
  let t := Math.max 0 (x [/] Timeline.scale) in
  clips s' = clips s /\
  (isDragging (dragState ui) = true ->
   selectedClipId s' = selectedClipId s /\ currentTime s' = currentTime s) /\
  (isDragging (dragState ui) = false ->
   selectedClipId s' = None /\
   (isExporting s = true -> currentTime s' = currentTime s) /\
   (isExporting s = false ->
    0 <= currentTime s' /\
    currentTime s'
    = inject_Z (Math.round (t [/] Timeline.SNAP_GRID)) [*] Timeline.SNAP_GRID /\
    (0 <= Math.round (t [/] Timeline.SNAP_GRID))%Z /\
    Number.is_number (currentTime s') /\
    Qabs (currentTime s' - t)
    <= Timeline.SNAP_GRID / 2 + 4 * Number.u * (t + Timeline.SNAP_GRID))).
Proof.
  cbn zeta. unfold step. cbn [app handle].
  rewrite clips_commit, selection_commit, currentTime_commit.
  unfold Timeline.handleTimelineClick.
  destruct (isDragging (dragState ui)).
  - split; [reflexivity|]. split; [intros _; split; reflexivity|discriminate].
  - cbn [with_app app]. unfold onSeek.
    cbn [isExporting setSelectedClipId].
    destruct (isExporting (app ui)).
    + split; [reflexivity|]. split; [discriminate|]. intros _.
      split; [reflexivity|]. split; [reflexivity|discriminate].
    + split; [reflexivity|]. split; [discriminate|]. intros _.
      split; [reflexivity|]. split; [discriminate|]. intros _.
      cbn [currentTime setCurrentTime].
      set (t := Math.max 0 (x [/] Timeline.scale)).
      assert (Ht : 0 <= t).
      { subst t.
        destruct (max_cases 0 (x [/] Timeline.scale)) as [[H E]|[H E]];
          rewrite E; lra. }
      split; [apply snap_nonneg, Ht|].
      split; [reflexivity|].
      split; [apply round_nonneg, div_nonneg; [exact Ht|apply SNAP_GRID_pos]|].
      split; [apply snap_is_number|].
      apply snap_near, Ht.
Qed.

(** ** The transport during an export *)

Lemma resolutionState_commit (before s : State) :
  resolutionState (commit before s) = resolutionState s.
Proof. commit_field. Qed.

Ltac handler_cases :=
  unfold unless_exporting, togglePlay, handleExport, exportStart,
    ondataavailable, onstop, animate, advance, copy, paste, deleteKey,
    handleDeleteClip, handleSplitClip, onSeek, clearAll, addClipFromFile,
    handleClipUpdate;
  repeat match goal with
         | |- context [if ?b then _ else _] => destruct b
         | |- context [match ?o with Some _ => _ | None => _ end] => destruct o
         | |- context [match ?r with recording => _ | inactive => _ end] =>
             destruct r
         | |- context [let (_, _) := ?p in _] => destruct p
         end;
  try reflexivity.

(** X18.  During an export the user cannot move the transport: of all
    events only an animation frame and the end of the recording change
    the position, only an animation frame and the start of the recording
    change whether the transport plays, only the end of the recording
    leaves export mode, and the resolution preset cannot be changed.  An
    animation frame leaves export mode and the preset as they are. *)
Theorem export_locks_transport (ui : UI) (e : Event) :
  isExporting (app ui) = true ->
  let s := app ui in
  let s' := app (step ui e) in
  match e with
  | Frame _ =>
      isExporting s' = true /\ resolutionState s' = resolutionState s
  | RecorderStopped _ =>
      isPlaying s' = isPlaying s /\ resolutionState s' = resolutionState s
  | ExportTimeout _ _ =>
      currentTime s' = currentTime s /\ isExporting s' = true /\
      resolutionState s' = resolutionState s
  | _ =>
      currentTime s' = currentTime s /\ isPlaying s' = isPlaying s /\
      isExporting s' = true /\ resolutionState s' = resolutionState s
  end.
Proof.
  intros He. cbn zeta. unfold step. cbn [app].
  rewrite ?currentTime_commit, ?isPlaying_commit, ?isExporting_commit,
    ?resolutionState_commit.
  destruct e; cbn [handle with_app app];
    rewrite ?currentTime_commit, ?isPlaying_commit, ?isExporting_commit,
      ?resolutionState_commit;
    repeat split;
    unfold unless_exporting, handleExport, onSeek, animate, advance;
    cbn [isExporting setSelectedClipId];
    rewrite ?He;
    handler_cases;
    cbn [with_app app isExporting setSelectedClipId]; rewrite ?He;
    handler_cases;
    cbn [isExporting setPreviousTimeRef setCurrentTime setIsPlaying];
    try exact He.
Qed.

Lemma export_locks_transport_witness :
  currentTime (app (step recording_ui ClickBack))
  = currentTime (app recording_ui).
Proof.
  assert (H : isExporting (app recording_ui) = true)
    by (vm_compute; reflexivity).
  exact (proj1 (export_locks_transport recording_ui ClickBack H)).
Defined.

(** ** The identifiers of the clips *)

Lemma ids_append (cs : list Clip) (new : Clip) :
  NoDup (map id cs) -> (forall c, In c cs -> id c <> id new) ->
  NoDup (map id (cs ++ [new])).
Proof.
  intros Hnd Hfresh. rewrite map_app. apply NoDup_app; [exact Hnd| |].
  - repeat constructor. intros [].
  - intros x Hx [<-|[]]. apply in_map_iff in Hx.
    destruct Hx as (c & Hid & Hc). apply (Hfresh c Hc Hid).
Qed.

Lemma same_id_same_clip (cs : list Clip) (a b : Clip) :
  NoDup (map id cs) -> In a cs -> In b cs -> id a = id b -> a = b.
Proof.
  intros Hnd Ha Hb E.
  pose proof (find_clip_unique _ _ Hnd Ha) as Fa.
  pose proof (find_clip_unique _ _ Hnd Hb) as Fb.
  rewrite E in Fa. congruence.
Qed.

Lemma ids_same (ui ui' : UI) :
  clips (app ui') = clips (app ui) -> unique_ids ui -> unique_ids ui'.
Proof. unfold unique_ids. intros ->. exact (fun H => H). Qed.

Lemma ids_commit (ui : UI) (e : Event) :
  unique_ids (handle ui e) -> unique_ids (step ui e).
Proof. apply ids_same. unfold step. cbn [app]. apply clips_commit. Qed.

Lemma ids_delete (cid : string) (ui : UI) :
  unique_ids ui -> unique_ids (with_app (handleDeleteClip cid) ui).
Proof.
  unfold unique_ids, with_app, handleDeleteClip. intros S.
  destruct (option_string_eqb (selectedClipId (app ui)) cid);
    cbn [app clips setClips setSelectedClipId]; apply ids_filter, S.
Qed.

Lemma ids_add (gid url : string) (f : File) (tid : string)
    (ty : MediaType) (meta : Metadata) (ui : UI) :
  unique_ids ui -> fresh ui gid ->
  unique_ids (with_app (addClipFromFile gid url f tid ty meta) ui).
Proof.
  unfold unique_ids, with_app, addClipFromFile, addClip. intros S Hfresh.
  cbn [app clips setClips]. apply ids_append; [exact S|exact Hfresh].
Qed.

Lemma ids_paste (g : string) (ui : UI) :
  unique_ids ui -> fresh ui g -> unique_ids (with_app (paste g) ui).
Proof.
  unfold unique_ids, with_app, paste. intros S Hfresh.
  destruct (clipboardRef (app ui)) as [board|]; [|exact S].
  cbn [app clips setClips setSelectedClipId].
  apply ids_append; [exact S|exact Hfresh].
Qed.

Lemma ids_split (g1 g2 : string) (ui : UI) :
  unique_ids ui -> fresh ui g1 -> fresh ui g2 -> g1 <> g2 ->
  unique_ids (with_app (handleSplitClip g1 g2) ui).
Proof.
  unfold unique_ids, with_app, handleSplitClip. intros S F1 F2 Hne.
  destruct (truthy (selectedClipId (app ui))) as [sel|]; [|exact S].
  destruct (find_clip sel (clips (app ui))) as [clip|]; [|exact S].
  match goal with
  | |- context [if ?b then _ else _] => destruct b; [exact S|]
  end.
  cbn [app clips setClips setSelectedClipId].
  set (others := filter (fun c => negb (String.eqb (id c) (id clip)))
                        (clips (app ui))).
  assert (Hothers : forall c, In c others -> In c (clips (app ui))).
  { intros c Hc. apply filter_In in Hc. apply Hc. }
  replace (others ++ [splitLeft g1 clip (currentTime (app ui));
                      splitRight g2 clip (currentTime (app ui))])
    with ((others ++ [splitLeft g1 clip (currentTime (app ui))])
          ++ [splitRight g2 clip (currentTime (app ui))])
    by (rewrite <- app_assoc; reflexivity).
  apply ids_append; [apply ids_append|].
  - apply ids_filter, S.
  - intros c Hc. apply F1, Hothers, Hc.
  - intros c Hc. apply in_app_or in Hc.
    destruct Hc as [Hc|[<-|[]]]; [apply F2, Hothers, Hc|exact Hne].
Qed.

Lemma ids_update (cid : string) (u : ClipUpdates) (ui : UI) :
  unique_ids ui -> unique_ids (with_app (handleClipUpdate cid u) ui).
Proof.
  unfold unique_ids, with_app, handleClipUpdate. intros S.
  cbn [app clips setClips]. rewrite map_map.
  rewrite (map_ext _ id); [exact S|].
  intros c. destruct (String.eqb (id c) cid); reflexivity.
Qed.

Lemma handle_ids (ui : UI) (e : Event) :
  unique_ids ui -> provided ui e -> unique_ids (handle ui e).
Proof.
  intros S P.
  destruct e as [time| | |gid1 gid2| |gid url f tid ty meta| |gid| |n m x|x|
                 |x|n|o|r| |refs_ok sup|data|now]; cbn [handle];
    try (apply (ids_same ui); [|exact S];
         cbn [with_app app dragState]; handler_cases; fail).
  - destruct (negb (is_some (truthy (selectedClipId (app ui))))
              || isExporting (app ui)) eqn:G.
    + apply (ids_same ui); [|exact S]; cbn [with_app app dragState];
        rewrite ?G; reflexivity.
    + apply (ids_same (with_app (handleSplitClip gid1 gid2) ui));
        [|apply ids_split; try exact S; apply P];
        cbn [with_app app dragState]; rewrite ?G; reflexivity.
  - unfold unique_ids, with_app, unless_exporting, clearAll.
    destruct (isExporting (app ui)); [exact S|]. constructor.
  - apply ids_add; [exact S|exact P].
  - apply ids_paste; [exact S|exact P].
  - unfold with_app, deleteKey.
    destruct (truthy (selectedClipId (app ui)));
      [apply (ids_delete s ui S)|destruct ui; exact S].
  - destruct (Timeline.handleMouseMove (dragState ui) (clips (app ui)) x)
      as [[cid u]|]; [|exact S].
    apply (ids_update cid u ui S).
  - destruct (Timeline.handleTimelineClick (dragState ui) x); [|exact S].
    apply (ids_same ui); [|exact S];
      cbn [with_app app dragState]; handler_cases.
  - destruct (nth_error (clips (app ui)) n);
      [apply ids_delete, S|exact S].
Qed.

Lemma run_ids (es : list Event) :
  forall ui, unique_ids ui -> well_provided ui es -> unique_ids (run ui es).
Proof.
  induction es as [|e es IH]; intros ui S P; [exact S|].
  destruct P as [Pe Pes]. cbn [run fold_left].
  apply (IH (step ui e)); [|exact Pes].
  apply ids_commit, handle_ids; assumption.
Qed.

Lemma initial_ids : unique_ids initialUI.
Proof. constructor. Qed.

(** X20.  Along every run of the editor from its initial state, with
    generated identifiers that are fresh, the clip identifiers stay
    unique: no two clips of the model share one, whatever imports,
    drags, trims, splits, pastes and deletions the run holds and however
    they interleave. *)
Theorem clip_ids_stay_unique (es : list Event) :
  well_provided initialUI es ->
  NoDup (map id (clips (app (run initialUI es)))).
Proof.
  intros P. exact (run_ids es initialUI initial_ids P).
Qed.

Lemma clip_ids_stay_unique_witness :
  NoDup (map id (clips (app (run initialUI edit_run)))).
Proof.
  apply (clip_ids_stay_unique edit_run).
  unfold edit_run. cbn [well_provided provided].
  repeat split.
  - intros c [].
  - intros c Hc. vm_compute in Hc. destruct Hc as [<-|[]]. discriminate.
Defined.

(** ** Where the clips come from *)

Lemma imported_more (hist : list Event) (e : Event) (c : Clip) :
  imported hist c -> imported (hist ++ [e]) c.
Proof.
  intros (gid & url & f & tid & ty & meta & Hin & H).
  exists gid, url, f, tid, ty, meta. split; [|exact H].
  apply in_or_app. left. exact Hin.
Qed.

Lemma imported_same (hist : list Event) (a b : Clip) :
  same_media a b -> imported hist a -> imported hist b.
Proof.
  intros (Ht & Hs & Hf & Hty & Htd & Hn & Hth & Hw & Hh)
         (gid & url & f & tid & ty & meta & Hin & H).
  exists gid, url, f, tid, ty, meta. split; [exact Hin|].
  rewrite Ht, Hs, Hf, Hty, Htd, Hn, Hth, Hw, Hh. exact H.
Qed.

Lemma same_media_spread (c : Clip) (u : ClipUpdates) :
  same_media c (spread c u).
Proof. repeat split. Qed.

Lemma handle_imported (hist : list Event) (ui : UI) (e : Event) :
  (forall c, In c (clips (app ui)) -> imported hist c) ->
  (forall b, clipboardRef (app ui) = Some b -> imported hist b) ->
  (forall c, In c (clips (app (handle ui e))) -> imported (hist ++ [e]) c) /\
  (forall b, clipboardRef (app (handle ui e)) = Some b ->
             imported (hist ++ [e]) b).
Proof.
  intros Hclips Hboard.
  assert (Hsame : forall s',
            clips s' = clips (app ui) ->
            clipboardRef s' = clipboardRef (app ui) ->
            (forall c, In c (clips s') -> imported (hist ++ [e]) c) /\
            (forall b, clipboardRef s' = Some b -> imported (hist ++ [e]) b)).
  { intros s' Hc Hb. rewrite Hc, Hb. split.
    - intros c Hin. apply imported_more, Hclips, Hin.
    - intros b Hbd. apply imported_more, Hboard, Hbd. }
  assert (Hdel : forall cid,
            (forall c, In c (clips (handleDeleteClip cid (app ui))) ->
                       imported (hist ++ [e]) c) /\
            (forall b, clipboardRef (handleDeleteClip cid (app ui)) = Some b ->
                       imported (hist ++ [e]) b)).
  { intros cid. split.
    - intros c Hin. apply imported_more, Hclips, (in_delete cid _ _ Hin).
    - intros b Hb. apply imported_more, Hboard. rewrite <- Hb.
      unfold handleDeleteClip.
      destruct (option_string_eqb (selectedClipId (app ui)) cid); reflexivity. }
  destruct e as [time| | |gid1 gid2| |gid url f tid ty meta| |gid| |n m x|x|
                 |x|n|o|r| |refs_ok sup|data|now]; cbn [handle];
    try (apply Hsame; cbn [with_app app]; handler_cases; fail).
  - (* Split *)
    cbn [with_app app].
    destruct (negb (is_some (truthy (selectedClipId (app ui))))
              || isExporting (app ui)); [apply Hsame; reflexivity|].
    split.
    + intros c Hin. apply in_split in Hin.
      destruct Hin as [Hin|(clip & _ & Hcl & _ & [->| ->])].
      * apply imported_more, Hclips, Hin.
      * apply imported_more.
        apply (imported_same hist clip); [repeat split|apply Hclips, Hcl].
      * apply imported_more.
        apply (imported_same hist clip); [repeat split|apply Hclips, Hcl].
    + intros b Hb. apply imported_more, Hboard. rewrite <- Hb.
      unfold handleSplitClip. handler_cases.
  - (* Clear All *)
    cbn [with_app app]. unfold unless_exporting.
    destruct (isExporting (app ui)); [apply Hsame; reflexivity|].
    split; [intros c []|].
    intros b Hb. apply imported_more, Hboard, Hb.
  - (* import *)
    cbn [with_app app]. split.
    + intros c Hin. unfold addClipFromFile, addClip in Hin.
      cbn [clips setClips] in Hin. apply in_app_or in Hin.
      destruct Hin as [Hin|[<-|[]]]; [apply imported_more, Hclips, Hin|].
      exists gid, url, f, tid, ty, meta.
      split; [apply in_or_app; right; left; reflexivity|].
      repeat split.
    + intros b Hb. apply imported_more, Hboard, Hb.
  - (* Copy *)
    cbn [with_app app]. unfold copy.
    destruct (truthy (selectedClipId (app ui))) as [sel|];
      [|apply Hsame; reflexivity].
    destruct (find_clip sel (clips (app ui))) as [clip|] eqn:F;
      [|apply Hsame; reflexivity].
    split.
    + intros c Hin. apply imported_more, Hclips, Hin.
    + intros b [= <-]. apply imported_more, Hclips, (find_clip_some _ _ _ F).
  - (* Paste *)
    cbn [with_app app]. split.
    + intros c Hin. apply in_paste in Hin.
      destruct Hin as [Hin|(board & Hb & ->)].
      * apply imported_more, Hclips, Hin.
      * apply imported_more.
        apply (imported_same hist board); [repeat split|apply Hboard, Hb].
    + intros b Hb. apply imported_more, Hboard. rewrite <- Hb.
      unfold paste. destruct (clipboardRef (app ui)) eqn:B; symmetry; exact B.
  - (* Delete key *)
    cbn [with_app app]. unfold deleteKey.
    destruct (truthy (selectedClipId (app ui)));
      [apply Hdel|apply Hsame; reflexivity].
  - (* move *)
    destruct (Timeline.handleMouseMove (dragState ui) (clips (app ui)) x)
      as [[cid u]|]; [|apply Hsame; reflexivity].
    cbn [with_app app]. split.
    + intros c Hin. cbn in Hin. apply in_map_iff in Hin.
      destruct Hin as (c0 & <- & Hin0). apply imported_more.
      destruct (String.eqb (id c0) cid); [|apply Hclips, Hin0].
      apply (imported_same hist c0);
        [apply same_media_spread|apply Hclips, Hin0].
    + intros b Hb. apply imported_more, Hboard, Hb.
  - (* ruler *)
    destruct (Timeline.handleTimelineClick (dragState ui) x);
      apply Hsame; cbn [with_app app]; handler_cases.
  - (* context menu *)
    destruct (nth_error (clips (app ui)) n);
      [apply Hdel|apply Hsame; reflexivity].
Qed.

Lemma run_imported (es : list Event) :
  forall (hist : list Event) (ui : UI),
    (forall c, In c (clips (app ui)) -> imported hist c) ->
    (forall b, clipboardRef (app ui) = Some b -> imported hist b) ->
    forall c, In c (clips (app (run ui es))) -> imported (hist ++ es) c.
Proof.
  induction es as [|e es IH]; intros hist ui Hclips Hboard c Hin.
  - rewrite app_nil_r. apply Hclips, Hin.
  - replace (hist ++ e :: es) with ((hist ++ [e]) ++ es)
      by (rewrite <- app_assoc; reflexivity).
    destruct (handle_imported hist ui e Hclips Hboard) as [Hc' Hb'].
    apply (IH (hist ++ [e]) (step ui e)); [| |exact Hin].
    + intros c' Hin'. unfold step in Hin'. cbn [app] in Hin'.
      rewrite clips_commit in Hin'. apply Hc', Hin'.
    + intros b Hb. unfold step in Hb. cbn [app] in Hb.
      rewrite clipboard_commit in Hb. apply Hb', Hb.
Qed.

Lemma dropKind_track (tid : string) (f : File) (k : MediaType) :
  dropKind tid f = Some k ->
  exists t, In t tracks /\ track_id t = tid /\ track_type t = k.
Proof.
  unfold dropKind.
  destruct (find (fun t => String.eqb (track_id t) tid) tracks) as [t|] eqn:F;
    [|discriminate].
  apply find_some in F. destruct F as [Hin E]. apply String.eqb_eq in E.
  intros H. exists t. split; [exact Hin|]. split; [exact E|].
  destruct (track_type t);
    [destruct (String.prefix "video/" (file_type f))
    |destruct (String.prefix "audio/" (file_type f))]; congruence.
Qed.

(** X21.  Clips only come from imports and no edit changes the media of
    a clip: along every run from the initial state each clip of the
    model has the track, source, file, kind, media duration, name and
    dimensions of an import of the run; and when every import comes from
    the interface (the file input of a track, or an accepted drop) each
    clip lies on a track of its own kind. *)
Theorem clips_come_from_imports (es : list Event) (c : Clip) :
  In c (clips (app (run initialUI es))) ->
  imported es c /\ (Forall from_interface es -> on_lane c).
Proof.
  intros Hin.
  assert (Himp : imported es c).
  { apply (run_imported es [] initialUI); [intros c' []|discriminate|exact Hin]. }
  split; [exact Himp|]. intros Hall.
  destruct Himp as (gid & url & f & tid & ty & meta & He & Ht & _ & Hf & Hty & _).
  rewrite Forall_forall in Hall. specialize (Hall _ He). cbn in Hall.
  unfold on_lane. rewrite Ht, Hty.
  destruct Hall as [H|H]; [exact H|apply (dropKind_track tid f ty H)].
Qed.

Lemma clips_come_from_imports_witness :
  Forall on_lane
    (clips
       (app (run initialUI
               [ MediaLoaded "c0" "blob:0"
                   {| file_name := "a.mp4"; file_type := "video/mp4" |}
                   "track-1" video
                   {| meta_duration := 5; meta_width := Some 1280%Z;
                      meta_height := Some 720%Z |};
                 TimelineClick 200;
                 MouseDown 0 (Some move) 0;
                 MouseUp;
                 ClickSplit "l" "r" ]))).
Proof.
  apply Forall_forall. intros c Hin.
  apply (clips_come_from_imports _ c Hin).
  apply Forall_cons; [right; reflexivity|].
  repeat (apply Forall_cons; [exact I|]). apply Forall_nil.
Defined.

(** ** The resolution of an export *)

Lemma recorder_stop_keeps (s : State) (rec' : MediaRecorder) :
  mediaRecorderRef (recorder_stop s) = Some rec' ->
  exists rec, mediaRecorderRef s = Some rec /\
              rec_resolution rec' = rec_resolution rec /\
              (live rec' -> live rec).
Proof.
  unfold recorder_stop.
  destruct (mediaRecorderRef s) as [rec|] eqn:R.
  - destruct (rec_state rec) eqn:St.
    + intros D. rewrite R in D. injection D as <-.
      exists rec. split; [reflexivity|]. split; [reflexivity|auto].
    + cbn [mediaRecorderRef emit setMediaRecorderRef]. intros [= <-].
      exists rec. split; [reflexivity|]. split; [reflexivity|].
      intros _. left. exact St.
  - intros D. rewrite R in D. discriminate D.
Qed.

Lemma recorder_settled (h : State) :
  mediaRecorderRef (playbackEffect (adjustTotalDuration h))
  = mediaRecorderRef h.
Proof.
  unfold playbackEffect, adjustTotalDuration.
  destruct (isPlaying (setTotalDuration (newDuration (clips h)) h));
    reflexivity.
Qed.

Lemma recorder_commit (before h : State) (rec' : MediaRecorder) :
  mediaRecorderRef (commit before h) = Some rec' ->
  exists rec, mediaRecorderRef h = Some rec /\
              rec_resolution rec' = rec_resolution rec /\
              (live rec' -> live rec).
Proof.
  unfold commit, exportWatch.
  set (s1 := playbackEffect (adjustTotalDuration h)).
  assert (Hsame : mediaRecorderRef s1 = Some rec' ->
                  exists rec, mediaRecorderRef h = Some rec /\
                              rec_resolution rec' = rec_resolution rec /\
                              (live rec' -> live rec)).
  { subst s1. rewrite recorder_settled. intros H. exists rec'.
    split; [exact H|]. split; [reflexivity|auto]. }
  destruct (watch_deps_changed before s1); [|exact Hsame].
  destruct (isExporting s1 && negb (isPlaying s1)
            && geb (currentTime s1) (totalDuration s1)); [|exact Hsame].
  intros H. destruct (recorder_stop_keeps _ _ H) as (rec & Hrec & Hres & Hl).
  subst s1. rewrite recorder_settled in Hrec.
  exists rec. split; [exact Hrec|]. split; assumption.
Qed.

Lemma delivered_commit (before h : State) (d : Download) :
  In (Delivered d) (outputs (commit before h)) -> In (Delivered d) (outputs h).
Proof.
  unfold commit, exportWatch.
  set (s1 := playbackEffect (adjustTotalDuration h)).
  assert (Hs1 : outputs s1 = outputs h).
  { subst s1. unfold playbackEffect, adjustTotalDuration.
    destruct (isPlaying (setTotalDuration (newDuration (clips h)) h));
      reflexivity. }
  destruct (watch_deps_changed before s1); [|rewrite Hs1; auto].
  destruct (isExporting s1 && negb (isPlaying s1)
            && geb (currentTime s1) (totalDuration s1)); [|rewrite Hs1; auto].
  unfold recorder_stop.
  destruct (mediaRecorderRef s1) as [rec|]; [|rewrite Hs1; auto].
  destruct (rec_state rec); [rewrite Hs1; auto|].
  cbn [outputs emit setMediaRecorderRef]. rewrite Hs1.
  intros [H|H]; [discriminate H|exact H].
Qed.

Lemma holds_commit (r : Resolution) (base : list Output) (before h : State) :
  holds r base h -> holds r base (commit before h).
Proof.
  intros [Ht Hr Ho]. constructor.
  - rewrite exportTimeout_commit. exact Ht.
  - intros rec' Hrec' Hlive.
    destruct (recorder_commit _ _ _ Hrec') as (rec & Hrec & Hres & Hl).
    rewrite Hres. apply (Hr rec Hrec (Hl Hlive)).
  - intros d Hd. apply Ho, (delivered_commit _ _ _ Hd).
Qed.

Lemma holds_same (r : Resolution) (base : list Output) (s h : State) :
  exportTimeout h = exportTimeout s ->
  mediaRecorderRef h = mediaRecorderRef s ->
  outputs h = outputs s ->
  holds r base s -> holds r base h.
Proof.
  intros H1 H2 H3 [Ht Hr Ho].
  constructor; rewrite ?H1, ?H2, ?H3; assumption.
Qed.

Lemma handle_holds (r : Resolution) (base : list Output) (ui : UI) (e : Event) :
  e <> ClickExport ->
  holds r base (app ui) -> holds r base (app (handle ui e)).
Proof.
  intros Hne H. pose proof H as [Ht Hr Ho].
  destruct e as [time| | |gid1 gid2| |gid url f tid ty meta| |gid| |n m x|x|
                 |x|n|o|r'| |refs_ok sup|data|now]; cbn [handle];
    try (apply (holds_same r base (app ui)); [| | |exact H];
         cbn [with_app app]; handler_cases;
         cbn [with_app app]; handler_cases; fail).
  - (* Export *)
    destruct (Hne eq_refl).
  - (* the settle timeout *)
    cbn [with_app app]. unfold exportStart.
    destruct (exportTimeout (app ui)) as [r0|] eqn:T; [|exact H].
    pose proof (Ht r0 eq_refl) as ->.
    assert (H0 : holds r base (setExportTimeout None (app ui))).
    { constructor;
        cbn [exportTimeout mediaRecorderRef outputs setExportTimeout];
        [discriminate|exact Hr|exact Ho]. }
    destruct refs_ok; cbn [negb]; [|exact H0].
    cbn zeta. destruct (sup (chooseMimeType sup)); cbn [negb]; [|exact H0].
    constructor;
      cbn [exportTimeout mediaRecorderRef outputs setIsPlaying
           setMediaRecorderRef setExportTimeout].
    + discriminate.
    + intros rec [= <-] _. reflexivity.
    + exact Ho.
  - (* a chunk *)
    cbn [with_app app].
    apply (holds_same r base (app ui)); [| | |exact H];
      (destruct (mediaRecorderRef (app ui)) as [rec|] eqn:R;
       [|first [reflexivity|exact R]];
       destruct (rec_state rec), (stop_queued rec);
       unfold ondataavailable; try reflexivity; try exact R;
       destruct (0 <? blob_size data)%nat;
       cbn [exportTimeout mediaRecorderRef outputs setRecordedChunksRef];
       first [reflexivity|exact R]).
  - (* the stop event *)
    cbn [with_app app].
    destruct (mediaRecorderRef (app ui)) as [rec|] eqn:R; [|exact H].
    destruct (stop_queued rec) eqn:Q; [|exact H].
    unfold onstop. constructor;
      cbn [exportTimeout mediaRecorderRef outputs setCurrentTime
           setIsExporting emit setMediaRecorderRef].
    + exact Ht.
    + intros rec' [= <-] [Hl|Hl]; cbn in Hl; [|discriminate].
      apply (Hr rec eq_refl). left. exact Hl.
    + intros d [[= <-]|Hd]; [|apply Ho, Hd].
      right. unfold named. cbn [dl_name_width dl_name_height rec_resolution].
      rewrite (Hr rec eq_refl (or_intror Q)). split; reflexivity.
Qed.

Lemma run_holds (r : Resolution) (base : list Output) (es : list Event) :
  forall ui,
    Forall (fun e => e <> ClickExport) es ->
    holds r base (app ui) -> holds r base (app (run ui es)).
Proof.
  induction es as [|e es IH]; intros ui Hall H; [exact H|].
  inversion Hall as [|e' es' He Hes]; subst. cbn [run fold_left].
  apply (IH (step ui e) Hes). unfold step. cbn [app].
  apply holds_commit, handle_holds; assumption.
Qed.

(** X22.  An export is named after the resolution at the click: when
    Export is clicked outside an export, every file delivered afterwards,
    until Export is clicked again, carries in its name the width and
    height that the resolution setting gave at the click, whatever the
    user changes in the meantime (the custom resolution can still be
    edited during the export). *)
Theorem export_named_at_click (ui : UI) (es : list Event) (d : Download) :
  reachable_inv (app ui) ->
  isExporting (app ui) = false ->
  Forall (fun e => e <> ClickExport) es ->
  In (Delivered d) (outputs (app (run (step ui ClickExport) es))) ->
  In (Delivered d) (outputs (app ui)) \/
  named d (currentResolution (app ui)).
Proof.
  intros Hinv He Hall Hin.
  destruct (idle_inv _ (ri_phase _ Hinv) He) as [Hto Hquiet].
  assert (H0 : holds (currentResolution (app ui)) (outputs (app ui))
                     (app (step ui ClickExport))).
  { unfold step. cbn [app handle with_app]. apply holds_commit.
    unfold handleExport. rewrite He. constructor;
      cbn [exportTimeout mediaRecorderRef outputs setExportTimeout
           setRecordedChunksRef setIsExporting setCurrentTime setIsPlaying].
    - intros r' [= <-]. reflexivity.
    - intros rec Hrec [Hl|Hl]; unfold quiet in Hquiet; rewrite Hrec in Hquiet;
        destruct Hquiet as [Q1 Q2]; congruence.
    - intros d' Hd'. left. exact Hd'. }
  apply (held_outputs _ _ _ (run_holds _ _ es _ Hall H0) d Hin).
Qed.

Lemma export_named_at_click_witness :
  all_named default_resolution
    (outputs (app (run (step loaded_ui ClickExport) export_after_click))).
Proof.
  apply Forall_forall. intros [p t|d] Hin; [exact I|].
  destruct (export_named_at_click loaded_ui export_after_click d) as [H|H].
  - apply run_inv, initial_inv.
  - vm_compute. reflexivity.
  - unfold export_after_click.
    repeat (apply Forall_cons; [discriminate|]). apply Forall_nil.
  - exact Hin.
  - vm_compute in H. destruct H.
  - exact H.
Defined.

(** ** The elements play the media of their clips *)

Lemma video_registry_entries (clips : list Clip) (refs : Elements.Registry)
    (i : string) (e : Elements.Element) :
  In (i, e) (fst (Elements.videoLifecycle clips refs)) ->
  In (i, e) refs \/
  exists c, In c clips /\ type c = video /\ id c = i /\
            e = Elements.createVideo c.
Proof.
  unfold Elements.videoLifecycle. cbn [fst].
  set (cs := filter (fun c => media_eqb (type c) video) clips).
  destruct (createMissing_spec Elements.createVideo cs
              (filter (fun e => Elements.set_has (map id cs) (fst e)) refs))
    as (extra & E & _ & Hnew & _).
  rewrite E. intros Hin. apply in_app_or in Hin. destruct Hin as [Hin|Hin].
  - left. apply filter_In in Hin. apply Hin.
  - right. destruct (Hnew i e Hin) as (_ & c & Hc & Hid & He).
    apply filter_In in Hc. destruct Hc as [Hc Ht].
    exists c. split; [exact Hc|]. split; [|split; assumption].
    destruct (type c); [reflexivity|discriminate].
Qed.

Lemma audio_registry_entries (clips : list Clip) (refs : Elements.Registry)
    (i : string) (e : Elements.Element) :
  In (i, e) (fst (Elements.audioLifecycle clips refs)) ->
  In (i, e) refs \/
  exists c, In c clips /\ type c = audio /\ id c = i /\
            e = Elements.createAudio c.
Proof.
  unfold Elements.audioLifecycle. cbn [fst].
  set (cs := filter (fun c => media_eqb (type c) audio) clips).
  destruct (createMissing_spec Elements.createAudio cs refs)
    as (extra & E & _ & Hnew & _).
  rewrite E. intros Hin. apply filter_In in Hin. destruct Hin as [Hin _].
  apply in_app_or in Hin. destruct Hin as [Hin|Hin]; [left; exact Hin|].
  right. destruct (Hnew i e Hin) as (_ & c & Hc & Hid & He).
  apply filter_In in Hc. destruct Hc as [Hc Ht].
  exists c. split; [exact Hc|]. split; [|split; assumption].
  destruct (type c); [discriminate|reflexivity].
Qed.

(** With fresh identifiers a clip keeps its media under its identifier:
    a clip after an event that has the identifier of a clip before it
    has the source and the kind of that clip. *)
Lemma handle_keeps_media (ui : UI) (e : Event) (c c' : Clip) :
  unique_ids ui -> provided ui e ->
  In c (clips (app ui)) -> In c' (clips (app (handle ui e))) ->
  id c' = id c -> source c' = source c /\ type c' = type c.
Proof.
  intros S P Hc Hc' Hid. pose proof S as Hids.
  assert (Hold : In c' (clips (app ui)) ->
                 source c' = source c /\ type c' = type c).
  { intros Hin. rewrite (same_id_same_clip _ _ _ Hids Hin Hc Hid).
    split; reflexivity. }
  assert (Hsame : clips (app (handle ui e)) = clips (app ui) ->
                  source c' = source c /\ type c' = type c).
  { intros E. apply Hold. rewrite <- E. exact Hc'. }
  destruct e as [time| | |gid1 gid2| |gid url f tid ty meta| |gid| |n m x|x|
                 |x|n|o|r| |refs_ok sup|data|now]; cbn [handle] in *;
    try (apply Hsame; cbn [with_app app]; handler_cases;
         cbn [with_app app]; handler_cases; fail).
  - (* Split *)
    cbn [with_app app] in Hc'.
    destruct (negb (is_some (truthy (selectedClipId (app ui))))
              || isExporting (app ui)); [apply Hold, Hc'|].
    destruct P as (F1 & F2 & _).
    apply in_split in Hc'.
    destruct Hc' as [Hin|(clip & _ & _ & _ & [->| ->])]; [apply Hold, Hin| |].
    + destruct (F1 c Hc). symmetry. exact Hid.
    + destruct (F2 c Hc). symmetry. exact Hid.
  - (* Clear All *)
    cbn [with_app app] in Hc'. unfold unless_exporting in Hc'.
    destruct (isExporting (app ui)); [apply Hold, Hc'|destruct Hc'].
  - (* import *)
    cbn [with_app app] in Hc'. unfold addClipFromFile, addClip in Hc'.
    cbn [clips setClips] in Hc'. apply in_app_or in Hc'.
    destruct Hc' as [Hin|[<-|[]]]; [apply Hold, Hin|].
    destruct (P c Hc). symmetry. exact Hid.
  - (* Paste *)
    cbn [with_app app] in Hc'. apply in_paste in Hc'.
    destruct Hc' as [Hin|(board & _ & ->)]; [apply Hold, Hin|].
    destruct (P c Hc). symmetry. exact Hid.
  - (* Delete key *)
    cbn [with_app app] in Hc'. unfold deleteKey in Hc'.
    destruct (truthy (selectedClipId (app ui)));
      [apply Hold, (in_delete _ _ _ Hc')|apply Hold, Hc'].
  - (* move *)
    destruct (Timeline.handleMouseMove (dragState ui) (clips (app ui)) x)
      as [[cid u]|]; [|apply Hold, Hc'].
    cbn in Hc'. apply in_map_iff in Hc'. destruct Hc' as (c0 & <- & Hin0).
    destruct (String.eqb (id c0) cid); [|apply Hold, Hin0].
    cbn [spread id] in Hid.
    rewrite (same_id_same_clip _ _ _ Hids Hin0 Hc Hid). split; reflexivity.
  - (* context menu *)
    destruct (nth_error (clips (app ui)) n);
      [apply Hold, (in_delete _ _ _ Hc')|apply Hold, Hc'].
Qed.

(** X23.  The elements play the media of their clips, at every render:
    when identifiers are fresh, if every element of the two registries is
    registered under the identifier of a clip of its kind and has the
    source of that clip, then this still holds after any event and the
    lifecycle effects that follow it; no clip is left with an element of
    another clip's media. *)
Theorem elements_stay_matched (ui : UI) (e : Event)
    (videoRefs audioRefs : Elements.Registry) :
  unique_ids ui -> provided ui e ->
  elements_match video (clips (app ui)) videoRefs ->
  elements_match audio (clips (app ui)) audioRefs ->
  let cs' := clips (app (step ui e)) in
  elements_match video cs' (fst (Elements.videoLifecycle cs' videoRefs)) /\
  elements_match audio cs' (fst (Elements.audioLifecycle cs' audioRefs)).
Proof.
  intros S P Hv Ha cs'. subst cs'.
  assert (Hstep : clips (app (step ui e)) = clips (app (handle ui e))).
  { unfold step. cbn [app]. apply clips_commit. }
  rewrite Hstep.
  split; intros i el Hin.
  - pose proof (has_in _ _ _ Hin) as Hhas.
    apply video_registry_keys in Hhas. destruct Hhas as (c' & Hc' & Ht' & Hid').
    apply video_registry_entries in Hin.
    destruct Hin as [Hin|(c & Hc & Ht & Hid & ->)].
    + destruct (Hv i el Hin) as (c & Hc & Ht & Hid & Hsrc).
      exists c'. split; [exact Hc'|]. split; [exact Ht'|]. split; [exact Hid'|].
      rewrite Hsrc.
      destruct (handle_keeps_media ui e c c' S P Hc Hc') as [Hs _];
        [congruence|]. rewrite Hs. reflexivity.
    + exists c. repeat split; assumption.
  - pose proof (has_in _ _ _ Hin) as Hhas.
    apply audio_registry_keys in Hhas. destruct Hhas as (c' & Hc' & Ht' & Hid').
    apply audio_registry_entries in Hin.
    destruct Hin as [Hin|(c & Hc & Ht & Hid & ->)].
    + destruct (Ha i el Hin) as (c & Hc & Ht & Hid & Hsrc).
      exists c'. split; [exact Hc'|]. split; [exact Ht'|]. split; [exact Hid'|].
      rewrite Hsrc.
      destruct (handle_keeps_media ui e c c' S P Hc Hc') as [Hs _];
        [congruence|]. rewrite Hs. reflexivity.
    + exists c. repeat split; assumption.
Qed.

Lemma elements_stay_matched_witness :
  elements_match video
    (clips (app (step loaded_ui (TimelineClick 200))))
    (fst (Elements.videoLifecycle
            (clips (app (step loaded_ui (TimelineClick 200))))
            [("c0"%string, Elements.createVideo Scenario.scenario_clip)])).
Proof.
  apply (elements_stay_matched loaded_ui (TimelineClick 200)
           [("c0"%string, Elements.createVideo Scenario.scenario_clip)] []).
  - apply run_ids; [apply initial_ids|].
    cbn [well_provided provided].
    split; [|exact I]. intros c [].
  - exact I.
  - intros i el [[= <- <-]|[]].
    destruct (clips (app loaded_ui)) as [|c0 l] eqn:E;
      [vm_compute in E; discriminate|].
    vm_compute in E. injection E as <- <-.
    eexists. split; [left; reflexivity|]. repeat split.
  - intros i el [].
Defined.

(** ** What the canvas shows *)

Lemma get_in (k : string) (el : Elements.Element) (m : Elements.Registry) :
  Elements.get k m = Some el -> In (k, el) m.
Proof.
  unfold Elements.get.
  destruct (find (fun e => String.eqb (fst e) k) m) as [[i e]|] eqn:F;
    [|discriminate].
  cbn. intros [= <-]. apply find_some in F. destruct F as [Hin E].
  apply String.eqb_eq in E. cbn in E. subst i. exact Hin.
Qed.

(** A size within the range of the attribute is taken as it is. *)
Lemma reflect_in_range (default v : Z) :
  (0 <= v <= 2147483647)%Z -> Canvas.reflect default v = v.
Proof.
  intros [Hlo Hhi]. unfold Canvas.reflect. cbn zeta.
  rewrite Z.mod_small by lia.
  destruct (Z.leb_spec v 2147483647); [reflexivity|lia].
Qed.

(** A size out of the range of the attribute: the canvas falls back to
    its default size of 300 by 150. *)
Example canvas_reset :
  exists cv',
    Canvas.draw
      {| Canvas.p_currentTime := 2; Canvas.p_clips := [];
         Canvas.p_width := -1; Canvas.p_height := 2147483648 |} []
      (Some {| Canvas.canvas_width := 1280; Canvas.canvas_height := 720;
               Canvas.picture := Canvas.Black |}) = Some cv' /\
    Canvas.canvas_width cv' = 300%Z /\ Canvas.canvas_height cv' = 150%Z.
Proof. eexists. split; [reflexivity|]. split; reflexivity. Qed.

(** X24.  After [draw] the canvas has the size the assignment of the
    requested resolution leaves: a canvas that has the requested size
    keeps it; otherwise width and height are assigned, which gives the
    requested size when it lies between 0 and 2^31 - 1, and in general
    the requested value as an unsigned 32-bit integer, replaced by the
    default (300 and 150) beyond 2^31 - 1.  The canvas shows "No Signal"
    exactly when no video clip is under the playhead; and when it shows
    a frame, that frame is of the element of the active video clip,
    which has data and, in a registry that matches the clips, plays the
    source of that clip. *)
Theorem canvas_shows_active_clip (props : Canvas.Props)
    (refs : Elements.Registry) (cv : Canvas.Canvas) :
  NoDup (map id (Canvas.p_clips props)) ->
  elements_match video (Canvas.p_clips props) refs ->
  exists cv',
    Canvas.draw props refs (Some cv) = Some cv' /\
    (Canvas.canvas_width cv = Canvas.p_width props /\
     Canvas.canvas_height cv = Canvas.p_height props ->
     Canvas.canvas_width cv' = Canvas.p_width props /\
     Canvas.canvas_height cv' = Canvas.p_height props) /\
    (~ (Canvas.canvas_width cv = Canvas.p_width props /\
        Canvas.canvas_height cv = Canvas.p_height props) ->
     Canvas.canvas_width cv'
     = Canvas.reflect Canvas.DEFAULT_WIDTH (Canvas.p_width props) /\
     Canvas.canvas_height cv'
     = Canvas.reflect Canvas.DEFAULT_HEIGHT (Canvas.p_height props)) /\
    ((0 <= Canvas.p_width props <= 2147483647)%Z ->
     (0 <= Canvas.p_height props <= 2147483647)%Z ->
     Canvas.canvas_width cv' = Canvas.p_width props /\
     Canvas.canvas_height cv' = Canvas.p_height props) /\
    ((exists px, Canvas.picture cv' = Canvas.NoSignal px) <->
     Player.activeVideoClip (Canvas.p_clips props)
                            (Canvas.p_currentTime props) = None) /\
    (forall el, Canvas.picture cv' = Canvas.Image el ->
       exists clip,
         Player.activeVideoClip (Canvas.p_clips props)
                                (Canvas.p_currentTime props) = Some clip /\
         Elements.get (id clip) refs = Some el /\
         (2 <= Player.readyState (Elements.media el))%Z /\
         Elements.src el = Some (source clip)).
Proof.
  intros Hnd Hmatch. unfold Canvas.draw. eexists. split; [reflexivity|].
  cbn [Canvas.canvas_width Canvas.canvas_height Canvas.picture].
  split; [|split; [|split; [|split]]].
  - intros [Ew Eh]. rewrite Ew, Eh, !Z.eqb_refl. cbn [negb orb].
    split; reflexivity.
  - intros Hne.
    destruct (Z.eqb_spec (Canvas.canvas_width cv) (Canvas.p_width props))
      as [Ew|_]; cbn [negb orb]; [|split; reflexivity].
    destruct (Z.eqb_spec (Canvas.canvas_height cv) (Canvas.p_height props))
      as [Eh|_]; cbn [negb]; [|split; reflexivity].
    destruct (Hne (conj Ew Eh)).
  - intros Hw Hh.
    destruct (Z.eqb_spec (Canvas.canvas_width cv) (Canvas.p_width props))
      as [Ew|_]; cbn [negb orb];
      [|split; apply reflect_in_range; assumption].
    destruct (Z.eqb_spec (Canvas.canvas_height cv) (Canvas.p_height props))
      as [Eh|_]; cbn [negb];
      [split; assumption|split; apply reflect_in_range; assumption].
  - destruct (Player.activeVideoClip (Canvas.p_clips props)
                                     (Canvas.p_currentTime props)) as [clip|].
    + split; [|discriminate]. intros [px H].
      destruct (Elements.get (id clip) refs) as [el|]; [|discriminate].
      destruct (2 <=? Player.readyState (Elements.media el))%Z; discriminate.
    + split; [reflexivity|]. intros _. eexists. reflexivity.
  - intros el.
    destruct (Player.activeVideoClip (Canvas.p_clips props)
                                     (Canvas.p_currentTime props))
      as [clip|] eqn:A; [|discriminate].
    destruct (Elements.get (id clip) refs) as [el'|] eqn:G; [|discriminate].
    destruct (Z.leb_spec 2 (Player.readyState (Elements.media el')));
      [|discriminate].
    intros [= <-]. exists clip. split; [reflexivity|]. split; [exact G|].
    split; [assumption|].
    destruct (Hmatch _ _ (get_in _ _ _ G)) as (c & Hc & _ & Hid & Hsrc).
    destruct (activeVideoClip_some _ _ _ A) as (Hin & _ & _).
    rewrite <- (same_id_same_clip _ _ _ Hnd Hc Hin Hid). exact Hsrc.
Qed.

Lemma canvas_shows_active_clip_witness :
  exists cv',
    Canvas.draw
      {| Canvas.p_currentTime := 2; Canvas.p_clips := [Scenario.scenario_clip];
         Canvas.p_width := 1280; Canvas.p_height := 720 |}
      [("c0"%string, Elements.createVideo Scenario.scenario_clip)]
      (Some {| Canvas.canvas_width := 300; Canvas.canvas_height := 150;
               Canvas.picture := Canvas.Black |}) = Some cv' /\
    Canvas.canvas_width cv' = 1280%Z /\ Canvas.canvas_height cv' = 720%Z.
Proof.
  destruct (canvas_shows_active_clip
              {| Canvas.p_currentTime := 2;
                 Canvas.p_clips := [Scenario.scenario_clip];
                 Canvas.p_width := 1280; Canvas.p_height := 720 |}
              [("c0"%string, Elements.createVideo Scenario.scenario_clip)]
              {| Canvas.canvas_width := 300; Canvas.canvas_height := 150;
                 Canvas.picture := Canvas.Black |})
    as (cv' & Hd & _ & _ & Hsize & _).
  - repeat constructor. cbn. intuition.
  - intros i el [[= <- <-]|[]]. exists Scenario.scenario_clip.
    split; [left; reflexivity|]. repeat split.
  - exists cv'. split; [exact Hd|].
    apply Hsize; cbn [Canvas.p_width Canvas.p_height]; lia.
Defined.

(** ** The playhead is never negative *)

Lemma advance_nonneg (d : Q) (s : State) :
  0 <= currentTime s -> 0 <= d -> 0 <= totalDuration s ->
  0 <= currentTime (advance d s).
Proof.
  intros Hc Hd Ht. unfold advance. cbn zeta.
  destruct (geb (currentTime s [+] d) (totalDuration s)).
  - destruct (isExporting s); cbn [currentTime setCurrentTime]; [exact Ht|lra].
  - cbn [currentTime setCurrentTime]. unfold Number.add.
    apply rnd_nonneg. lra.
Qed.

Lemma step_nonneg (ui : UI) (e : Event) :
  reachable_inv (app ui) -> 0 <= currentTime (app ui) -> clock_ok ui e ->
  0 <= currentTime (app (step ui e)).
Proof.
  intros Hinv Hc Hclock. unfold step. cbn [app]. rewrite currentTime_commit.
  assert (Hsame : forall s', currentTime s' = currentTime (app ui) ->
                             0 <= currentTime s').
  { intros s' E. rewrite E. exact Hc. }
  destruct e as [time| | |gid1 gid2| |gid url f tid ty meta| |gid| |n m x|x|
                 |x|n|o|r| |refs_ok sup|data|now]; cbn [handle];
    try (apply Hsame; cbn [with_app app]; handler_cases;
         cbn [with_app app]; handler_cases; fail).
  - (* frame *)
    cbn [with_app app]. destruct (isPlaying (app ui)); [|exact Hc].
    unfold animate. cbn [currentTime setPreviousTimeRef].
    destruct (previousTimeRef (app ui)) as [p|] eqn:Hp; [|exact Hc].
    apply advance_nonneg; [exact Hc| |].
    + specialize (Hclock p Hp).
      apply div_nonneg; [|reflexivity].
      unfold Number.sub. apply rnd_nonneg. lra.
    + rewrite (ri_duration _ Hinv). apply Qlt_le_weak, newDuration_pos.
  - (* Back *)
    cbn [with_app app]. unfold unless_exporting.
    destruct (isExporting (app ui)); [exact Hc|cbn; lra].
  - (* ruler *)
    destruct (Timeline.handleTimelineClick (dragState ui) x) as [t|] eqn:T;
      [|exact Hc].
    cbn [with_app app]. unfold onSeek. cbn [isExporting setSelectedClipId].
    destruct (isExporting (app ui)); [exact Hc|].
    cbn [currentTime setCurrentTime].
    unfold Timeline.handleTimelineClick in T.
    destruct (isDragging (dragState ui)); [discriminate|].
    injection T as <-. apply snap_nonneg.
    destruct (max_cases 0 (x [/] Timeline.scale)) as [[H E]|[H E]];
      rewrite E; lra.
  - (* Export *)
    cbn [with_app app]. unfold handleExport.
    destruct (isExporting (app ui)); [exact Hc|cbn; lra].
  - (* the stop event *)
    cbn [with_app app].
    destruct (mediaRecorderRef (app ui)) as [rec|]; [|exact Hc].
    destruct (stop_queued rec); [cbn; lra|exact Hc].
Qed.

(** X25.  The playhead is never negative: along every run of the editor
    from its initial state in which the timestamps of the animation
    frames do not go back, the position is at least 0 after every
    event. *)
Theorem playhead_never_negative (es : list Event) :
  clock_ascends initialUI es ->
  0 <= currentTime (app (run initialUI es)).
Proof.
  assert (H : forall es ui,
            reachable_inv (app ui) -> 0 <= currentTime (app ui) ->
            clock_ascends ui es -> 0 <= currentTime (app (run ui es))).
  { clear. induction es as [|e es IH]; intros ui Hinv Hc Hclock; [exact Hc|].
    destruct Hclock as [He Hes]. cbn [run fold_left].
    apply (IH (step ui e)); [|apply step_nonneg; assumption|exact Hes].
    apply (step_export ui e Hinv). }
  apply H; [apply initial_inv|cbn; lra].
Qed.

Lemma playhead_never_negative_witness :
  0 <= currentTime
         (app (run initialUI [ClickPlay; Frame 10; Frame 30; TimelineClick (-50)])).
Proof.
  apply (playhead_never_negative
           [ClickPlay; Frame 10; Frame 30; TimelineClick (-50)]).
  cbn [clock_ascends clock_ok]. repeat split.
  - intros p Hp. vm_compute in Hp. discriminate.
  - intros p Hp. vm_compute in Hp. injection Hp as <-. vm_compute. discriminate.
Defined.
